(** * Resumable transcription pipeline: a shallow embedding

    The development follows the Python sources of the pipeline:
    - [src/api/__init__.py]: the HTTP handlers (intake with cache lookup,
      retry, regenerate, and the two read handlers);
    - [src/workers/download_audio.py], [translate_audio_to_text.py],
      [generate_study_notes.py]: the three Celery tasks;
    - [src/database/models.py]: the [Note] row;
    - [src/database/__init__.py]: the schema migration.

    A Python [str] is modelled as the [string] of its UTF-8 bytes, and is
    taken apart character by character ([Py.chars]); the regex classes
    [\d] and [\s], [int] and [str.strip] follow the Unicode database.
    Python ints are [Z], dictionaries [gmap string pyval], the SQL table
    [gmap Z Note]. *)

From Stdlib Require Import ZArith Ascii String List Bool Lia.
From Stdlib Require Import SpecFloat.
From stdpp Require Import base option list strings pretty gmap sorting.

Local Open Scope Z_scope.

(** ** Python values *)

Module Py.

(** The values stored in the dictionaries passed between tasks. *)
Inductive pyval : Type :=
| PNone
| PStr (s : string)
| PInt (z : Z).

#[global] Instance pyval_eq_dec : EqDecision pyval.
Proof. solve_decision. Defined.

#[global] Instance pyval_inhabited : Inhabited pyval := populate PNone.

(** [bool(v)] *)
Definition truthy (v : pyval) : bool :=
  match v with
  | PNone => false
  | PStr s => negb (String.eqb s "")
  | PInt z => negb (z =? 0)
  end.

(** [bool(s)] for a nullable text column *)
Definition truthy_text (o : option string) : bool :=
  match o with
  | None => false
  | Some s => negb (String.eqb s "")
  end.

(** [str(v)], as used by f-string interpolation *)
Definition str (v : pyval) : string :=
  match v with
  | PNone => "None"
  | PStr s => s
  | PInt z => pretty z
  end.

(** A nullable text column read into a Python value. *)
Definition of_text (o : option string) : pyval :=
  match o with
  | None => PNone
  | Some s => PStr s
  end.

(** A Python value written to a nullable text column (SQLite stores the
    decimal text of an integer bound to a TEXT column). *)
Definition to_text (v : pyval) : option string :=
  match v with
  | PNone => None
  | PStr s => Some s
  | PInt z => Some (pretty z)
  end.

(** [d.get(k)] and [d.get(k, default)] *)
Definition get (d : gmap string pyval) (k : string) : pyval :=
  default PNone (d !! k).

Definition get_or (d : gmap string pyval) (k : string) (dflt : pyval) : pyval :=
  default dflt (d !! k).

(** *** Texts

    A text is a sequence of Unicode characters, here in UTF-8: a
    character is one byte below 128, or a first byte that announces one
    to three continuation bytes ([10xxxxxx]) and is followed by them. A
    byte that starts no such sequence stands alone: it is no character
    of a Python [str], and texts that hold one stand for none. *)

Definition byte (c : ascii) : N := N_of_ascii c.

Definition is_cont (c : ascii) : bool := (128 <=? byte c)%N && (byte c <? 192)%N.

(** The number of continuation bytes announced by a first byte. *)
Definition followers (c : ascii) : nat :=
  if (byte c <? 194)%N then 0
  else if (byte c <? 224)%N then 1
  else if (byte c <? 240)%N then 2
  else if (byte c <? 245)%N then 3
  else 0.

(** The [n] continuation bytes at the head of a text, and what follows. *)
Fixpoint take_cont (n : nat) (s : string) : option (string * string) :=
  match n with
  | O => Some ("", s)
  | S n' =>
    match s with
    | String c r =>
      if is_cont c then
        match take_cont n' r with
        | Some (t, rest) => Some (String c t, rest)
        | None => None
        end
      else None
    | EmptyString => None
    end
  end.

(** The first character of a text and the text after it. *)
Definition next_char (s : string) : option (string * string) :=
  match s with
  | EmptyString => None
  | String c r =>
    match take_cont (followers c) r with
    | Some (t, rest) => Some (String c t, rest)
    | None => Some (String c "", r)
    end
  end.

(** The characters of a text, in order; [skip] counts the bytes that
    belong to the character taken last. *)
Fixpoint chars_go (skip : nat) (s : string) : list string :=
  match s with
  | EmptyString => []
  | String c r =>
    match skip with
    | S n => chars_go n r
    | O =>
      match take_cont (followers c) r with
      | Some (t, _) => String c t :: chars_go (followers c) r
      | None => String c "" :: chars_go 0 r
      end
    end
  end.

Definition chars (s : string) : list string := chars_go 0 s.

(** ["".join(cs)] *)
Definition join (cs : list string) : string := foldr String.app "" cs.

(** [len(s)] *)
Definition len (s : string) : nat := length (chars s).

(** The code point of a character: the payload bits of its bytes, when
    the character is written on as few bytes as it takes. *)
Fixpoint cont_bits (acc : N) (t : string) : N :=
  match t with
  | EmptyString => acc
  | String c r => cont_bits (acc * 64 + (byte c - 128)) r
  end.

Definition lead_bits (c : ascii) : N :=
  if (byte c <? 224)%N then byte c - 192
  else if (byte c <? 240)%N then byte c - 224
  else byte c - 240.

(** The least code point that takes [S n] continuation bytes. *)
Definition least (n : nat) : N :=
  match n with
  | 0%nat => 0x80
  | 1%nat => 0x800
  | _ => 0x10000
  end.

Definition code_point (ch : string) : option N :=
  match ch with
  | EmptyString => None
  | String c t =>
    if (byte c <? 128)%N then
      match t with
      | EmptyString => Some (byte c)
      | String _ _ => None
      end
    else
      match followers c, take_cont (followers c) t with
      | S n, Some (_, EmptyString) =>
        let cp := cont_bits (lead_bits c) t in
        if (least n <=? cp)%N && (cp <? 0x110000)%N then Some cp else None
      | _, _ => None
      end
  end.

(** The decimal digits of Unicode (general category [Nd], Unicode 14.0,
    the database of CPython 3.11) come in runs of ten, zero to nine:
    the code points of the zeros. The first run is the ASCII digits. *)
Definition decimal_zeros : list N :=
  [0x30; 0x660; 0x6F0; 0x7C0; 0x966; 0x9E6; 0xA66; 0xAE6; 0xB66; 0xBE6; 0xC66;
   0xCE6; 0xD66; 0xDE6; 0xE50; 0xED0; 0xF20; 0x1040; 0x1090; 0x17E0; 0x1810;
   0x1946; 0x19D0; 0x1A80; 0x1A90; 0x1B50; 0x1BB0; 0x1C40; 0x1C50; 0xA620;
   0xA8D0; 0xA900; 0xA9D0; 0xA9F0; 0xAA50; 0xABF0; 0xFF10; 0x104A0; 0x10D30;
   0x11066; 0x110F0; 0x11136; 0x111D0; 0x112F0; 0x11450; 0x114D0; 0x11650;
   0x116C0; 0x11730; 0x118E0; 0x11950; 0x11C50; 0x11D50; 0x11DA0; 0x16A60;
   0x16AC0; 0x16B50; 0x1D7CE; 0x1D7D8; 0x1D7E2; 0x1D7EC; 0x1D7F6; 0x1E140;
   0x1E2F0; 0x1E950; 0x1FBF0]%N.

(** The value of a decimal digit. *)
Definition decimal_value (cp : N) : option N :=
  match List.find (λ z, (z <=? cp)%N && (cp <? z + 10)%N) decimal_zeros with
  | Some z => Some (cp - z)%N
  | None => None
  end.

(** The white space of [str.isspace], [str.strip] and [\s]. *)
Definition white_space : list N :=
  [0x9; 0xA; 0xB; 0xC; 0xD; 0x1C; 0x1D; 0x1E; 0x1F; 0x20; 0x85; 0xA0; 0x1680;
   0x2000; 0x2001; 0x2002; 0x2003; 0x2004; 0x2005; 0x2006; 0x2007; 0x2008;
   0x2009; 0x200A; 0x2028; 0x2029; 0x202F; 0x205F; 0x3000]%N.

(** The value of a character as a decimal digit. *)
Definition digit_of (ch : string) : option N :=
  match code_point ch with
  | Some cp => decimal_value cp
  | None => None
  end.

(** [\d] on a character *)
Definition is_digit (ch : string) : bool :=
  match digit_of ch with
  | Some _ => true
  | None => false
  end.

(** [\s] and [str.isspace] on a character *)
Definition is_space (ch : string) : bool :=
  match code_point ch with
  | Some cp => existsb (N.eqb cp) white_space
  | None => false
  end.

Definition digit_val (ch : string) : Z :=
  match digit_of ch with
  | Some v => Z.of_N v
  | None => 0
  end.

(** [int(s)] on a text of decimal digits; the rewrite only passes groups
    of the timestamp pattern to it, which hold digits only. *)
Definition int_from (acc : Z) (s : string) : Z :=
  foldl (λ acc ch, acc * 10 + digit_val ch) acc (chars s).

Definition int (s : string) : Z := int_from 0 s.

(** [f"{z:02d}"] *)
Definition fmt_02d (z : Z) : string :=
  let s := pretty z in
  if (String.length s <? 2)%nat then "0" +:+ s else s.

End Py.

Import Py.

(** ** Regular expressions with Python's backtracking order *)

Module Re.

(** Character classes used by the two patterns of the pipeline. *)
Inductive cls : Type :=
| Digit            (* \d *)
| Space            (* \s *)
| Dot.             (* .  : anything but a line feed *)

Definition newline : ascii := "010"%char.

Definition cls_test (k : cls) (ch : string) : bool :=
  match k with
  | Digit => is_digit ch
  | Space => is_space ch
  | Dot => negb (String.eqb ch (String newline ""))
  end.

(** [Chr c] is the character [c] of a pattern (all of them are ASCII);
    [Rep k lo hi] is the greedy repetition [k{lo,hi}] of a class
    ([hi = None]: unbounded); [Opt r] is [(?:r)?]; [Grp i r] is the
    capturing group number [i]. *)
Inductive re : Type :=
| Chr (c : ascii)
| Rep (k : cls) (lo : nat) (hi : option nat)
| Seq (r1 r2 : re)
| Opt (r : re)
| Grp (i : nat) (r : re).

Definition at_limit (hi : option nat) : bool :=
  match hi with
  | Some O => true
  | _ => false
  end.

Section Matcher.
Context {A : Type}.

(** Greedy repetition over the characters of the text: take a character
    when allowed, fall back to stopping here when the rest of the
    pattern fails after it. The continuation gets the consumed text and
    the remaining text. *)
Fixpoint rep (p : string → bool) (lo : nat) (hi : option nat) (cs : list string)
    (k : string → string → option A) : option A :=
  let stop := match lo with O => k "" (join cs) | S _ => None end in
  match cs with
  | ch :: cs' =>
    if p ch && negb (at_limit hi) then
      match rep p (Nat.pred lo) (Nat.pred <$> hi) cs'
                (λ t rest, k (ch +:+ t) rest) with
      | Some x => Some x
      | None => stop
      end
    else stop
  | [] => stop
  end.

(** The backtracking matcher, in continuation-passing style: [k] is
    the rest of the pattern and gets the text consumed by [r], the
    remaining text and the groups captured so far. *)
Fixpoint run (r : re) (s : string) (g : gmap nat string)
    (k : string → string → gmap nat string → option A) : option A :=
  match r with
  | Chr c =>
    match next_char s with
    | Some (ch, s') => if String.eqb ch (String c "") then k ch s' g else None
    | None => None
    end
  | Rep cl lo hi => rep (cls_test cl) lo hi (chars s) (λ t rest, k t rest g)
  | Seq r1 r2 =>
    run r1 s g (λ t1 s1 g1, run r2 s1 g1 (λ t2 s2 g2, k (t1 +:+ t2) s2 g2))
  | Opt r' =>
    match run r' s g k with
    | Some x => Some x
    | None => k "" s g
    end
  | Grp i r' => run r' s g (λ t rest g', k t rest (<[i := t]> g'))
  end.
End Matcher.

(** [re.match(r, s)]: the groups of the match at the head of [s] and the
    text after the match. *)
Definition re_match (r : re) (s : string) : option (gmap nat string * string) :=
  run r s ∅ (λ _ rest g, Some (g, rest)).

(** The declarative reading of a pattern: [Matches r t g g'] when [r]
    matches exactly the text [t], taking the groups from [g] to [g'];
    a repetition matches a text made of characters of its class, as
    many as its bounds allow. *)
Definition all_cls (k : cls) (s : string) : bool := forallb (cls_test k) (chars s).

Definition within (n : nat) (lo : nat) (hi : option nat) : Prop :=
  (lo ≤ n)%nat ∧ match hi with Some h => (n ≤ h)%nat | None => True end.

Inductive Matches : re → string → gmap nat string → gmap nat string → Prop :=
| M_Chr c g : Matches (Chr c) (String c "") g g
| M_Rep k lo hi t g :
    all_cls k t = true → within (len t) lo hi →
    Matches (Rep k lo hi) t g g
| M_Seq r1 r2 t1 t2 g g1 g2 :
    Matches r1 t1 g g1 → Matches r2 t2 g1 g2 →
    Matches (Seq r1 r2) (t1 +:+ t2) g g2
| M_Opt_some r t g g' : Matches r t g g' → Matches (Opt r) t g g'
| M_Opt_none r g : Matches (Opt r) "" g g
| M_Grp i r t g g' : Matches r t g g' → Matches (Grp i r) t g (<[i := t]> g').

End Re.

Import Re.

Declare Scope re_scope.
Delimit Scope re_scope with re.
Bind Scope re_scope with re.
Infix "⋅" := Seq (at level 41, right associativity) : re_scope.

(** ** The timestamp rewrite of [generate_study_notes.py] *)

Module Rewrite.

(** [r"\[(\d{1,2}):(\d{2})(?::(\d{2}))?\]"] *)
Definition timestamp_pattern : re :=
  (Chr "[" ⋅ Grp 1 (Rep Digit 1 (Some 2%nat)) ⋅ Chr ":" ⋅ Grp 2 (Rep Digit 2 (Some 2%nat))
   ⋅ Opt (Chr ":" ⋅ Grp 3 (Rep Digit 2 (Some 2%nat))) ⋅ Chr "]")%re.

(** [match.group(i)]: [None] for a group that took no part in the match. *)
Definition group (m : gmap nat string) (i : nat) : option string := m !! i.

(** [int(match.group(i))] for a group that took part in the match. *)
Definition int_group (m : gmap nat string) (i : nat) : Z :=
  int (default "" (group m i)).

Definition replace_timestamp (youtube_url : pyval) (m : gmap nat string) : string :=
  let '(total_seconds, display_time) :=
    if truthy_text (group m 3) then
      let hours := int_group m 1 in
      let minutes := int_group m 2 in
      let seconds := int_group m 3 in
      (hours * 3600 + minutes * 60 + seconds,
       pretty hours +:+ ":" +:+ fmt_02d minutes +:+ ":" +:+ fmt_02d seconds)
    else
      let minutes := int_group m 1 in
      let seconds := int_group m 2 in
      (minutes * 60 + seconds, pretty minutes +:+ ":" +:+ fmt_02d seconds) in
  let timestamp_link := str youtube_url +:+ "?t=" +:+ pretty total_seconds in
  "[" +:+ display_time +:+ "](" +:+ timestamp_link +:+ ")".

(** [re.sub(timestamp_pattern, replace_timestamp, text)]: leftmost
    matches, scanning resumes after each match, and a character at
    which no match starts is copied. The fuel bounds the number of
    scanning steps; [re_sub_unfold] shows that the length of the text is
    enough. *)
Fixpoint re_sub_fuel (fuel : nat) (youtube_url : pyval) (s : string) : string :=
  match fuel with
  | O => s
  | S fuel' =>
    match re_match timestamp_pattern s with
    | Some (m, rest) =>
      replace_timestamp youtube_url m +:+ re_sub_fuel fuel' youtube_url rest
    | None =>
      match next_char s with
      | Some (ch, s') => ch +:+ re_sub_fuel fuel' youtube_url s'
      | None => EmptyString
      end
    end
  end.

Definition add_youtube_timestamps (markdown_text : string) (youtube_url : pyval) : string :=
  re_sub_fuel (S (String.length markdown_text)) youtube_url markdown_text.

(** The guarded call in [generate_study_notes]:
    [if youtube_link: study_notes = add_youtube_timestamps(...)]. *)
Definition postprocess (study_notes : string) (youtube_link : pyval) : string :=
  if truthy youtube_link then add_youtube_timestamps study_notes youtube_link
  else study_notes.

End Rewrite.

Import Rewrite.

(** ** The canonical transcript lines *)

Module Transcript.

(** A segment of the speech-to-text answer: [seg.start], [seg.end]
    (binary floating-point numbers) and [seg.text]. *)
Record segment : Type := Segment {
  seg_start : spec_float;
  seg_end : spec_float;
  seg_text : string
}.

(** The answer of the provider: [transcript.segments] (empty when the
    attribute is missing or empty) and the text used otherwise
    ([transcript.text], or [str(transcript)]). *)
Record transcript : Type := Transcript {
  segments : list segment;
  text : string
}.

(** [num / den] rounded to the nearest integer, ties to even. *)
Definition round_half_even (num den : Z) : Z :=
  let q := num / den in
  let r := num mod den in
  match 2 * r ?= den with
  | Lt => q
  | Gt => q + 1
  | Eq => if Z.even q then q else q + 1
  end.

(** The magnitude [m * 2^e] in hundredths, correctly rounded. *)
Definition hundredths (m : positive) (e : Z) : Z :=
  if 0 <=? e then Z.pos m * 2 ^ e * 100
  else round_half_even (Z.pos m * 100) (2 ^ (- e)).

Definition sign_text (s : bool) : string := if s then "-" else "".

(** [f"{x:.2f}"] *)
Definition fmt_2f (x : spec_float) : string :=
  match x with
  | S754_nan => "nan"
  | S754_infinity s => sign_text s +:+ "inf"
  | S754_zero s => sign_text s +:+ "0.00"
  | S754_finite s m e =>
    let h := hundredths m e in
    sign_text s +:+ pretty (h / 100) +:+ "." +:+ fmt_02d (h mod 100)
  end.

(** [f"[{seg.start:.2f}s -> {seg.end:.2f}s] {seg.text}"] *)
Definition transcription_line (seg : segment) : string :=
  "[" +:+ fmt_2f (seg_start seg) +:+ "s -> " +:+ fmt_2f (seg_end seg)
  +:+ "s] " +:+ seg_text seg.

Definition LF : string := String newline "".

(** ["\n".join(lines)] *)
Fixpoint join_lines (lines : list string) : string :=
  match lines with
  | [] => ""
  | [l] => l
  | l :: ls => l +:+ LF +:+ join_lines ls
  end.

(** The text stored by [translate_audio_to_text]. *)
Definition serialize (t : transcript) : string :=
  match segments t with
  | [] => text t
  | segs => join_lines (transcription_line <$> segs)
  end.

(** [s.split("\n")] *)
Fixpoint split_lines (s : string) : list string :=
  match s with
  | EmptyString => [""]
  | String c r =>
    if Ascii.eqb c newline then "" :: split_lines r
    else match split_lines r with
         | l :: ls => String c l :: ls
         | [] => [String c ""]
         end
  end.

(** [s.strip()]: the text without the white space at its two ends. *)
Fixpoint lstrip (cs : list string) : list string :=
  match cs with
  | ch :: r => if is_space ch then lstrip r else cs
  | [] => []
  end.

Fixpoint rstrip (cs : list string) : list string :=
  match cs with
  | ch :: r =>
    match rstrip r with
    | [] => if is_space ch then [] else [ch]
    | r' => ch :: r'
    end
  | [] => []
  end.

Definition strip (s : string) : string := join (rstrip (lstrip (chars s))).

(** A number of the pattern: [\d+], an optional point, [\d*]. *)
Definition number : re := (Rep Digit 1 None ⋅ Opt (Chr ".") ⋅ Rep Digit 0 None)%re.

(** The [timestamp_pattern] of [generate_study_notes]: an opening
    bracket, group 1 (a number) and [s], spaces, [->], spaces, group 2
    (a number) and [s], a closing bracket, spaces, group 3 ([.+]). *)
Definition timestamp_pattern : re :=
  (Chr "[" ⋅ Grp 1 number ⋅ Chr "s" ⋅ Rep Space 0 None ⋅ Chr "-" ⋅ Chr ">"
   ⋅ Rep Space 0 None ⋅ Grp 2 number ⋅ Chr "s" ⋅ Chr "]" ⋅ Rep Space 0 None
   ⋅ Grp 3 (Rep Dot 1 None))%re.

Section Parse.
(** Python's [float(s)] on a decimal literal. *)
Variable float : string → spec_float.

(** One entry of [segments] in [generate_study_notes]. *)
Record parsed : Type := Parsed {
  start_time : spec_float;
  end_time : spec_float;
  text_of : string
}.

Definition parse_line (line : string) : option parsed :=
  match re_match timestamp_pattern line with
  | Some (g, _) =>
    Some (Parsed (float (default "" (g !! 1%nat)))
                 (float (default "" (g !! 2%nat)))
                 (strip (default "" (g !! 3%nat))))
  | None => None
  end.

(** The loop over [transcription.split("\n")]: lines that do not match
    are skipped. *)
Definition parse_segments (transcription : string) : list parsed :=
  omap parse_line (split_lines transcription).

(** The [segments_text] put in the prompt. *)
Definition segments_text (segs : list parsed) : string :=
  join_lines ((λ seg, "[" +:+ fmt_2f (start_time seg) +:+ "s - "
                      +:+ fmt_2f (end_time seg) +:+ "s] " +:+ text_of seg) <$> segs).
End Parse.

End Transcript.

(** ** The [notes] table and the database session *)

(** A row of [src/database/models.py]; [updated_at], which no operation
    reads, is left out. The status column is free text. *)
Module Note.
Record t : Type := Make {
  id : Z;
  youtube_url : string;
  task_id : option string;
  status : string;
  audio_id : option string;
  audio_path : option string;
  error : option string;
  transcription : option string;
  note : option string;
  created_at : Z
}.

Definition set_task_id (v : option string) (n : t) : t :=
  Make (id n) (youtube_url n) v (status n) (audio_id n) (audio_path n)
       (error n) (transcription n) (note n) (created_at n).
Definition set_status (v : string) (n : t) : t :=
  Make (id n) (youtube_url n) (task_id n) v (audio_id n) (audio_path n)
       (error n) (transcription n) (note n) (created_at n).
Definition set_audio_id (v : option string) (n : t) : t :=
  Make (id n) (youtube_url n) (task_id n) (status n) v (audio_path n)
       (error n) (transcription n) (note n) (created_at n).
Definition set_audio_path (v : option string) (n : t) : t :=
  Make (id n) (youtube_url n) (task_id n) (status n) (audio_id n) v
       (error n) (transcription n) (note n) (created_at n).
Definition set_error (v : option string) (n : t) : t :=
  Make (id n) (youtube_url n) (task_id n) (status n) (audio_id n) (audio_path n)
       v (transcription n) (note n) (created_at n).
Definition set_transcription (v : option string) (n : t) : t :=
  Make (id n) (youtube_url n) (task_id n) (status n) (audio_id n) (audio_path n)
       (error n) v (note n) (created_at n).
Definition set_note (v : option string) (n : t) : t :=
  Make (id n) (youtube_url n) (task_id n) (status n) (audio_id n) (audio_path n)
       (error n) (transcription n) v (created_at n).
End Note.

(** ** Celery messages *)

Module Celery.

(** The tasks that take the result of the previous task of a chain. *)
Inductive linked : Type :=
| translate_audio_to_text_s
| generate_study_notes_s.

(** A task with its arguments. *)
Inductive call : Type :=
| download_audio_call (youtube_link : string) (note_id : Z)
| translate_audio_to_text_call (audio_data : gmap string pyval)
| generate_study_notes_call (transcription_data : gmap string pyval).

(** A message of the broker: the task to run, [self.request.retries]
    and the remaining tasks of its chain. *)
Record message : Type := Message {
  msg_call : call;
  msg_retries : nat;
  msg_chain : list linked
}.

(** [max_retries=2] of the three task decorators. *)
Definition max_retries : nat := 2.

Definition apply_linked (l : linked) (result : gmap string pyval) : call :=
  match l with
  | translate_audio_to_text_s => translate_audio_to_text_call result
  | generate_study_notes_s => generate_study_notes_call result
  end.

(** [create_audio_transcription_chain] of [src/workers/__init__.py]. *)
Definition create_audio_transcription_chain (youtube_link : string) (note_id : Z) : message :=
  Message (download_audio_call youtube_link note_id) 0
          [translate_audio_to_text_s; generate_study_notes_s].

End Celery.

Import Celery.

Module Db.

(** What an operation does to the outside: a [db.commit()] with the
    table it persists, or a message sent to the broker by [.delay()]. *)
Inductive event : Type :=
| Committed (table : gmap Z Note.t)
| Delayed (m : message).

Inductive exn : Type :=
| HTTPException (status_code : Z) (detail : string)
| Exception (message : string).

(** [str(e)] *)
Definition str_exn (e : exn) : string :=
  match e with
  | HTTPException _ detail => detail
  | Exception m => m
  end.

(** The state threaded through an operation: the rows as the session
    sees them, the files on disk and the events so far (oldest first). *)
Record session : Type := Session {
  rows : gmap Z Note.t;
  files : gset string;
  trail : list event
}.

Inductive outcome (A : Type) : Type :=
| Return (a : A)
| Raise (e : exn).
Arguments Return {A} a.
Arguments Raise {A} e.

Definition M (A : Type) : Type := session → outcome A * session.

Definition ret {A} (a : A) : M A := λ s, (Return a, s).

Definition bind {A B} (m : M A) (f : A → M B) : M B :=
  λ s, match m s with
       | (Return a, s') => f a s'
       | (Raise e, s') => (Raise e, s')
       end.

Definition raise {A} (e : exn) : M A := λ s, (Raise e, s).

(** [try: body except Exception as e: handler(e)] *)
Definition try_except {A} (body : M A) (handler : exn → M A) : M A :=
  λ s, match body s with
       | (Return a, s') => (Return a, s')
       | (Raise e, s') => handler e s'
       end.

(** [try: body except: pass] *)
Definition try_pass (body : M unit) : M unit :=
  try_except body (λ _, ret tt).

(** [db.query(Note).filter(Note.id == notes_id).first()] *)
Definition query_by_id (notes_id : Z) : M (option Note.t) :=
  λ s, (Return (rows s !! notes_id), s).

(** The same query with the id taken from a dictionary: only an int
    selects a row. *)
Definition query_by_pyval (note_id : pyval) : M (option Note.t) :=
  match note_id with
  | PInt z => query_by_id z
  | _ => ret None
  end.

(** An attribute assignment [note.field = v] on the row [notes_id]. *)
Definition assign (notes_id : Z) (f : Note.t → Note.t) : M unit :=
  λ s, (Return tt, Session (alter f notes_id (rows s)) (files s) (trail s)).

(** [db.commit()] *)
Definition commit : M unit :=
  λ s, (Return tt, Session (rows s) (files s) (trail s ++ [Committed (rows s)])).

(** [signature.delay()]: the message goes to the broker and the id of
    the asynchronous result comes back. *)
Definition delay (m : message) (task_id : string) : M string :=
  λ s, (Return task_id, Session (rows s) (files s) (trail s ++ [Delayed m])).

(** [Path(p).exists()] *)
Definition path_exists (p : string) : M bool :=
  λ s, (Return (bool_decide (p ∈ files s)), s).

(** The provider wrote the file [p]. *)
Definition file_written (p : string) : M unit :=
  λ s, (Return tt, Session (rows s) ({[ p ]} ∪ files s) (trail s)).

(** The next value of the integer primary key: one more than the largest. *)
Definition next_id (table : gmap Z Note.t) : Z :=
  map_fold (λ k _ acc, Z.max k acc) 0 table + 1.

(** [note = Note(youtube_url=url, status="pending"); db.add(note);
    db.commit(); db.refresh(note)] *)
Definition add_note (url : string) (now : Z) : M Note.t :=
  λ s, let n := Note.Make (next_id (rows s)) url None "pending" None None None None None now in
       let table := <[Note.id n := n]> (rows s) in
       (Return n, Session table (files s) (trail s ++ [Committed table])).

(** The table left by an operation that started on [table]: the last
    commit, uncommitted changes being dropped by [db.close()]. *)
Definition persisted (table : gmap Z Note.t) (evs : list event) : gmap Z Note.t :=
  foldl (λ acc ev, match ev with Committed t => t | Delayed _ => acc end) table evs.

(** The messages sent by an operation, oldest first. *)
Definition delayed (evs : list event) : list message :=
  omap (λ ev, match ev with Delayed m => Some m | Committed _ => None end) evs.

(** The tables committed by an operation, oldest first. *)
Definition commits (evs : list event) : list (gmap Z Note.t) :=
  omap (λ ev, match ev with Committed t => Some t | Delayed _ => None end) evs.

(** [SessionLocal()] on the persisted table. *)
Definition SessionLocal (table : gmap Z Note.t) (disk : gset string) : session :=
  Session table disk [].

End Db.

Import Db.

#[global] Instance M_ret : MRet M := @ret.
#[global] Instance M_bind : MBind M := λ A B f m, bind m f.

(** ** The three Celery tasks *)

Module Workers.

(** [response.text] of the text generation provider, and the text of
    [response.prompt_feedback.block_reason] when the feedback carries a
    block reason. *)
Record response : Type := Response {
  response_text : string;
  block_reason : option string
}.

(** What the outside world answers during one run of a task: the value
    of [uuid.uuid4()], the error raised by [ydl.download] if any, and
    the answers (or the error raised) of the two providers. *)
Record world : Type := World {
  uuid4 : string;
  ydl_download : option string;
  transcriptions_create : string + Transcript.transcript;
  generate_content : string + response
}.

(** The [except] block of the three tasks: on the last attempt the row
    is marked failed, and the exception is raised again for Celery. *)
Definition mark_failed_and_reraise {A} (what : string) (retry_count : nat)
    (note_id : pyval) (e : exn) : M A :=
  _ ← (if (2 <=? retry_count)%nat then
         try_pass (
           note ← query_by_pyval note_id;
           match note with
           | Some n =>
             _ ← assign (Note.id n) (Note.set_status "failed");
             _ ← assign (Note.id n) (Note.set_error (Some (
                   what +:+ " failed after " +:+ pretty (Z.of_nat retry_count + 1)
                   +:+ " attempts: " +:+ str_exn e)));
             commit
           | None => ret tt
           end)
       else ret tt);
  raise e.

Definition not_found (note_id : pyval) : pyval :=
  PStr ("Note with id " +:+ str note_id +:+ " not found").

(** [download_audio(self, youtube_link, note_id)] with
    [self.request.retries = retries]. *)
Definition download_audio (w : world) (retries : nat)
    (youtube_link : string) (note_id : Z) : M (gmap string pyval) :=
  try_except (
    note ← query_by_id note_id;
    match note with
    | None =>
      ret (list_to_map [("error", not_found (PInt note_id)); ("note_id", PInt note_id)])
    | Some n =>
      _ ← assign (Note.id n) (Note.set_status "processing");
      _ ← commit;
      let audio_id := uuid4 w in
      let output_file := "media/" +:+ audio_id +:+ ".mp3" in
      _ ← match ydl_download w with
          | Some err => raise (Exception err)
          | None => file_written output_file
          end;
      _ ← assign (Note.id n) (Note.set_audio_id (Some audio_id));
      _ ← assign (Note.id n) (Note.set_audio_path (Some output_file));
      _ ← assign (Note.id n) (Note.set_status "processing");
      _ ← commit;
      ret (list_to_map [("note_id", PInt note_id); ("audio_id", PStr audio_id);
                        ("audio_path", PStr output_file);
                        ("youtube_link", PStr youtube_link)])
    end)
    (mark_failed_and_reraise "Download" retries (PInt note_id)).

(** [Path(audio_path).exists()] on a value of the dictionary; a path
    that is not a string raises [TypeError]. *)
Definition audio_file_exists (audio_path : pyval) : M bool :=
  match audio_path with
  | PStr p => path_exists p
  | _ => raise (Exception "expected str, bytes or os.PathLike object, not int")
  end.

(** [translate_audio_to_text(self, audio_data)] *)
Definition translate_audio_to_text (w : world) (retries : nat)
    (audio_data : gmap string pyval) : M (gmap string pyval) :=
  let note_id := get audio_data "note_id" in
  let audio_path := get audio_data "audio_path" in
  let audio_id := get audio_data "audio_id" in
  try_except (
    note ← query_by_pyval note_id;
    match note with
    | None =>
      ret (list_to_map [("note_id", note_id); ("transcription", PNone);
                        ("error", not_found note_id)])
    | Some n =>
      missing ← (if negb (truthy audio_path) then ret true
                 else b ← audio_file_exists audio_path; ret (negb b));
      if missing : bool then
        let error_msg := get_or audio_data "error" (PStr "Audio file not found") in
        _ ← assign (Note.id n) (Note.set_status "failed");
        _ ← commit;
        ret (list_to_map [("note_id", note_id); ("audio_id", audio_id);
                          ("transcription", PNone); ("error", error_msg)])
      else
        transcript ← match transcriptions_create w with
                     | inl err => raise (Exception err)
                     | inr t => ret t
                     end;
        let transcription := Transcript.serialize transcript in
        _ ← assign (Note.id n) (Note.set_transcription (Some transcription));
        _ ← assign (Note.id n) (Note.set_status "processing");
        _ ← commit;
        ret (list_to_map [("note_id", note_id); ("audio_id", audio_id);
                          ("transcription", PStr transcription);
                          ("audio_path", audio_path);
                          ("youtube_link", get audio_data "youtube_link")])
    end)
    (mark_failed_and_reraise "Transcription" retries note_id).

(** The call of the provider and the check of its answer, in the inner
    [try] of [generate_study_notes]. *)
Definition generate_text (w : world) : M string :=
  match generate_content w with
  | inl err => raise (Exception err)
  | inr r =>
    if negb (String.eqb (response_text r) "") then ret (response_text r)
    else match block_reason r with
         | Some reason => raise (Exception ("Content generation blocked: " +:+ reason))
         | None => raise (Exception "Empty response from Gemini API")
         end
  end.

(** [generate_study_notes(self, transcription_data)]. The prompt built
    from the parsed transcription only reaches the provider, whose
    answer is part of [w]; [transcription.split] needs a string. *)
Definition generate_study_notes (w : world) (retries : nat)
    (transcription_data : gmap string pyval) : M (gmap string pyval) :=
  let note_id := get transcription_data "note_id" in
  let transcription := get transcription_data "transcription" in
  let youtube_link := get transcription_data "youtube_link" in
  note ← query_by_pyval note_id;
  match note with
  | None =>
    ret (list_to_map [("note_id", note_id); ("study_notes", PNone);
                      ("error", not_found note_id)])
  | Some n =>
    if negb (truthy transcription) then
      let error_msg := get_or transcription_data "error" (PStr "Transcription not found") in
      _ ← assign (Note.id n) (Note.set_status "failed");
      _ ← assign (Note.id n) (Note.set_error (to_text error_msg));
      _ ← commit;
      ret (list_to_map [("note_id", note_id); ("study_notes", PNone);
                        ("error", error_msg)])
    else
      match transcription with
      | PStr _ =>
        try_except (
          text ← generate_text w;
          let study_notes := Rewrite.postprocess text youtube_link in
          _ ← assign (Note.id n) (Note.set_note (Some study_notes));
          _ ← assign (Note.id n) (Note.set_status "completed");
          _ ← commit;
          ret (list_to_map [("note_id", note_id); ("study_notes", PStr study_notes);
                            ("youtube_link", youtube_link)]))
          (mark_failed_and_reraise "Study notes generation" retries note_id)
      | _ => raise (Exception "'int' object has no attribute 'split'")
      end
  end.

(** One run of a message by a worker. *)
Definition run_call (w : world) (m : message) : M (gmap string pyval) :=
  match msg_call m with
  | download_audio_call youtube_link note_id =>
    download_audio w (msg_retries m) youtube_link note_id
  | translate_audio_to_text_call audio_data =>
    translate_audio_to_text w (msg_retries m) audio_data
  | generate_study_notes_call transcription_data =>
    generate_study_notes w (msg_retries m) transcription_data
  end.

(** What Celery does with the outcome: the result goes to the next task
    of the chain; with [autoretry_for=(Exception,)] a raised exception
    sends the message again while [retries < max_retries], and drops the
    chain after that. *)
Definition follow_up (m : message) (o : outcome (gmap string pyval)) : list message :=
  match o with
  | Return result =>
    match msg_chain m with
    | next :: rest => [Message (apply_linked next result) 0 rest]
    | [] => []
    end
  | Raise _ =>
    if (msg_retries m <? max_retries)%nat
    then [Message (msg_call m) (S (msg_retries m)) (msg_chain m)]
    else []
  end.

End Workers.

Import Workers.

(** ** The HTTP handlers of [src/api/__init__.py] *)

Module Api.

(** [Status] and [ImportResponseModel] of [src/api/models.py]. *)
Inductive Status : Type := PENDING | PROCESSING | FAILED | COMPLETED.

Record ImportResponseModel : Type := ImportResponse {
  status : Status;
  import_id : string
}.

Definition is_some {A} (o : option A) : bool :=
  match o with
  | Some _ => true
  | None => false
  end.

(** The filter of the cache lookup: same URL, [status == "completed"],
    [note IS NOT NULL]. *)
Definition cached (url : string) (n : Note.t) : bool :=
  String.eqb (Note.youtube_url n) url
  && String.eqb (Note.status n) "completed"
  && is_some (Note.note n).

(** [order_by(Note.created_at.desc()).first()] keeps a row with the
    largest [created_at]; between rows of equal [created_at] the order
    is the database's, here the order of the scan. *)
Definition newer (best : option Note.t) (n : Note.t) : option Note.t :=
  match best with
  | Some b => if Note.created_at b <? Note.created_at n then Some n else Some b
  | None => Some n
  end.

Definition query_existing (url : string) : M (option Note.t) :=
  λ s, (Return (foldl newer None (List.filter (cached url) (map_to_list (rows s)).*2)), s).

(** [POST /notes/youtube] *)
Definition create_notes_from_youtube (url : string) (now : Z) (task_id : string)
    : M ImportResponseModel :=
  existing_note ← query_existing url;
  note ← add_note url now;
  match existing_note with
  | Some existing =>
    if truthy_text (Note.note existing) then
      _ ← assign (Note.id note) (Note.set_transcription (Note.transcription existing));
      _ ← assign (Note.id note) (Note.set_note (Note.note existing));
      _ ← assign (Note.id note) (Note.set_status "completed");
      _ ← assign (Note.id note) (Note.set_audio_path (Note.audio_path existing));
      _ ← assign (Note.id note) (Note.set_audio_id (Note.audio_id existing));
      _ ← commit;
      ret (ImportResponse COMPLETED (pretty (Note.id note)))
    else
      task ← delay (create_audio_transcription_chain url (Note.id note)) task_id;
      _ ← assign (Note.id note) (Note.set_task_id (Some task));
      _ ← commit;
      ret (ImportResponse PENDING task)
  | None =>
    task ← delay (create_audio_transcription_chain url (Note.id note)) task_id;
    _ ← assign (Note.id note) (Note.set_task_id (Some task));
    _ ← commit;
    ret (ImportResponse PENDING task)
  end.

(** The [transcription_data] built by the retry and regenerate handlers. *)
Definition transcription_data_of (n : Note.t) : gmap string pyval :=
  list_to_map [("note_id", PInt (Note.id n));
               ("transcription", of_text (Note.transcription n));
               ("youtube_link", PStr (Note.youtube_url n))].

(** The [audio_data] built by the retry handler; [note.audio_id or ""]. *)
Definition audio_data_of (n : Note.t) : gmap string pyval :=
  list_to_map [("note_id", PInt (Note.id n));
               ("audio_id", PStr (if truthy_text (Note.audio_id n)
                                  then default "" (Note.audio_id n) else ""));
               ("audio_path", of_text (Note.audio_path n));
               ("youtube_link", PStr (Note.youtube_url n))].

(** [POST /notes/{notes_id}/retry] *)
Definition retry_note (notes_id : Z) (task_id : string) : M ImportResponseModel :=
  note ← query_by_id notes_id;
  match note with
  | None => raise (HTTPException 404 "Note not found")
  | Some n =>
    if String.eqb (Note.status n) "completed" && truthy_text (Note.note n) then
      ret (ImportResponse COMPLETED (pretty (Note.id n)))
    else
      audio_exists ← (if truthy_text (Note.audio_path n)
                      then path_exists (default "" (Note.audio_path n))
                      else ret false);
      let transcription_exists := is_some (Note.transcription n) in
      if audio_exists && transcription_exists then
        _ ← assign (Note.id n) (Note.set_status "processing");
        _ ← assign (Note.id n) (Note.set_error None);
        _ ← commit;
        task ← delay (Message (generate_study_notes_call (transcription_data_of n)) 0 []) task_id;
        _ ← assign (Note.id n) (Note.set_task_id (Some task));
        _ ← commit;
        ret (ImportResponse PENDING task)
      else if audio_exists : bool then
        _ ← assign (Note.id n) (Note.set_status "processing");
        _ ← assign (Note.id n) (Note.set_error None);
        _ ← commit;
        task ← delay (Message (translate_audio_to_text_call (audio_data_of n)) 0
                              [generate_study_notes_s]) task_id;
        _ ← assign (Note.id n) (Note.set_task_id (Some task));
        _ ← commit;
        ret (ImportResponse PENDING task)
      else
        _ ← assign (Note.id n) (Note.set_status "pending");
        _ ← assign (Note.id n) (Note.set_error None);
        _ ← assign (Note.id n) (Note.set_audio_path None);
        _ ← assign (Note.id n) (Note.set_audio_id None);
        _ ← commit;
        task ← delay (create_audio_transcription_chain (Note.youtube_url n) (Note.id n)) task_id;
        _ ← assign (Note.id n) (Note.set_task_id (Some task));
        _ ← commit;
        ret (ImportResponse PENDING task)
  end.

(** The body of the loop of [regenerate_all_notes], also the tail of
    [regenerate_note]: failed first, then the task, then processing. *)
Definition regenerate (n : Note.t) (task_id : string) : M string :=
  _ ← assign (Note.id n) (Note.set_status "failed");
  _ ← assign (Note.id n) (Note.set_error None);
  _ ← commit;
  task ← delay (Message (generate_study_notes_call (transcription_data_of n)) 0 []) task_id;
  _ ← assign (Note.id n) (Note.set_task_id (Some task));
  _ ← assign (Note.id n) (Note.set_status "processing");
  _ ← commit;
  ret task.

Fixpoint regenerate_loop (notes : list Note.t) (task_ids : nat → string) (count : nat)
    : M nat :=
  match notes with
  | [] => ret count
  | n :: rest =>
    _ ← regenerate n (task_ids count);
    regenerate_loop rest task_ids (S count)
  end.

(** [POST /notes/regenerate-all]; the rows with a transcription and no
    study notes, in the order of the scan. The result is the count put
    in the answer. *)
Definition regenerate_all_notes (task_ids : nat → string) : M nat :=
  λ s,
    let notes_to_regenerate :=
      List.filter (λ n, is_some (Note.transcription n) && negb (is_some (Note.note n)))
                  (map_to_list (rows s)).*2 in
    regenerate_loop notes_to_regenerate task_ids 0 s.

(** [POST /notes/{notes_id}/regenerate-note] *)
Definition regenerate_note (notes_id : Z) (task_id : string) : M ImportResponseModel :=
  note ← query_by_id notes_id;
  match note with
  | None => raise (HTTPException 404 "Note not found")
  | Some n =>
    if negb (truthy_text (Note.transcription n)) then
      raise (HTTPException 400
               "Note does not have transcription. Cannot generate study notes.")
    else if truthy_text (Note.note n) then
      ret (ImportResponse COMPLETED (pretty (Note.id n)))
    else
      task ← regenerate n task_id;
      ret (ImportResponse PENDING task)
  end.

End Api.

(** ** The whole system: handlers, workers and the disk *)

Module System.

Record state : Type := State {
  db : gmap Z Note.t;
  disk : gset string;
  broker : list message
}.

Definition initial : state := State ∅ ∅ [].

Inductive action : Type :=
| post_notes_youtube (url : string) (now : Z) (task_id : string)
| post_retry (notes_id : Z) (task_id : string)
| post_regenerate_all (task_ids : nat → string)
| post_regenerate_note (notes_id : Z) (task_id : string)
| worker_runs (i : nat) (w : world)
| disk_changes (files : gset string).

(** The events of an action on a state. *)
Definition events_of (a : action) (st : state) : list event :=
  let s := SessionLocal (db st) (disk st) in
  match a with
  | post_notes_youtube url now task_id =>
    trail (Api.create_notes_from_youtube url now task_id s).2
  | post_retry notes_id task_id => trail (Api.retry_note notes_id task_id s).2
  | post_regenerate_all task_ids => trail (Api.regenerate_all_notes task_ids s).2
  | post_regenerate_note notes_id task_id =>
    trail (Api.regenerate_note notes_id task_id s).2
  | worker_runs i w =>
    match broker st !! i with
    | Some m => trail (run_call w m s).2
    | None => []
    end
  | disk_changes _ => []
  end.

(** The files after an action. *)
Definition disk_after (a : action) (st : state) : gset string :=
  let s := SessionLocal (db st) (disk st) in
  match a with
  | worker_runs i w =>
    match broker st !! i with
    | Some m => files (run_call w m s).2
    | None => disk st
    end
  | disk_changes files => files
  | _ => disk st
  end.

(** The broker after an action: a worker takes its message and Celery
    adds the follow-up; a handler adds what it delayed. *)
Definition broker_after (a : action) (st : state) : list message :=
  match a with
  | worker_runs i w =>
    match broker st !! i with
    | Some m =>
      delete i (broker st)
      ++ follow_up m (run_call w m (SessionLocal (db st) (disk st))).1
    | None => broker st
    end
  | _ => broker st ++ delayed (events_of a st)
  end.

Definition exec (a : action) (st : state) : state :=
  State (persisted (db st) (events_of a st)) (disk_after a st) (broker_after a st).

Inductive reachable : state → Prop :=
| reachable_initial : reachable initial
| reachable_exec a st : reachable st → reachable (exec a st).

Definition run (acts : list action) (st : state) : state :=
  foldl (λ st a, exec a st) st acts.

End System.

(** ** The retry policy as one loop *)

Module Retry.

(** Celery runs a message, and runs it again after each exception while
    [retries < max_retries]; [worlds k] is the world during attempt
    [k]. The result holds the session of each attempt, oldest first. *)
Fixpoint attempts (budget : nat) (worlds : nat → world) (m : message)
    (table : gmap Z Note.t) (files : gset string)
    : list (outcome (gmap string pyval) * session) :=
  let r := run_call (worlds (msg_retries m)) m (SessionLocal table files) in
  match budget with
  | O => [r]
  | S budget' =>
    match follow_up m r.1, r.1 with
    | [m'], Raise _ =>
      r :: attempts budget' worlds m' (persisted table (trail r.2)) (Db.files r.2)
    | _, _ => [r]
    end
  end.

Definition apply_async (worlds : nat → world) (c : call)
    (table : gmap Z Note.t) (files : gset string) :=
  attempts (S max_retries) worlds (Message c 0 []) table files.

End Retry.

(** ** The read handlers of [src/api/__init__.py] *)

Module Views.

(** [NotesResponse] of [src/api/models.py]. *)
Record NotesResponse : Type := NotesResponseModel {
  id : Z;
  status : Api.Status;
  youtube_url : string;
  task_id : option string;
  audio_path : option string;
  transcription : option string;
  note : option string;
  created_at : string;
  updated_at : string
}.

(** The members of [Status], in the order of the class, and [s.value]. *)
Definition members : list Api.Status :=
  [Api.PENDING; Api.PROCESSING; Api.FAILED; Api.COMPLETED].

Definition value (s : Api.Status) : string :=
  match s with
  | Api.PENDING => "pending"
  | Api.PROCESSING => "processing"
  | Api.FAILED => "failed"
  | Api.COMPLETED => "completed"
  end.

(** [Status(v)]: the member whose value is [v]; [ValueError] otherwise. *)
Definition Status_of (v : string) : M Api.Status :=
  match List.find (λ s, String.eqb (value s) v) members with
  | Some s => ret s
  | None => raise (Exception ("'" +:+ v +:+ "' is not a valid Status"))
  end.

(** The order of [Note.created_at.desc()]. *)
Definition newest_first (a b : Note.t) : Prop := Note.created_at b ≤ Note.created_at a.

#[global] Instance newest_first_dec a b : Decision (newest_first a b) :=
  decide (Note.created_at b ≤ Note.created_at a).

Section Handlers.
(** [datetime.isoformat()], and the column [updated_at] of the row of a
    given id: the database keeps it ([server_default], [onupdate]) and
    the row record leaves it out. *)
Variable isoformat : Z → string.
Variable updated_at_of : Z → option Z.

(** The [NotesResponse(...)] built from a row by [list_notes] and
    [get_note]. *)
Definition notes_response (n : Note.t) : M NotesResponse :=
  status ← (if bool_decide (Note.status n ∈ value <$> members)
            then Status_of (Note.status n)
            else ret Api.PENDING);
  ret (NotesResponseModel (Note.id n) status (Note.youtube_url n) (Note.task_id n)
         (Note.audio_path n) (Note.transcription n) (Note.note n)
         (isoformat (Note.created_at n))
         (match updated_at_of (Note.id n) with
          | Some t => isoformat t
          | None => ""
          end)).

(** [db.query(Note).order_by(Note.created_at.desc()).all()]; between
    rows of equal [created_at] the order is the one of the sort. *)
Definition query_all_newest_first : M (list Note.t) :=
  λ s, (Return (merge_sort newest_first (map_to_list (rows s)).*2), s).

(** The list comprehension over the rows. *)
Fixpoint responses (notes : list Note.t) : M (list NotesResponse) :=
  match notes with
  | [] => ret []
  | n :: rest =>
    r ← notes_response n;
    rs ← responses rest;
    ret (r :: rs)
  end.

(** [GET /notes] *)
Definition list_notes : M (list NotesResponse) :=
  notes ← query_all_newest_first;
  responses notes.

(** [GET /notes/{notes_id}] *)
Definition get_note (notes_id : Z) : M NotesResponse :=
  note ← query_by_id notes_id;
  match note with
  | None => raise (HTTPException 404 "Note not found")
  | Some n => notes_response n
  end.

End Handlers.

End Views.

(** ** The schema migration of [src/database/__init__.py] *)

Module Schema.

(** What [inspect(engine)] sees is a map from the names of the tables to
    the names of their columns, in order.
    [ALTER TABLE table ADD COLUMN column TEXT] adds a last column. *)
Definition add_column (table column : string) (s : gmap string (list string))
    : gmap string (list string) :=
  alter (λ columns, columns ++ [column]) table s.

(** [migrate_schema()]: the schema it leaves and the lines it prints.
    The list [columns] is read once, before the two tests. *)
Definition migrate_schema (s : gmap string (list string))
    : gmap string (list string) * list string :=
  match s !! "notes" with
  | Some columns =>
    let '(s1, out1) :=
      if bool_decide ("note" ∈ columns) then (s, [])
      else (add_column "notes" "note" s, ["Added 'note' column to notes table"]) in
    let '(s2, out2) :=
      if bool_decide ("error" ∈ columns) then (s1, [])
      else (add_column "notes" "error" s1, ["Added 'error' column to notes table"]) in
    (s2, out1 ++ out2)
  | None => (s, [])
  end.

End Schema.

(** ** Notions used by the statements *)

(** The texts matched by the timestamp pattern, spelled out: one or two
    digits, a colon, two digits, optionally a colon and two digits. *)
Inductive marker : string → gmap nat string → Prop :=
| marker_mm_ss a m :
    all_cls Digit a = true → (1 ≤ len a ≤ 2)%nat →
    all_cls Digit m = true → len m = 2%nat →
    marker ("[" +:+ a +:+ ":" +:+ m +:+ "]") (<[2%nat := m]> (<[1%nat := a]> ∅))
| marker_hh_mm_ss a m s :
    all_cls Digit a = true → (1 ≤ len a ≤ 2)%nat →
    all_cls Digit m = true → len m = 2%nat →
    all_cls Digit s = true → len s = 2%nat →
    marker ("[" +:+ a +:+ ":" +:+ m +:+ ":" +:+ s +:+ "]")
           (<[3%nat := s]> (<[2%nat := m]> (<[1%nat := a]> ∅))).

(** No byte [c] in a text; no opening bracket, no line feed. *)
Fixpoint without (c : ascii) (s : string) : bool :=
  match s with
  | EmptyString => true
  | String c' r => negb (Ascii.eqb c' c) && without c r
  end.

Fixpoint no_open (s : string) : bool :=
  match s with
  | EmptyString => true
  | String c r => negb (Ascii.eqb c "[") && no_open r
  end.

Definition no_line_feed (s : string) : bool := without newline s.

(** A text of ASCII digits. *)
Fixpoint ascii_digits (s : string) : bool :=
  match s with
  | EmptyString => true
  | String c r => (48 <=? byte c)%N && (byte c <=? 57)%N && ascii_digits r
  end.

(** A character that stands whole at the head of any text. *)
Definition whole (ch : string) : Prop := ∀ s, next_char (ch +:+ s) = Some (ch, s).

(** The first character of a text is not of the class [p]. *)
Definition head_fails (p : string → bool) (cs : list string) : Prop :=
  match cs with
  | ch :: _ => p ch = false
  | [] => True
  end.

(** A repetition bounded by [hi] stops after [n] characters that are
    followed by [cs]. *)
Definition stops_at (p : string → bool) (hi : option nat) (n : nat) (cs : list string)
    : Prop :=
  match hi with
  | Some h => n = h ∨ ((n < h)%nat ∧ head_fails p cs)
  | None => head_fails p cs
  end.

(** No part of a text matches the timestamp pattern. *)
Definition marker_free (s : string) : Prop :=
  ∀ a b c g, s = a +:+ b +:+ c → ¬ Matches Rewrite.timestamp_pattern b ∅ g.

(** The character U+00A0, in UTF-8. *)
Definition no_break_space : string := String "194" (String "160" "").

(** A time that prints as digits, a point and two digits: zero or a
    finite number, with the sign bit clear. *)
Definition plain_time (x : spec_float) : bool :=
  match x with
  | S754_zero false | S754_finite false _ _ => true
  | _ => false
  end.

(** The segments Synthesize is expected to read back from the lines of
    [segs]: the times as printed with two decimals, the text stripped. *)
Definition read_back (float : string → spec_float) (seg : Transcript.segment)
    : Transcript.parsed :=
  Transcript.Parsed (float (Transcript.fmt_2f (Transcript.seg_start seg)))
                    (float (Transcript.fmt_2f (Transcript.seg_end seg)))
                    (Transcript.strip (Transcript.seg_text seg)).

Definition well_formed_segment (seg : Transcript.segment) : Prop :=
  plain_time (Transcript.seg_start seg) = true
  ∧ plain_time (Transcript.seg_end seg) = true
  ∧ no_line_feed (Transcript.seg_text seg) = true.

(** The rows written by the retry handler before and after the task is
    sent, and the message it sends. *)
Definition retry_audio_exists (disk : gset string) (n : Note.t) : bool :=
  truthy_text (Note.audio_path n) && bool_decide (default "" (Note.audio_path n) ∈ disk).

Definition retry_reset (disk : gset string) (n : Note.t) : Note.t :=
  if retry_audio_exists disk n
  then Note.set_error None (Note.set_status "processing" n)
  else Note.set_audio_id None (Note.set_audio_path None
         (Note.set_error None (Note.set_status "pending" n))).

Definition retry_message (disk : gset string) (n : Note.t) : message :=
  if retry_audio_exists disk n && Api.is_some (Note.transcription n)
  then Message (generate_study_notes_call (Api.transcription_data_of n)) 0 []
  else if retry_audio_exists disk n
  then Message (translate_audio_to_text_call (Api.audio_data_of n)) 0 [generate_study_notes_s]
  else create_audio_transcription_chain (Note.youtube_url n) (Note.id n).

(** The row marked failed by the [except] block of a task. *)
Definition failed_row (what : string) (retry_count : nat) (cause : string) (n : Note.t)
    : Note.t :=
  Note.set_error (Some (what +:+ " failed after " +:+ pretty (Z.of_nat retry_count + 1)
                        +:+ " attempts: " +:+ cause))
                 (Note.set_status "failed" n).

(** The stages and the plan of a resume request. *)
Inductive stage : Type := Acquire | Transcribe | Synthesize.

Inductive plan : Type :=
| AlreadyCompleted
| Enter (s : stage).

Definition stage_of (c : call) : stage :=
  match c with
  | download_audio_call _ _ => Acquire
  | translate_audio_to_text_call _ => Transcribe
  | generate_study_notes_call _ => Synthesize
  end.

Definition stage_name (c : call) : string :=
  match c with
  | download_audio_call _ _ => "Download"
  | translate_audio_to_text_call _ => "Transcription"
  | generate_study_notes_call _ => "Study notes generation"
  end.

(** The plan read off a run of the retry handler: the stage of the task
    it sent, or the report that the job is completed when it sent none. *)
Definition plan_of (r : outcome Api.ImportResponseModel * session) : option plan :=
  match r.1, delayed (trail r.2) with
  | Return (Api.ImportResponse Api.COMPLETED _), [] => Some AlreadyCompleted
  | Return _, [m] => Some (Enter (stage_of (msg_call m)))
  | _, _ => None
  end.

(** The planner as the specification words it (claim C1): notes present,
    else transcript present, else media present with its file, else
    Acquire. *)
Definition planner_as_specified (file_exists : bool) (n : Note.t) : plan :=
  if Api.is_some (Note.note n) then AlreadyCompleted
  else if Api.is_some (Note.transcription n) then Enter Synthesize
  else if Api.is_some (Note.audio_path n) && file_exists then Enter Transcribe
  else Enter Acquire.

(** The planner as the retry handler has it. *)
Definition planner_of_retry (disk : gset string) (n : Note.t) : plan :=
  if String.eqb (Note.status n) "completed" && truthy_text (Note.note n)
  then AlreadyCompleted
  else if retry_audio_exists disk n && Api.is_some (Note.transcription n)
  then Enter Synthesize
  else if retry_audio_exists disk n then Enter Transcribe
  else Enter Acquire.

(** The error raised by the provider of a task in a world, if any. *)
Definition provider_error (c : call) (w : world) : option string :=
  match c with
  | download_audio_call _ _ => ydl_download w
  | translate_audio_to_text_call _ =>
    match transcriptions_create w with
    | inl err => Some err
    | inr _ => None
    end
  | generate_study_notes_call _ =>
    match generate_text w (SessionLocal ∅ ∅) with
    | (Raise e, _) => Some (str_exn e)
    | (Return _, _) => None
    end
  end.

(** The task is about the row [id] and gets as far as its provider: the
    audio file is there for Transcribe, the transcription for Synthesize. *)
Definition reaches_provider (c : call) (id : Z) (disk : gset string) : Prop :=
  match c with
  | download_audio_call _ note_id => note_id = id
  | translate_audio_to_text_call d =>
    get d "note_id" = PInt id
    ∧ ∃ p, get d "audio_path" = PStr p ∧ p ≠ "" ∧ p ∈ disk
  | generate_study_notes_call d =>
    get d "note_id" = PInt id
    ∧ ∃ t, get d "transcription" = PStr t ∧ t ≠ ""
  end.

(** The table after a sequence of attempts. *)
Definition table_after (table : gmap Z Note.t)
    (rs : list (outcome (gmap string pyval) * session)) : gmap Z Note.t :=
  foldl (λ t r, persisted t (trail r.2)) table rs.

(** The table is keyed by the [id] column. *)
Definition keyed (table : gmap Z Note.t) : Prop :=
  ∀ k n, table !! k = Some n → Note.id n = k.

(** What a completed row holds, and what a failed row holds. *)
Definition completed_ok (n : Note.t) : Prop :=
  Note.status n = "completed" →
  truthy_text (Note.note n) = true ∧ is_Some (Note.transcription n).

Definition failed_ok (n : Note.t) : Prop :=
  Note.status n = "failed" → is_Some (Note.error n).

(** The rows of a table are keyed by their id and hold what their status
    promises; the promise of the failed rows is only asked when [strict]. *)
Definition table_ok (strict : bool) (table : gmap Z Note.t) : Prop :=
  ∀ k n, table !! k = Some n →
         Note.id n = k ∧ completed_ok n ∧ (strict = true → failed_ok n).

(** From one table to a later one no row is lost and no transcription is
    taken back. *)
Definition grows (table table' : gmap Z Note.t) : Prop :=
  ∀ k n, table !! k = Some n →
         ∃ n', table' !! k = Some n'
               ∧ (is_Some (Note.transcription n) → is_Some (Note.transcription n')).

(** A dictionary passed to a task: its error, when it has one, is not
    [None]; its transcription, when it is not empty, is the one of a row
    that has a transcription. *)
Definition dict_ok (table : gmap Z Note.t) (d : gmap string pyval) : Prop :=
  d !! "error" ≠ Some PNone
  ∧ (truthy (get d "transcription") = true →
     ∃ id n, get d "note_id" = PInt id ∧ table !! id = Some n
             ∧ is_Some (Note.transcription n)).

Definition call_ok (table : gmap Z Note.t) (c : call) : Prop :=
  match c with
  | download_audio_call _ _ => True
  | translate_audio_to_text_call d | generate_study_notes_call d => dict_ok table d
  end.

Definition invariant (strict : bool) (st : System.state) : Prop :=
  table_ok strict (System.db st)
  ∧ Forall (λ m, call_ok (System.db st) (msg_call m)) (System.broker st).

(** What Transcribe finds at the audio path of its input. *)
Inductive audio_state : Type := AudioMissing | AudioNotAPath | AudioReady.

Definition audio_state_of (d : gmap string pyval) (disk : gset string) : audio_state :=
  if negb (truthy (get d "audio_path")) then AudioMissing
  else match get d "audio_path" with
       | PStr p => if bool_decide (p ∈ disk) then AudioReady else AudioMissing
       | _ => AudioNotAPath
       end.

(** The action is a run of Transcribe that finds its row and no audio
    file. *)
Definition transcribe_finds_no_audio (a : System.action) (st : System.state) : bool :=
  match a with
  | System.worker_runs i _ =>
    match System.broker st !! i with
    | Some (Message (translate_audio_to_text_call d) _ _) =>
      match get d "note_id", audio_state_of d (System.disk st) with
      | PInt id, AudioMissing => Api.is_some (System.db st !! id)
      | _, _ => false
      end
    | _ => false
    end
  | _ => false
  end.

Definition is_regenerate (a : System.action) : bool :=
  match a with
  | System.post_regenerate_all _ | System.post_regenerate_note _ _ => true
  | _ => false
  end.

(** The states reached without a run of Transcribe that finds no audio. *)
Inductive reachable_with_audio : System.state → Prop :=
| with_audio_initial : reachable_with_audio System.initial
| with_audio_exec a st :
    reachable_with_audio st → transcribe_finds_no_audio a st = false →
    reachable_with_audio (System.exec a st).

(** What an operation that started on [table] and left the events [evs]
    keeps: every commit is a sound table (as strictly as [each] asks)
    that grows [table], the table it leaves is sound (as strictly as
    [strict] asks), and the messages it sent are sound for that table. *)
Definition keeps (strict each : bool) (table : gmap Z Note.t) (evs : list event) : Prop :=
  Forall (λ t, table_ok each t ∧ grows table t) (commits evs)
  ∧ table_ok strict (persisted table evs)
  ∧ grows table (persisted table evs)
  ∧ Forall (λ m, call_ok (persisted table evs) (msg_call m)) (delayed evs).

(** The same for a session in the middle of a handler: its rows are the
    last commit. *)
Definition session_keeps (strict : bool) (table : gmap Z Note.t) (s : session) : Prop :=
  keeps strict false table (trail s) ∧ persisted table (trail s) = rows s.

(** A job whose notes fail three times, whose audio file then leaves the
    disk, which is resumed (at Acquire), fails again three times and is
    then regenerated with success. *)
Definition world_ok : world :=
  World "u1" None
        (inr (Transcript.Transcript
                [Transcript.Segment (S754_zero false) (S754_finite false 3 (-1)) " hi"] ""))
        (inr (Response "<notes>[00:01]</notes>" None)).

Definition world_down : world :=
  World "u2" (Some "network down") (inl "whisper down") (inl "gemini down").

Definition notes_fail_trace : list System.action :=
  [ System.post_notes_youtube "https://v/1" 10 "t1";
    System.worker_runs 0 world_ok; System.worker_runs 0 world_ok;
    System.worker_runs 0 world_down; System.worker_runs 0 world_down;
    System.worker_runs 0 world_down ].

Definition resume_without_audio_trace : list System.action :=
  notes_fail_trace ++
  [ System.disk_changes ∅;
    System.post_retry 1 "t2";
    System.worker_runs 0 world_down; System.worker_runs 0 world_down;
    System.worker_runs 0 world_down;
    System.post_regenerate_note 1 "t3";
    System.worker_runs 0 world_ok ].

(** ** Notions used by the statements on the whole pipeline *)

(** The file written by [download_audio] in a world. *)
Definition output_file (w : world) : string := "media/" +:+ uuid4 w +:+ ".mp3".

(** The row and the result left by a download that goes through. *)
Definition downloaded (w : world) (n : Note.t) : Note.t :=
  Note.set_status "processing"
    (Note.set_audio_path (Some (output_file w))
       (Note.set_audio_id (Some (uuid4 w)) (Note.set_status "processing" n))).

Definition download_result (w : world) (link : string) (id : Z) : gmap string pyval :=
  list_to_map [("note_id", PInt id); ("audio_id", PStr (uuid4 w));
               ("audio_path", PStr (output_file w)); ("youtube_link", PStr link)].

(** A task whose dictionary names no row of the table: its [note_id] is
    missing, is not an int, or is the id of no row. *)
Definition names_no_row (d : gmap string pyval) (table : gmap Z Note.t) : Prop :=
  ∀ id, get d "note_id" = PInt id → table !! id = None.

(** The status a task leaves when it goes through. *)
Definition status_after (c : call) : string :=
  match c with
  | generate_study_notes_call _ => "completed"
  | _ => "processing"
  end.

(** The values of the status column written by the code. *)
Definition valid_status (n : Note.t) : Prop :=
  Note.status n ∈ Views.value <$> Views.members.

(** What stays of a row: its id, its URL and its creation time stay the
    same; a transcription or notes, once stored, are not taken back. *)
Definition evolves (n n' : Note.t) : Prop :=
  Note.id n' = Note.id n
  ∧ Note.youtube_url n' = Note.youtube_url n
  ∧ Note.created_at n' = Note.created_at n
  ∧ (is_Some (Note.transcription n) → is_Some (Note.transcription n'))
  ∧ (is_Some (Note.note n) → is_Some (Note.note n')).

(** An update of a row that [evolves] it and keeps a known status. *)
Definition gentle (f : Note.t → Note.t) : Prop :=
  ∀ n, evolves n (f n) ∧ (valid_status n → valid_status (f n)).

(** A later table [t] against an earlier one [t0]: the rows of [t0] are
    still there, evolved and with a known status if they had one; the
    rows that are new have a known status. *)
Definition tracks (t0 t : gmap Z Note.t) : Prop :=
  (∀ k n, t0 !! k = Some n →
          ∃ n', t !! k = Some n' ∧ evolves n n' ∧ (valid_status n → valid_status n'))
  ∧ (∀ k n', t0 !! k = None → t !! k = Some n' → valid_status n').

(** A session whose rows and commits track the table [t0]; a
    computation that keeps the sessions so. *)
Definition tracking (t0 : gmap Z Note.t) (s : session) : Prop :=
  tracks t0 (rows s) ∧ Forall (tracks t0) (commits (trail s)).

Definition preserves {A} (t0 : gmap Z Note.t) (m : M A) : Prop :=
  ∀ s, tracking t0 s → tracking t0 (m s).2.

(** A bound on the runs a message can still cause: the attempts left to
    its task, and three attempts for each task of its chain. *)
Definition runs_left (m : message) : nat :=
  Nat.max 1 (S max_retries - msg_retries m) + S max_retries * length (msg_chain m).

Definition pending_runs (st : System.state) : nat :=
  sum_list_with runs_left (System.broker st).

(** Every action of the list is a worker that takes a message of the
    broker. *)
Fixpoint takes_messages (acts : list System.action) (st : System.state) : Prop :=
  match acts with
  | [] => True
  | a :: rest =>
    match a with
    | System.worker_runs i _ => is_Some (System.broker st !! i)
    | _ => False
    end ∧ takes_messages rest (System.exec a st)
  end.

(** The rows picked by [regenerate_all_notes]. *)
Definition needs_notes (n : Note.t) : bool :=
  Api.is_some (Note.transcription n) && negb (Api.is_some (Note.note n)).

(** The row left by the regenerate handlers, and the message they send. *)
Definition regenerated (tid : string) (n : Note.t) : Note.t :=
  Note.set_status "processing"
    (Note.set_task_id (Some tid) (Note.set_error None (Note.set_status "failed" n))).

Definition regenerate_message (n : Note.t) : message :=
  Message (generate_study_notes_call (Api.transcription_data_of n)) 0 [].

(** The row of a job whose three stages went through. *)
Definition completed_row (id : Z) (url : string) (now : Z) (tid : string)
    (w1 : world) (t : Transcript.transcript) (r : response) : Note.t :=
  Note.Make id url (Some tid) "completed" (Some (uuid4 w1)) (Some (output_file w1)) None
            (Some (Transcript.serialize t))
            (Some (Rewrite.postprocess (response_text r) (PStr url))) now.

(** The answer of the read handlers for a row: the columns of the row,
    the two times as texts, and the status of the row when it is one of
    the four values of [Status], Pending otherwise. *)
Definition answers_for (isoformat : Z → string) (updated_at_of : Z → option Z)
    (n : Note.t) (r : Views.NotesResponse) : Prop :=
  Views.id r = Note.id n
  ∧ Views.youtube_url r = Note.youtube_url n
  ∧ Views.task_id r = Note.task_id n
  ∧ Views.audio_path r = Note.audio_path n
  ∧ Views.transcription r = Note.transcription n
  ∧ Views.note r = Note.note n
  ∧ Views.created_at r = isoformat (Note.created_at n)
  ∧ Views.updated_at r = from_option isoformat "" (updated_at_of (Note.id n))
  ∧ (valid_status n → Views.value (Views.status r) = Note.status n)
  ∧ (¬ valid_status n → Views.status r = Api.PENDING).

(** A computation whose files after are related to its files before;
    the relation of a computation that can only add the file [p]. *)
Definition relates_files {A} (R : relation (gset string)) (m : M A) : Prop :=
  ∀ s, R (files s) (files (m s).2).

Definition adds_only (p : string) (d d' : gset string) : Prop :=
  d ⊆ d' ∧ d' ⊆ {[ p ]} ∪ d.

(** The row a message is about: the id given to the download, or the
    [note_id] of the dictionary when it is an int. *)
Definition target (m : message) : option Z :=
  match msg_call m with
  | download_audio_call _ id => Some id
  | translate_audio_to_text_call d | generate_study_notes_call d =>
    match get d "note_id" with
    | PInt id => Some id
    | _ => None
    end
  end.

(** The messages as the handlers and the chain make them: a download is
    followed by Transcribe and Synthesize, Transcribe by Synthesize,
    Synthesize by nothing, and the transcription given to Synthesize is
    a text or [None]. *)
Definition well_chained (m : message) : Prop :=
  match msg_call m with
  | download_audio_call _ _ =>
    msg_chain m = [translate_audio_to_text_s; generate_study_notes_s]
  | translate_audio_to_text_call _ => msg_chain m = [generate_study_notes_s]
  | generate_study_notes_call d =>
    msg_chain m = [] ∧ ∀ z, get d "transcription" ≠ PInt z
  end.

(** A job that is neither completed nor failed. *)
Definition unfinished (n : Note.t) : Prop :=
  Note.status n = "pending" ∨ Note.status n = "processing".

(** Every unfinished job has a message in the broker. *)
Definition live (st : System.state) : Prop :=
  keyed (System.db st)
  ∧ Forall well_chained (System.broker st)
  ∧ ∀ k n, System.db st !! k = Some n → unfinished n →
           ∃ m, m ∈ System.broker st ∧ target m = Some k.

(** What a run of the message [m], which leaves [table'] and sends
    [next], keeps of the promise of [live]: an unfinished row is a row
    that [m] is not about and that was there as it is, or a row that a
    message of [next] is about. *)
Definition step_live (table table' : gmap Z Note.t) (m : message) (next : list message)
    : Prop :=
  keyed table'
  ∧ Forall well_chained next
  ∧ ∀ k r, table' !! k = Some r → unfinished r →
           (target m ≠ Some k ∧ table !! k = Some r)
           ∨ ∃ m', m' ∈ next ∧ target m' = Some k.

(** * Properties *)

(** ** Strings *)

Lemma app_String (c : ascii) (s t : string) : String c s +:+ t = String c (s +:+ t).
Proof. reflexivity. Qed.

Lemma app_empty_l (t : string) : "" +:+ t = t.
Proof. reflexivity. Qed.

Lemma app_empty_r (s : string) : s +:+ "" = s.
Proof. induction s as [|c s IH]; [reflexivity|]. rewrite app_String, IH. reflexivity. Qed.

Lemma app_assoc_str (s t u : string) : (s +:+ t) +:+ u = s +:+ (t +:+ u).
Proof. induction s as [|c s IH]; [reflexivity|]. rewrite !app_String, IH. reflexivity. Qed.

Lemma length_app_str (s t : string) :
  String.length (s +:+ t) = (String.length s + String.length t)%nat.
Proof. induction s as [|c s IH]; [reflexivity|]. rewrite app_String. simpl. rewrite IH. reflexivity. Qed.

Create Rewrite HintDb str.
#[local] Hint Rewrite app_String app_empty_l app_empty_r app_assoc_str : str.

Lemma app_inv_head_str (s t u : string) : s +:+ t = s +:+ u → t = u.
Proof.
  induction s as [|c s IH]; [auto|]. rewrite !app_String. intros [= H]. auto.
Qed.

Lemma without_app c a b : without c (a +:+ b) = without c a && without c b.
Proof.
  induction a as [|x a IH]; [reflexivity|]. rewrite app_String. simpl.
  rewrite IH, andb_assoc. reflexivity.
Qed.

Lemma no_open_without s : no_open s = without "[" s.
Proof. induction s as [|c s IH]; [reflexivity|]. simpl. rewrite IH. reflexivity. Qed.

Lemma no_open_app a b : no_open (a +:+ b) = no_open a && no_open b.
Proof. rewrite !no_open_without. apply without_app. Qed.

(** ** Characters *)

Lemma take_cont_split n : ∀ s t rest,
  take_cont n s = Some (t, rest) → s = t +:+ rest ∧ String.length t = n.
Proof.
  induction n as [|n IH]; intros s t rest H; simpl in H.
  - injection H as <- <-. auto.
  - destruct s as [|c r]; [discriminate|]. destruct (is_cont c); [|discriminate].
    destruct (take_cont n r) as [[t' rest']|] eqn:E; [|discriminate].
    injection H as <- <-. destruct (IH _ _ _ E) as [-> <-]. auto.
Qed.

Lemma take_cont_more n : ∀ s t rest x,
  take_cont n s = Some (t, rest) → take_cont n (s +:+ x) = Some (t, rest +:+ x).
Proof.
  induction n as [|n IH]; intros s t rest x H; simpl in H.
  - injection H as <- <-. reflexivity.
  - destruct s as [|c r]; [discriminate|]. rewrite app_String. simpl.
    destruct (is_cont c); [|discriminate].
    destruct (take_cont n r) as [[t' rest']|] eqn:E; [|discriminate].
    injection H as <- <-. rewrite (IH _ _ _ x E). reflexivity.
Qed.

(** A text that lacks the continuation bytes as it stands lacks them
    before any text that follows. *)
Lemma take_cont_less n : ∀ a x, take_cont n (a +:+ x) = None → take_cont n a = None.
Proof.
  intros a x H. destruct (take_cont n a) as [[t rest]|] eqn:E; [|reflexivity].
  rewrite (take_cont_more _ _ _ _ x E) in H. discriminate.
Qed.

Lemma next_char_split s ch rest :
  next_char s = Some (ch, rest) → s = ch +:+ rest ∧ ch ≠ "".
Proof.
  destruct s as [|c r]; [discriminate|]. simpl.
  destruct (take_cont (followers c) r) as [[t rest']|] eqn:E; intros [= <- <-].
  - apply take_cont_split in E as [-> _]. split; [reflexivity|discriminate].
  - split; [reflexivity|discriminate].
Qed.

Lemma next_char_None s : next_char s = None → s = "".
Proof.
  destruct s as [|c r]; [reflexivity|]. simpl.
  destruct (take_cont (followers c) r) as [[t rest']|]; discriminate.
Qed.

Lemma next_char_shorter s ch rest :
  next_char s = Some (ch, rest) → (String.length rest < String.length s)%nat.
Proof.
  intros H. apply next_char_split in H as [-> Hne]. rewrite length_app_str.
  destruct ch; [congruence|]. simpl. lia.
Qed.

Lemma chars_go_skip t : ∀ rest, chars_go (String.length t) (t +:+ rest) = chars_go 0 rest.
Proof. induction t as [|c t IH]; intros rest; [reflexivity|]. simpl. apply IH. Qed.

(** The characters of a text, one at a time. *)
Lemma chars_unfold s :
  chars s = match next_char s with
            | Some (ch, rest) => ch :: chars rest
            | None => []
            end.
Proof.
  destruct s as [|c r]; [reflexivity|]. unfold chars. simpl.
  destruct (take_cont (followers c) r) as [[t rest]|] eqn:E; [|reflexivity].
  apply take_cont_split in E as [-> <-]. rewrite chars_go_skip. reflexivity.
Qed.

Lemma chars_next s ch rest : next_char s = Some (ch, rest) → chars s = ch :: chars rest.
Proof. intros H. rewrite chars_unfold, H. reflexivity. Qed.

Lemma chars_empty : chars "" = [].
Proof. reflexivity. Qed.

Lemma join_cons ch cs : join (ch :: cs) = ch +:+ join cs.
Proof. reflexivity. Qed.

Lemma join_app a b : join (a ++ b) = join a +:+ join b.
Proof.
  induction a as [|ch a IH]; [reflexivity|]. cbn [app]. rewrite !join_cons, IH.
  rewrite app_assoc_str. reflexivity.
Qed.

(** Induction on a text, character by character. *)
Lemma text_ind (P : string → Prop) :
  P "" →
  (∀ ch rest, next_char (ch +:+ rest) = Some (ch, rest) → P rest → P (ch +:+ rest)) →
  ∀ s, P s.
Proof.
  intros H0 Hstep s. remember (String.length s) as n eqn:Hn. revert s Hn.
  induction n as [n IH] using lt_wf_ind. intros s ->.
  destruct (next_char s) as [[ch rest]|] eqn:E.
  - pose proof (next_char_shorter _ _ _ E) as L.
    destruct (next_char_split _ _ _ E) as [-> _]. apply Hstep; [exact E|].
    apply (IH _ L). reflexivity.
  - apply next_char_None in E as ->. exact H0.
Qed.

Lemma join_chars s : join (chars s) = s.
Proof.
  induction s as [|ch rest E IH] using text_ind; [reflexivity|].
  rewrite (chars_next _ _ _ E), join_cons, IH. reflexivity.
Qed.

Lemma chars_nil s : chars s = [] → s = "".
Proof. intros H. rewrite <- (join_chars s), H. reflexivity. Qed.

(** The characters of a text are non-empty, and each of them is a
    character when it stands alone. *)
Lemma chars_whole ch s : whole ch → chars (ch +:+ s) = ch :: chars s.
Proof. intros H. apply chars_next, H. Qed.

Lemma chars_app_whole a b :
  Forall whole (chars a) → chars (a +:+ b) = chars a ++ chars b.
Proof.
  induction a as [|ch rest E IH] using text_ind; intros H; [reflexivity|].
  rewrite (chars_next _ _ _ E) in H |- *. apply Forall_cons in H as [Hch H].
  rewrite app_assoc_str, (chars_whole _ _ Hch), (IH H). reflexivity.
Qed.

(** What follows a character in a text does not change it when it begins
    with a byte that continues no character. *)
Lemma take_cont_clean n : ∀ rest x,
  match x with String c _ => is_cont c = false | EmptyString => True end →
  take_cont n rest = None → take_cont n (rest +:+ x) = None.
Proof.
  induction n as [|n IH]; intros rest x Hx T; [discriminate|].
  destruct rest as [|r0 rest].
  - rewrite app_empty_l. destruct x as [|c y]; [reflexivity|]. simpl. rewrite Hx. reflexivity.
  - rewrite app_String. simpl in T |- *. destruct (is_cont r0); [|reflexivity].
    destruct (take_cont n rest) as [[a b]|] eqn:Ta; [discriminate|].
    rewrite (IH rest x Hx Ta). reflexivity.
Qed.

Lemma take_cont_prefix n : ∀ t x rest y,
  take_cont n (t +:+ x) = Some (t, rest) → take_cont n (t +:+ y) = Some (t, y).
Proof.
  induction n as [|n IH]; intros t x rest y T; simpl in T.
  - injection T as <- _. reflexivity.
  - destruct t as [|c t].
    + rewrite app_empty_l in T. destruct x as [|c r]; [discriminate|].
      destruct (is_cont c); [|discriminate].
      destruct (take_cont n r) as [[a b]|]; discriminate.
    + rewrite app_String in T |- *. simpl. destruct (is_cont c); [|discriminate].
      destruct (take_cont n (t +:+ x)) as [[a b]|] eqn:E; [|discriminate].
      injection T as -> _. rewrite (IH _ _ _ y E). reflexivity.
Qed.

Lemma next_char_before ch rest x :
  match x with String c _ => is_cont c = false | EmptyString => True end →
  next_char (ch +:+ rest) = Some (ch, rest) →
  next_char (ch +:+ rest +:+ x) = Some (ch, rest +:+ x).
Proof.
  intros Hx E. destruct ch as [|c0 t].
  - apply next_char_split in E as [_ Hne]. congruence.
  - rewrite !app_String in *. simpl in E |- *.
    destruct (take_cont (followers c0) (t +:+ rest)) as [[t' rest']|] eqn:T.
    + injection E as Et Er. subst t' rest'.
      rewrite <- app_assoc_str, (take_cont_more _ _ _ _ x T). reflexivity.
    + injection E as Et. destruct t; [|discriminate]. clear Et.
      rewrite app_empty_l in *. rewrite (take_cont_clean _ _ _ Hx T). reflexivity.
Qed.

(** The characters of a text that is followed by a text that begins with
    a character of its own. *)
Lemma chars_app_clean a x :
  match x with String c _ => is_cont c = false | EmptyString => True end →
  chars (a +:+ x) = chars a ++ chars x.
Proof.
  intros Hx. induction a as [|ch rest E IH] using text_ind; [reflexivity|].
  rewrite app_assoc_str, (chars_next _ _ _ (next_char_before _ _ _ Hx E)).
  rewrite (chars_next _ _ _ E), IH. reflexivity.
Qed.

(** The characters that end a text are the characters of the end of the
    text, and so are those that begin it. *)
Lemma chars_suffix a : ∀ s b, chars s = a ++ b → chars (join b) = b.
Proof.
  induction a as [|ch a IH]; intros s b H.
  - cbn [app] in H. rewrite <- H, join_chars. reflexivity.
  - cbn [app] in H. destruct (next_char s) as [[ch' rest]|] eqn:E.
    + rewrite (chars_next _ _ _ E) in H. injection H as _ H. eauto.
    + apply next_char_None in E as ->. discriminate.
Qed.

Lemma next_char_shorten ch a b :
  next_char (ch +:+ a +:+ b) = Some (ch, a +:+ b) → next_char (ch +:+ a) = Some (ch, a).
Proof.
  intros E. destruct ch as [|c0 t].
  - apply next_char_split in E as [_ Hne]. congruence.
  - rewrite !app_String in *. simpl in E |- *.
    destruct (take_cont (followers c0) (t +:+ a +:+ b)) as [[t' rest']|] eqn:T.
    + injection E as -> ->. rewrite (take_cont_prefix _ _ _ _ a T). reflexivity.
    + injection E as Et. destruct t; [|discriminate].
      rewrite app_empty_l in *. rewrite (take_cont_less _ _ _ T). reflexivity.
Qed.

Lemma chars_prefix a : ∀ s b, chars s = a ++ b → chars (join a) = a.
Proof.
  induction a as [|ch a IH]; intros s b H; [reflexivity|].
  cbn [app] in H. destruct (next_char s) as [[ch' rest]|] eqn:E.
  - rewrite (chars_next _ _ _ E) in H. injection H as -> H.
    rewrite join_cons. rewrite <- (IH _ _ H) at 2. apply chars_next.
    destruct (next_char_split _ _ _ E) as [-> Hne].
    assert (Hrest : rest = join a +:+ join b).
    { rewrite <- join_app, <- H, join_chars. reflexivity. }
    rewrite Hrest in E. apply next_char_shorten in E. exact E.
  - apply next_char_None in E as ->. discriminate.
Qed.

(** ** Digits and white space *)

Lemma followers_ascii c : (byte c < 128)%N → followers c = 0%nat.
Proof.
  intros H. unfold followers. destruct (N.ltb_spec (byte c) 194); [reflexivity|lia].
Qed.

Lemma ascii_whole c : (byte c < 128)%N → whole (String c "").
Proof.
  intros H s. rewrite app_String, app_empty_l. simpl. rewrite (followers_ascii c H).
  reflexivity.
Qed.

Lemma chars_ascii c s : (byte c < 128)%N → chars (String c s) = String c "" :: chars s.
Proof. intros H. apply (chars_whole (String c "") s), ascii_whole, H. Qed.

Lemma code_point_inv ch cp :
  code_point ch = Some cp →
  ∃ c t, ch = String c t
    ∧ (((byte c < 128)%N ∧ t = "" ∧ cp = byte c)
       ∨ ((128 ≤ byte c)%N ∧ take_cont (followers c) t = Some (t, "") ∧ (128 ≤ cp)%N)).
Proof.
  destruct ch as [|c t]; [discriminate|]. simpl. intros H. exists c, t.
  split; [reflexivity|].
  destruct (N.ltb_spec (byte c) 128) as [Hc|Hc].
  - destruct t; [|discriminate]. injection H as <-. left. auto.
  - right. destruct (followers c) as [|n] eqn:F; [discriminate|].
    destruct (take_cont (S n) t) as [[t' rest]|] eqn:T; [|discriminate].
    destruct rest; [|discriminate].
    pose proof (take_cont_split _ _ _ _ T) as [E _]. rewrite app_empty_r in E. subst t'.
    destruct (N.leb_spec (least n) (cont_bits (lead_bits c) t)) as [L|L]; [|discriminate].
    destruct (_ <? _)%N; [|discriminate]. injection H as <-.
    split; [exact Hc|]. split; [reflexivity|].
    etrans; [|exact L]. destruct n as [|[|n]]; cbn; lia.
Qed.

Lemma code_point_whole ch cp : code_point ch = Some cp → whole ch.
Proof.
  intros H. destruct (code_point_inv _ _ H) as (c & t & -> & [(Hc & -> & _)|(_ & T & _)]).
  - apply ascii_whole, Hc.
  - intros s. rewrite app_String. simpl next_char.
    rewrite (take_cont_more _ _ _ _ s T). reflexivity.
Qed.

(** A character with a code point holds no ASCII byte but itself. *)
Lemma cont_without n : ∀ t t' rest c,
  take_cont n t = Some (t', rest) → (byte c < 128)%N → without c t' = true.
Proof.
  induction n as [|n IH]; intros t t' rest c T Hc; simpl in T.
  - injection T as <- _. reflexivity.
  - destruct t as [|c0 t]; [discriminate|]. destruct (is_cont c0) eqn:C; [|discriminate].
    destruct (take_cont n t) as [[a b]|] eqn:E; [|discriminate].
    injection T as <- _. simpl. rewrite (IH _ _ _ _ E Hc), andb_true_r.
    apply negb_true_iff, Ascii.eqb_neq. intros ->.
    unfold is_cont in C. apply andb_prop in C as [C _]. apply N.leb_le in C. lia.
Qed.

Lemma code_point_without ch cp c :
  code_point ch = Some cp → (byte c < 128)%N → cp ≠ byte c → without c ch = true.
Proof.
  intros H Hc Hne.
  destruct (code_point_inv _ _ H) as (c0 & t & -> & [(H0 & -> & ->)|(H0 & T & _)]).
  - simpl. rewrite andb_true_r. apply negb_true_iff, Ascii.eqb_neq. congruence.
  - simpl. rewrite (cont_without _ _ _ _ c T Hc), andb_true_r.
    apply negb_true_iff, Ascii.eqb_neq. intros ->. lia.
Qed.

Lemma code_point_byte c : (byte c < 128)%N → code_point (String c "") = Some (byte c).
Proof. intros H. simpl. apply N.ltb_lt in H. rewrite H. reflexivity. Qed.

(** The table of the digits against the ASCII characters and the white
    space. *)
Lemma decimal_value_spec cp v :
  decimal_value cp = Some v →
  (v < 10)%N
  ∧ (((48 ≤ cp ≤ 57)%N ∧ v = (cp - 48)%N) ∨ (128 ≤ cp)%N)
  ∧ existsb (N.eqb cp) white_space = false.
Proof.
  unfold decimal_value.
  destruct (List.find _ decimal_zeros) as [z|] eqn:F; [|discriminate].
  intros [= <-]. apply find_some in F as [Hin Hz].
  apply andb_prop in Hz as [Hz1 Hz2]. apply N.leb_le in Hz1. apply N.ltb_lt in Hz2.
  assert (Hcheck : forallb (λ z, ((z =? 48) || (128 <=? z))%N
                     && forallb (λ w, negb ((z <=? w) && (w <? z + 10))%N) white_space)
                   decimal_zeros = true) by (vm_compute; reflexivity).
  rewrite forallb_forall in Hcheck. apply Hcheck in Hin.
  apply andb_prop in Hin as [Hz Hw]. split; [lia|]. split.
  - apply orb_prop in Hz as [Hz|Hz].
    + apply N.eqb_eq in Hz. subst z. left. lia.
    + apply N.leb_le in Hz. right. lia.
  - destruct (existsb (N.eqb cp) white_space) eqn:E; [|reflexivity].
    apply existsb_exists in E as (w & Hin & Ew). apply N.eqb_eq in Ew. subst w.
    rewrite forallb_forall in Hw. apply Hw in Hin. apply negb_true_iff in Hin.
    apply andb_false_iff in Hin as [Hin|Hin].
    + apply N.leb_gt in Hin. lia.
    + apply N.ltb_ge in Hin. lia.
Qed.

Lemma is_digit_inv ch :
  is_digit ch = true →
  ∃ cp v, code_point ch = Some cp ∧ decimal_value cp = Some v ∧ digit_val ch = Z.of_N v.
Proof.
  unfold is_digit, digit_val, digit_of. destruct (code_point ch) as [cp|]; [|discriminate].
  destruct (decimal_value cp) as [v|] eqn:E; [|discriminate]. intros _. exists cp, v. auto.
Qed.

Lemma is_digit_whole ch : is_digit ch = true → whole ch.
Proof.
  intros H. destruct (is_digit_inv _ H) as (cp & v & Hcp & _). eapply code_point_whole, Hcp.
Qed.

Lemma is_space_whole ch : is_space ch = true → whole ch.
Proof.
  unfold is_space. destruct (code_point ch) as [cp|] eqn:E; [|discriminate].
  intros _. eapply code_point_whole, E.
Qed.

Lemma digit_val_range ch : is_digit ch = true → 0 ≤ digit_val ch ≤ 9.
Proof.
  intros H. destruct (is_digit_inv _ H) as (cp & v & _ & Hv & ->).
  apply decimal_value_spec in Hv as [Hv _]. lia.
Qed.

Lemma digit_not_space ch : is_digit ch = true → is_space ch = false.
Proof.
  intros H. destruct (is_digit_inv _ H) as (cp & v & Hcp & Hv & _).
  unfold is_space. rewrite Hcp. apply decimal_value_spec in Hv as (_ & _ & Hv). exact Hv.
Qed.

(** A digit holds no ASCII byte that is not a digit. *)
Lemma digit_without ch c :
  is_digit ch = true → (byte c < 48 ∨ 57 < byte c < 128)%N → without c ch = true.
Proof.
  intros H Hc. destruct (is_digit_inv _ H) as (cp & v & Hcp & Hv & _).
  apply decimal_value_spec in Hv as (_ & Hv & _).
  apply (code_point_without _ _ _ Hcp); lia.
Qed.

Lemma without_self c : without c (String c "") = false.
Proof. simpl. rewrite Ascii.eqb_refl. reflexivity. Qed.

Lemma digit_not_char ch c :
  is_digit ch = true → (byte c < 48 ∨ 57 < byte c < 128)%N →
  String.eqb ch (String c "") = false.
Proof.
  intros H Hc. apply String.eqb_neq. intros ->.
  pose proof (digit_without _ c H Hc) as W. rewrite without_self in W. discriminate.
Qed.

(** The ASCII digits. *)
Lemma ascii_digit c :
  (48 ≤ byte c ≤ 57)%N →
  is_digit (String c "") = true ∧ digit_val (String c "") = Z.of_N (byte c) - 48.
Proof.
  intros H. unfold is_digit, digit_val, digit_of.
  rewrite code_point_byte by lia. unfold decimal_value.
  assert (List.find (λ z, (z <=? byte c)%N && (byte c <? z + 10)%N) decimal_zeros
          = Some 48%N) as ->.
  { cbn [decimal_zeros List.find].
    destruct (N.leb_spec 48 (byte c)); [|lia].
    destruct (N.ltb_spec (byte c) (48 + 10)); [|lia]. reflexivity. }
  split; [reflexivity|]. lia.
Qed.

Lemma without_join c cs :
  Forall (λ ch, without c ch = true) cs → without c (join cs) = true.
Proof.
  induction 1 as [|ch cs H _ IH]; [reflexivity|].
  rewrite join_cons, without_app, H, IH. reflexivity.
Qed.

Lemma len_empty s : len s = 0%nat → s = "".
Proof. unfold len. intros H. apply chars_nil. destruct (chars s); [reflexivity|discriminate]. Qed.

Lemma all_cls_whole cl a : cl ≠ Dot → all_cls cl a = true → Forall whole (chars a).
Proof.
  intros Hcl H. unfold all_cls in H. rewrite forallb_forall in H.
  apply List.Forall_forall. intros ch Hin. specialize (H ch Hin).
  destruct cl; [apply is_digit_whole, H|apply is_space_whole, H|congruence].
Qed.

Lemma all_cls_app cl a b :
  cl ≠ Dot → all_cls cl a = true → all_cls cl (a +:+ b) = all_cls cl b.
Proof.
  intros Hcl H. unfold all_cls in *.
  rewrite (chars_app_whole _ _ (all_cls_whole _ _ Hcl H)), forallb_app, H. reflexivity.
Qed.

Lemma len_app cl a b :
  cl ≠ Dot → all_cls cl a = true → len (a +:+ b) = (len a + len b)%nat.
Proof.
  intros Hcl H. unfold len.
  rewrite (chars_app_whole _ _ (all_cls_whole _ _ Hcl H)), length_app. reflexivity.
Qed.

(** A text of digits holds no other ASCII byte. *)
Lemma digits_without c s :
  all_cls Digit s = true → (byte c < 48 ∨ 57 < byte c < 128)%N → without c s = true.
Proof.
  intros H Hc. rewrite <- (join_chars s). apply without_join.
  unfold all_cls in H. rewrite forallb_forall in H. apply List.Forall_forall.
  intros ch Hin. apply digit_without; auto.
Qed.

Lemma digits_no_open s : all_cls Digit s = true → no_open s = true.
Proof.
  intros H. rewrite no_open_without. apply digits_without; [exact H|]. right. split; reflexivity.
Qed.

(** ** The matcher against the declarative reading of a pattern *)

Section MatcherSound.
Context {A : Type}.

Lemma rep_sound (p : string → bool) cs :
  ∀ lo hi (k : string → string → option A) x,
    rep p lo hi cs k = Some x →
    ∃ ds rest, cs = ds ++ rest ∧ forallb p ds = true
               ∧ within (length ds) lo hi ∧ k (join ds) (join rest) = Some x.
Proof.
  induction cs as [|c cs IH]; intros lo hi k x H; simpl in H.
  - destruct lo; [|discriminate]. exists [], []. repeat split; auto.
    destruct hi; simpl; lia.
  - assert (Hstop : match lo with O => k "" (join (c :: cs)) | S _ => None end = Some x →
                    ∃ ds rest, c :: cs = ds ++ rest ∧ forallb p ds = true
                      ∧ within (length ds) lo hi ∧ k (join ds) (join rest) = Some x).
    { destruct lo; [|discriminate]. intros Hk. exists [], (c :: cs).
      repeat split; auto. destruct hi; simpl; lia. }
    destruct (p c && negb (at_limit hi)) eqn:Hc; [|auto].
    apply andb_prop in Hc as [Hc Hlim].
    destruct (rep _ _ _ cs _) eqn:Hrec; [|auto].
    injection H as ->.
    apply IH in Hrec as (ds & rest & -> & Hall & [Hlo Hhi] & Hk).
    exists (c :: ds), rest. repeat split; simpl; auto.
    + rewrite Hc, Hall. reflexivity.
    + lia.
    + destruct hi as [[|h]|]; simpl in *; try discriminate; lia.
Qed.

Lemma run_sound (r : re) :
  ∀ s g (k : string → string → gmap nat string → option A) x,
    run r s g k = Some x →
    ∃ t rest g', s = t +:+ rest ∧ Matches r t g g' ∧ k t rest g' = Some x.
Proof.
  induction r as [c|k0 lo hi|r1 IH1 r2 IH2|r IH|i r IH]; intros s g k x H; simpl in H.
  - destruct (next_char s) as [[ch s']|] eqn:E; [|discriminate].
    destruct (String.eqb ch (String c "")) eqn:Ec; [|discriminate].
    apply String.eqb_eq in Ec. subst ch. apply next_char_split in E as [-> _].
    exists (String c ""), s', g. repeat split; auto. constructor.
  - apply rep_sound in H as (ds & rest & Hcs & Hall & Hw & Hk).
    exists (join ds), (join rest), g. split; [|split; [|exact Hk]].
    + rewrite <- join_app, <- Hcs, join_chars. reflexivity.
    + constructor.
      * unfold all_cls. rewrite (chars_prefix _ _ _ Hcs). exact Hall.
      * unfold len. rewrite (chars_prefix _ _ _ Hcs). exact Hw.
  - apply IH1 in H as (t1 & s1 & g1 & -> & M1 & H).
    apply IH2 in H as (t2 & s2 & g2 & -> & M2 & H).
    exists (t1 +:+ t2), s2, g2. rewrite app_assoc_str. repeat split; auto.
    econstructor; eauto.
  - destruct (run r s g k) eqn:E.
    + injection H as ->. apply IH in E as (t & rest & g' & -> & M1 & Hk).
      exists t, rest, g'. repeat split; auto. constructor; auto.
    + exists "", s, g. repeat split; auto. apply M_Opt_none.
  - apply IH in H as (t & rest & g' & -> & M1 & Hk).
    exists t, rest, (<[i:=t]> g'). repeat split; auto. constructor; auto.
Qed.
End MatcherSound.

Lemma re_match_sound r s g rest :
  re_match r s = Some (g, rest) → ∃ t, s = t +:+ rest ∧ Matches r t ∅ g.
Proof.
  unfold re_match. intros H. apply run_sound in H as (t & rest' & g' & -> & M1 & Hk).
  injection Hk as -> ->. eauto.
Qed.

(** ** The steps of the matcher *)

Section MatcherSteps.
Context {A : Type}.
Implicit Types (k : string → string → gmap nat string → option A).

(** A repetition takes a run of characters of its class and goes on
    with the rest of the pattern, when the run ends where the repetition
    has to stop and the rest of the pattern then succeeds. *)
Lemma rep_run (p : string → bool) ds : ∀ cs lo hi (k' : string → string → option A) r,
  forallb p ds = true → (lo ≤ length ds)%nat → stops_at p hi (length ds) cs →
  k' (join ds) (join cs) = Some r →
  rep p lo hi (ds ++ cs) k' = Some r.
Proof.
  induction ds as [|d ds IH]; intros cs lo hi k' r Hall Hlo Hstop Hk.
  - cbn [app]. simpl in Hlo. assert (lo = 0%nat) as -> by lia.
    destruct cs as [|c cs]; simpl; [exact Hk|].
    destruct hi as [[|h]|]; simpl in Hstop |- *.
    + rewrite andb_false_r. exact Hk.
    + destruct Hstop as [Hs|[_ Hs]]; [discriminate|]. rewrite Hs. exact Hk.
    + rewrite Hstop. exact Hk.
  - cbn [app forallb] in *. apply andb_prop in Hall as [Hd Hall]. simpl.
    rewrite Hd. simpl in Hlo, Hstop.
    assert (Hlim : at_limit hi = false).
    { destruct hi as [[|h]|]; simpl in *; [lia|reflexivity|reflexivity]. }
    rewrite Hlim. simpl.
    rewrite (IH cs (Nat.pred lo) (Nat.pred <$> hi) (λ t rest, k' (d +:+ t) rest) r); auto.
    + lia.
    + destruct hi as [h|]; simpl in *; [|exact Hstop].
      destruct Hstop as [Hs|[Hs Hf]]; [left; lia|right; split; [lia|exact Hf]].
Qed.

(** A repetition that took everything gives back its last character when
    the rest of the pattern needs one. *)
Lemma rep_gives_back (p : string → bool) x : ∀ w (k' : string → string → option A) r,
  forallb p (w ++ [x]) = true →
  k' (join (w ++ [x])) "" = None →
  k' (join w) x = Some r →
  rep p 0 None (w ++ [x]) k' = Some r.
Proof.
  induction w as [|c w IH]; intros k' r Hall Hnone Hk.
  - cbn [app forallb] in *. apply andb_prop in Hall as [Hx _]. simpl. rewrite Hx. simpl.
    cbn [join foldr] in Hnone, Hk |- *. rewrite Hnone, app_empty_r. exact Hk.
  - cbn [app forallb] in *. apply andb_prop in Hall as [Hc Hall]. simpl. rewrite Hc. simpl.
    rewrite (IH (λ t rest0, k' (c +:+ t) rest0) r); auto.
Qed.

Lemma run_chr c s g k : (byte c < 128)%N → run (Chr c) (String c s) g k = k (String c "") s g.
Proof.
  intros H. cbn [run]. change (String c s) with (String c "" +:+ s).
  rewrite (ascii_whole c H s), String.eqb_refl. reflexivity.
Qed.

Lemma run_chr_other c c' s g k :
  (byte c' < 128)%N → c ≠ c' → run (Chr c) (String c' s) g k = None.
Proof.
  intros H Hne. cbn [run]. change (String c' s) with (String c' "" +:+ s).
  rewrite (ascii_whole c' H s).
  destruct (String.eqb_spec (String c' "") (String c "")) as [[= E]|_]; [congruence|reflexivity].
Qed.

Lemma run_seq r1 r2 s g k :
  run (Seq r1 r2) s g k
  = run r1 s g (λ t1 s1 g1, run r2 s1 g1 (λ t2 s2 g2, k (t1 +:+ t2) s2 g2)).
Proof. reflexivity. Qed.

Lemma run_grp i r s g k :
  run (Grp i r) s g k = run r s g (λ t rest g', k t rest (<[i := t]> g')).
Proof. reflexivity. Qed.

Lemma run_opt r s g k :
  run (Opt r) s g k = match run r s g k with Some x => Some x | None => k "" s g end.
Proof. reflexivity. Qed.

Lemma run_rep cl lo hi s g k :
  run (Rep cl lo hi) s g k = rep (cls_test cl) lo hi (chars s) (λ t rest, k t rest g).
Proof. reflexivity. Qed.

(** A run of digits, or of white space, at the head of a text. *)
Lemma run_class cl a s lo hi g k r :
  cl ≠ Dot → all_cls cl a = true → (lo ≤ len a)%nat →
  stops_at (cls_test cl) hi (len a) (chars s) →
  k a s g = Some r →
  run (Rep cl lo hi) (a +:+ s) g k = Some r.
Proof.
  intros Hcl Ha Hlo Hstop Hk. rewrite run_rep.
  rewrite (chars_app_whole _ _ (all_cls_whole _ _ Hcl Ha)).
  apply rep_run; auto. rewrite !join_chars. exact Hk.
Qed.
End MatcherSteps.

(** ** The timestamp pattern *)

Ltac invert_matches :=
  repeat match goal with
  | H : Matches (Seq _ _) _ _ _ |- _ => inversion H; subst; clear H
  | H : Matches (Grp _ _) _ _ _ |- _ => inversion H; subst; clear H
  | H : Matches (Chr _) _ _ _ |- _ => inversion H; subst; clear H
  | H : Matches (Rep _ _ _) _ _ _ |- _ => inversion H; subst; clear H
  | H : Matches (Opt _) _ _ _ |- _ => inversion H; subst; clear H
  end.

Lemma timestamp_matches_marker t g :
  Matches Rewrite.timestamp_pattern t ∅ g → marker t g.
Proof.
  unfold Rewrite.timestamp_pattern. intros H. invert_matches;
    repeat match goal with H : within _ _ _ |- _ => destruct H end;
    autorewrite with str.
  - apply marker_hh_mm_ss; auto; lia.
  - apply marker_mm_ss; auto; lia.
Qed.

Lemma marker_matches t g :
  marker t g → Matches Rewrite.timestamp_pattern t ∅ g.
Proof.
  unfold Rewrite.timestamp_pattern.
  destruct 1 as [a m Ha La Hm Lm|a m s Ha La Hm Lm Hs Ls].
  - replace ("[" +:+ a +:+ ":" +:+ m +:+ "]")
      with ("[" +:+ a +:+ ":" +:+ m +:+ "" +:+ "]") by reflexivity.
    repeat first [apply M_Opt_none | apply M_Chr | apply M_Grp | apply M_Rep
                 | eapply M_Seq]; auto; unfold within; simpl; lia.
  - replace ("[" +:+ a +:+ ":" +:+ m +:+ ":" +:+ s +:+ "]")
      with ("[" +:+ a +:+ ":" +:+ m +:+ (":" +:+ s) +:+ "]") by reflexivity.
    repeat first [apply M_Opt_some | apply M_Chr | apply M_Grp | apply M_Rep
                 | eapply M_Seq]; auto; unfold within; simpl; lia.
Qed.

(** What stops a run of digits before a character of the pattern. *)
Lemma stops_before c s hi n :
  (byte c < 48 ∨ 57 < byte c < 128)%N →
  match hi with Some h => (n ≤ h)%nat | None => True end →
  stops_at (cls_test Digit) hi n (chars (String c s)).
Proof.
  intros Hc Hn.
  assert (Hf : head_fails (cls_test Digit) (chars (String c s))).
  { rewrite chars_ascii by lia. cbn [head_fails cls_test].
    destruct (is_digit (String c "")) eqn:E; [|reflexivity].
    pose proof (digit_without _ c E Hc) as W. rewrite without_self in W. discriminate. }
  destruct hi as [h|]; [|exact Hf]. simpl.
  destruct (decide (n = h)); [left; assumption|right; split; [lia|exact Hf]].
Qed.

(** The matcher finds a marker at the head of a text, whatever follows. *)
Lemma marker_found t g rest :
  marker t g → re_match Rewrite.timestamp_pattern (t +:+ rest) = Some (g, rest).
Proof.
  unfold re_match, Rewrite.timestamp_pattern.
  destruct 1 as [a m Ha La Hm Lm|a m s Ha La Hm Lm Hs Ls]; autorewrite with str.
  - rewrite run_seq, run_chr by reflexivity. rewrite run_seq, run_grp.
    apply run_class; [discriminate|exact Ha|lia|apply stops_before; [right; split; reflexivity|lia]|].
    rewrite run_seq, run_chr by reflexivity. rewrite run_seq, run_grp.
    apply run_class; [discriminate|exact Hm|lia|left; exact Lm|].
    rewrite run_seq, run_opt, run_seq, run_chr_other by (try reflexivity; discriminate).
    rewrite run_chr by reflexivity. autorewrite with str. reflexivity.
  - rewrite run_seq, run_chr by reflexivity. rewrite run_seq, run_grp.
    apply run_class; [discriminate|exact Ha|lia|apply stops_before; [right; split; reflexivity|lia]|].
    rewrite run_seq, run_chr by reflexivity. rewrite run_seq, run_grp.
    apply run_class; [discriminate|exact Hm|lia|left; exact Lm|].
    rewrite run_seq, run_opt, run_seq, run_chr by reflexivity.
    rewrite run_grp.
    erewrite run_class; [reflexivity|discriminate|exact Hs|lia|left; exact Ls|].
    rewrite run_chr by reflexivity. autorewrite with str. reflexivity.
Qed.

(** ** Scanning: [re.sub] *)

Lemma marker_head t g :
  marker t g → ∃ body, t = String "[" body ∧ no_open body = true.
Proof.
  destruct 1 as [a m Ha La Hm Lm|a m s Ha La Hm Lm Hs Ls]; autorewrite with str;
    eexists; (split; [reflexivity|]).
  - rewrite no_open_app, (digits_no_open _ Ha). simpl.
    rewrite no_open_app, (digits_no_open _ Hm). reflexivity.
  - rewrite no_open_app, (digits_no_open _ Ha). simpl.
    rewrite no_open_app, (digits_no_open _ Hm). simpl.
    rewrite no_open_app, (digits_no_open _ Hs). reflexivity.
Qed.

Lemma match_shorter s g rest :
  re_match Rewrite.timestamp_pattern s = Some (g, rest) →
  (String.length rest < String.length s)%nat.
Proof.
  intros H. apply re_match_sound in H as (t & -> & M1).
  apply timestamp_matches_marker, marker_head in M1 as (body & -> & _).
  rewrite length_app_str. simpl. lia.
Qed.

Lemma re_sub_fuel_enough url : ∀ fuel s,
  (String.length s < fuel)%nat →
  re_sub_fuel fuel url s = re_sub_fuel (S (String.length s)) url s.
Proof.
  assert (H : ∀ n fuel1 fuel2 s, (String.length s < n)%nat →
              (String.length s < fuel1)%nat → (String.length s < fuel2)%nat →
              re_sub_fuel fuel1 url s = re_sub_fuel fuel2 url s).
  { induction n as [|n IH]; intros fuel1 fuel2 s Hn H1 H2; [lia|].
    destruct fuel1 as [|fuel1]; [lia|]. destruct fuel2 as [|fuel2]; [lia|].
    simpl. destruct (re_match _ s) as [[g rest]|] eqn:E.
    - apply match_shorter in E. f_equal. apply IH; lia.
    - destruct (next_char s) as [[ch s']|] eqn:N; [|reflexivity].
      apply next_char_shorter in N. f_equal. apply IH; lia. }
  intros fuel s Hf. apply (H (S (String.length s))); lia.
Qed.

(** The scan, without fuel: a match at the head is replaced and the scan
    goes on after it; otherwise one character is copied. *)
Lemma re_sub_unfold s url :
  add_youtube_timestamps s url =
  match re_match Rewrite.timestamp_pattern s with
  | Some (g, rest) => replace_timestamp url g +:+ add_youtube_timestamps rest url
  | None =>
    match next_char s with
    | Some (ch, s') => ch +:+ add_youtube_timestamps s' url
    | None => EmptyString
    end
  end.
Proof.
  unfold add_youtube_timestamps at 1. cbn [re_sub_fuel].
  destruct (re_match _ s) as [[g rest]|] eqn:E.
  - apply match_shorter in E. f_equal. apply re_sub_fuel_enough. lia.
  - destruct (next_char s) as [[ch s']|] eqn:N; [|reflexivity].
    apply next_char_shorter in N. f_equal. apply re_sub_fuel_enough. lia.
Qed.

Lemma app_eq_app_str (s1 s2 t1 t2 : string) :
  s1 +:+ s2 = t1 +:+ t2 →
  (∃ u, t1 = s1 +:+ u ∧ s2 = u +:+ t2) ∨ (∃ u, s1 = t1 +:+ u ∧ t2 = u +:+ s2).
Proof.
  revert t1. induction s1 as [|c s1 IH]; intros t1 H.
  - left. exists t1. auto.
  - destruct t1 as [|c' t1].
    + right. exists (String c s1). auto.
    + rewrite !app_String in H. injection H as <- H.
      destruct (IH _ H) as [(u & -> & ->)|(u & -> & ->)]; [left|right]; exists u; auto.
Qed.

(** A match that starts before a marker ends before it. *)
Lemma match_before_marker c pre m gm post g rest :
  marker m gm →
  re_match Rewrite.timestamp_pattern (String c pre +:+ m +:+ post) = Some (g, rest) →
  ∃ rest', rest = rest' +:+ m +:+ post
           ∧ re_match Rewrite.timestamp_pattern (String c pre) = Some (g, rest').
Proof.
  intros Hm H. apply re_match_sound in H as (t & Heq & Mt).
  apply timestamp_matches_marker in Mt.
  destruct (app_eq_app_str _ _ _ _ Heq) as [(u & -> & Hrest)|(u & Hpre & ->)].
  - destruct u as [|x u].
    + exists "". rewrite app_empty_l in Hrest. split; [auto|].
      rewrite app_empty_r in Mt. rewrite <- (app_empty_r (String c pre)) at 1.
      apply marker_found. exact Mt.
    + exfalso. apply marker_head in Hm as (bm & -> & _).
      rewrite !app_String in Hrest. injection Hrest as <- _.
      apply marker_head in Mt as (body & Hb & Hno).
      rewrite app_String in Hb. injection Hb as -> <-.
      rewrite no_open_app in Hno. simpl in Hno.
      rewrite andb_false_r in Hno. discriminate.
  - exists u. split; [reflexivity|]. rewrite Hpre. apply marker_found. exact Mt.
Qed.

(** [re.sub] rewrites a marker where it stands: the text before it and the
    text after it are rewritten as if they stood alone. *)
Lemma re_sub_marker url m g post : ∀ pre,
  marker m g →
  add_youtube_timestamps (pre +:+ m +:+ post) url
  = add_youtube_timestamps pre url +:+ replace_timestamp url g
    +:+ add_youtube_timestamps post url.
Proof.
  intros pre Hm.
  remember (String.length pre) as n eqn:Hn.
  revert pre Hn. induction n as [n IH] using lt_wf_ind. intros pre ->.
  destruct pre as [|c pre].
  - rewrite app_empty_l, (re_sub_unfold (m +:+ post)), (marker_found _ _ _ Hm).
    rewrite (re_sub_unfold ""). reflexivity.
  - rewrite (re_sub_unfold (String c pre +:+ _)), (re_sub_unfold (String c pre)).
    destruct (re_match _ (String c pre +:+ m +:+ post)) as [[g1 rest1]|] eqn:E.
    + destruct (match_before_marker _ _ _ _ _ _ _ Hm E) as (rest' & -> & E').
      rewrite E'. apply match_shorter in E'.
      rewrite (IH _ E' rest' eq_refl), app_assoc_str. reflexivity.
    + destruct (re_match _ (String c pre)) as [[g1 rest1]|] eqn:E'.
      * apply re_match_sound in E' as (t & Hpre & Mt).
        apply timestamp_matches_marker in Mt.
        rewrite Hpre, app_assoc_str, (marker_found _ _ _ Mt) in E. discriminate.
      * destruct (next_char (String c pre)) as [[ch pre']|] eqn:N;
          [|apply next_char_None in N; discriminate].
        pose proof (next_char_shorter _ _ _ N) as L.
        destruct (next_char_split _ _ _ N) as [Hpre _]. rewrite Hpre in N |- *.
        destruct (marker_head _ _ Hm) as (body & Hbody & _).
        assert (N' : next_char (ch +:+ pre' +:+ (m +:+ post))
                     = Some (ch, pre' +:+ (m +:+ post))).
        { apply next_char_before; [|exact N]. rewrite Hbody. reflexivity. }
        rewrite app_assoc_str, N'. rewrite (IH _ L pre' eq_refl), !app_assoc_str.
        reflexivity.
Qed.

(** A text without any marker is left as it is. *)
Lemma re_sub_marker_free url : ∀ s,
  marker_free s → add_youtube_timestamps s url = s.
Proof.
  induction s as [|ch rest N IH] using text_ind; intros Hfree; rewrite re_sub_unfold.
  - reflexivity.
  - destruct (re_match _ (ch +:+ rest)) as [[g rest']|] eqn:E.
    + apply re_match_sound in E as (t & Heq & Mt).
      exfalso. apply (Hfree "" t rest' g); [|exact Mt]. rewrite app_empty_l. exact Heq.
    + rewrite N. f_equal. apply IH. intros a b d g -> Mb.
      apply (Hfree (ch +:+ a) b d g); [|exact Mb]. rewrite app_assoc_str. reflexivity.
Qed.

Lemma no_open_marker_free s : no_open s = true → marker_free s.
Proof.
  intros Hno a b c g -> Mb.
  apply timestamp_matches_marker, marker_head in Mb as (body & -> & _).
  rewrite !no_open_app in Hno. simpl in Hno.
  rewrite andb_false_r in Hno. discriminate.
Qed.

(** ** Decimal printing *)

Lemma ascii_digits_cons c s :
  ascii_digits (String c s) = true → (48 ≤ byte c ≤ 57)%N ∧ ascii_digits s = true.
Proof.
  simpl. intros H. apply andb_prop in H as [H Hs]. apply andb_prop in H as [H1 H2].
  apply N.leb_le in H1, H2. auto.
Qed.

Lemma ascii_digits_app a b :
  ascii_digits (a +:+ b) = ascii_digits a && ascii_digits b.
Proof.
  induction a as [|c a IH]; [reflexivity|]. rewrite app_String. simpl.
  rewrite IH, andb_assoc. reflexivity.
Qed.

Lemma ascii_digits_chars s :
  ascii_digits s = true →
  all_cls Digit s = true ∧ len s = String.length s ∧ Forall whole (chars s).
Proof.
  unfold all_cls, len. induction s as [|c s IH]; intros H; [repeat split; constructor|].
  apply ascii_digits_cons in H as [Hc Hs]. destruct (IH Hs) as (IH1 & IH2 & IH3).
  rewrite chars_ascii by lia. cbn [forallb length cls_test String.length].
  rewrite (proj1 (ascii_digit c Hc)), IH1, IH2. repeat split.
  constructor; [apply ascii_whole; lia|exact IH3].
Qed.

Lemma int_from_digit acc c s :
  (48 ≤ byte c ≤ 57)%N →
  int_from acc (String c s) = int_from (acc * 10 + (Z.of_N (byte c) - 48)) s.
Proof.
  intros Hc. unfold int_from. rewrite chars_ascii by lia. cbn [foldl].
  rewrite (proj2 (ascii_digit c Hc)). reflexivity.
Qed.

Lemma pretty_N_char_byte n : (n < 10)%N → byte (pretty_N_char n) = (48 + n)%N.
Proof.
  intros H.
  assert (n = 0 ∨ n = 1 ∨ n = 2 ∨ n = 3 ∨ n = 4 ∨ n = 5 ∨ n = 6 ∨ n = 7 ∨ n = 8 ∨ n = 9)%N
    as E by lia.
  repeat (destruct E as [->|E]; [reflexivity|]). subst n. reflexivity.
Qed.

Lemma pretty_N_go_digits x : ∀ s,
  ascii_digits s = true → ascii_digits (pretty_N_go x s) = true.
Proof.
  induction (N.lt_wf_0 x) as [x _ IH]. intros s Hs.
  destruct (decide (x = 0)%N) as [->|Hx]; [exact Hs|].
  rewrite pretty_N_go_step by lia. apply IH.
  - apply N.div_lt; lia.
  - cbn [ascii_digits]. rewrite pretty_N_char_byte by (apply N.mod_lt; lia). rewrite Hs.
    assert (x `mod` 10 < 10)%N by (apply N.mod_lt; lia).
    set (n := (x `mod` 10)%N) in *. clearbody n.
    destruct (N.leb_spec 48 (48 + n)); [|lia].
    destruct (N.leb_spec (48 + n) 57); [reflexivity|lia].
Qed.

Lemma pretty_N_go_length x : ∀ s,
  (0 < x)%N → (String.length s < String.length (pretty_N_go x s))%nat.
Proof.
  induction (N.lt_wf_0 x) as [x _ IH]. intros s Hx.
  rewrite pretty_N_go_step by lia.
  destruct (decide (x `div` 10 = 0)%N) as [->|Hd].
  - rewrite pretty_N_go_0. simpl. lia.
  - etrans; [|apply IH; [apply N.div_lt; [lia|reflexivity]|]].
    + simpl. lia.
    + apply N.neq_0_lt_0. exact Hd.
Qed.

(** A non-negative integer prints as a non-empty text of ASCII digits. *)
Lemma pretty_nonneg_ascii (z : Z) : 0 ≤ z → ascii_digits (pretty z) = true ∧ pretty z ≠ "".
Proof.
  intros Hz. destruct z as [|p|p]; [split; [reflexivity|discriminate]| |lia].
  unfold pretty, pretty_Z, pretty, pretty_positive, pretty, pretty_N.
  case_decide; [discriminate|]. split.
  - apply pretty_N_go_digits. reflexivity.
  - intros E. pose proof (pretty_N_go_length (N.pos p) "" ltac:(lia)) as L.
    rewrite E in L. simpl in L. lia.
Qed.

Lemma pretty_nonneg_digits (z : Z) :
  0 ≤ z → all_cls Digit (pretty z) = true ∧ pretty z ≠ "".
Proof.
  intros Hz. destruct (pretty_nonneg_ascii z Hz) as [H Hne]. split; [|exact Hne].
  apply ascii_digits_chars, H.
Qed.

(** A number below one hundred prints with [02d] as two ASCII digits. *)
Lemma fmt_02d_two_digits (z : Z) :
  0 ≤ z < 100 → ascii_digits (fmt_02d z) = true ∧ String.length (fmt_02d z) = 2%nat.
Proof.
  intros Hz. unfold fmt_02d.
  destruct z as [|p|p]; [split; reflexivity| |lia].
  unfold pretty, pretty_Z, pretty, pretty_positive, pretty, pretty_N.
  case_decide; [discriminate|].
  rewrite pretty_N_go_step by lia.
  assert (Hd : ∀ n, (n < 10)%N → ascii_digits (String (pretty_N_char n) "") = true).
  { intros n Hn. cbn [ascii_digits]. rewrite pretty_N_char_byte by exact Hn.
    destruct (N.leb_spec 48 (48 + n)); [|lia].
    destruct (N.leb_spec (48 + n) 57); [reflexivity|lia]. }
  destruct (decide (N.pos p `div` 10 = 0)%N) as [E|E].
  - rewrite E, pretty_N_go_0. cbn [String.length Nat.ltb Nat.leb].
    change ("0" +:+ String ?c "") with (String "0" (String c "")).
    split; [|reflexivity]. change (String "0" (String ?c "")) with ("0" +:+ String c "").
    rewrite ascii_digits_app, Hd by (apply N.mod_lt; lia). reflexivity.
  - rewrite pretty_N_go_step by (apply N.neq_0_lt_0; exact E).
    assert (((N.pos p `div` 10) `div` 10) = 0)%N as ->.
    { apply N.div_small. apply N.Div0.div_lt_upper_bound. lia. }
    rewrite pretty_N_go_0. cbn [String.length Nat.ltb Nat.leb]. split; [|reflexivity].
    change (String ?a (String ?b "")) with (String a "" +:+ String b "").
    rewrite ascii_digits_app, !Hd by (apply N.mod_lt; lia). reflexivity.
Qed.

Lemma round_half_even_nonneg num den :
  0 ≤ num → 0 < den → 0 ≤ Transcript.round_half_even num den.
Proof.
  intros Hn Hd. unfold Transcript.round_half_even.
  assert (0 ≤ num / den) by (apply Z.div_pos; lia).
  destruct (2 * (num mod den) ?= den); [destruct (Z.even _)|..]; lia.
Qed.

Lemma hundredths_nonneg m e : 0 ≤ Transcript.hundredths m e.
Proof.
  unfold Transcript.hundredths. destruct (0 <=? e) eqn:E.
  - apply Z.leb_le in E. assert (0 < 2 ^ e) by (apply Z.pow_pos_nonneg; lia). nia.
  - apply Z.leb_gt in E. apply round_half_even_nonneg; [lia|].
    apply Z.pow_pos_nonneg; lia.
Qed.

(** The shape of a plain time printed with two decimals. *)
Lemma fmt_2f_shape x :
  plain_time x = true →
  ∃ ds fr, Transcript.fmt_2f x = ds +:+ String "." fr
           ∧ ascii_digits ds = true ∧ ds ≠ ""
           ∧ ascii_digits fr = true ∧ String.length fr = 2%nat.
Proof.
  destruct x as [[]|[]| |[] m e]; try discriminate; intros _.
  - exists "0", "00". repeat split; auto; discriminate.
  - cbn [Transcript.fmt_2f Transcript.sign_text]. rewrite app_empty_l.
    pose proof (hundredths_nonneg m e) as Hh.
    destruct (pretty_nonneg_ascii (Transcript.hundredths m e / 100)) as [Hd Hne].
    { apply Z.div_pos; lia. }
    destruct (fmt_02d_two_digits (Transcript.hundredths m e mod 100)) as (Hf & Lf).
    { apply Z.mod_pos_bound. lia. }
    exists (pretty (Transcript.hundredths m e / 100)),
           (fmt_02d (Transcript.hundredths m e mod 100)). repeat split; auto.
Qed.

(** ** The transcript line against the pattern of Synthesize *)

Lemma head_fails_ascii (p : string → bool) c s :
  (byte c < 128)%N → p (String c "") = false → head_fails p (chars (String c s)).
Proof. intros H Hp. rewrite chars_ascii by exact H. exact Hp. Qed.

Lemma chars_without c s :
  without c s = true → Forall (λ ch, without c ch = true) (chars s).
Proof.
  induction s as [|ch rest N IH] using text_ind; intros H; [constructor|].
  rewrite without_app in H. apply andb_prop in H as [Hch Hrest].
  rewrite (chars_next _ _ _ N). constructor; auto.
Qed.

(** The characters of a text without line feed are matched by the dot. *)
Lemma no_line_feed_dots s :
  no_line_feed s = true → forallb (cls_test Dot) (chars s) = true.
Proof.
  intros H. apply chars_without in H. apply forallb_forall. intros ch Hin.
  rewrite List.Forall_forall in H. specialize (H ch Hin). cbn [cls_test].
  apply negb_true_iff, String.eqb_neq. intros ->. discriminate H.
Qed.

Lemma lstrip_split cs :
  ∃ w, cs = w ++ Transcript.lstrip cs ∧ forallb is_space w = true.
Proof.
  induction cs as [|c cs (w & IH & Hw)]; [exists []; auto|].
  simpl. destruct (is_space c) eqn:E.
  - exists (c :: w). cbn [app forallb]. rewrite <- IH, E, Hw. auto.
  - exists []. auto.
Qed.

Lemma lstrip_head cs : head_fails is_space (Transcript.lstrip cs).
Proof.
  induction cs as [|c cs IH]; [exact I|]. simpl.
  destruct (is_space c) eqn:E; [exact IH|exact E].
Qed.

Lemma lstrip_idem cs : Transcript.lstrip (Transcript.lstrip cs) = Transcript.lstrip cs.
Proof.
  pose proof (lstrip_head cs) as H. destruct (Transcript.lstrip cs) as [|c r]; [reflexivity|].
  simpl in H |- *. rewrite H. reflexivity.
Qed.

Lemma last_elem {X} (c : X) cs : ∃ w x, c :: cs = w ++ [x].
Proof.
  revert c. induction cs as [|d cs IH]; intros c.
  - exists [], c. reflexivity.
  - destruct (IH d) as (w & x & ->). exists (c :: w), x. reflexivity.
Qed.

Section LineSteps.
Context {A : Type}.
Implicit Types (k : string → string → gmap nat string → option A).

(** A printed time, followed by a character that is not a digit, is read
    as one number. *)
Lemma run_number ds fr c rest g k r :
  ascii_digits ds = true → ds ≠ "" → ascii_digits fr = true →
  (byte c < 48 ∨ 57 < byte c < 128)%N →
  k (ds +:+ String "." fr) (String c rest) g = Some r →
  run Transcript.number (ds +:+ String "." (fr +:+ String c rest)) g k = Some r.
Proof.
  intros Hds Hne Hfr Hc Hk. unfold Transcript.number.
  destruct (ascii_digits_chars _ Hds) as (Ads & Lds & _).
  destruct (ascii_digits_chars _ Hfr) as (Afr & Lfr & _).
  rewrite run_seq. apply run_class; [discriminate|exact Ads| |apply stops_before; [left; reflexivity|exact I]|].
  { rewrite Lds. destruct ds; [congruence|simpl; lia]. }
  rewrite run_seq, run_opt, run_chr by reflexivity.
  erewrite run_class; [reflexivity|discriminate|exact Afr|lia|apply stops_before; [exact Hc|exact I]|].
  exact Hk.
Qed.
End LineSteps.

(** The end of the pattern, spaces and [(.+)], on a text without line
    feed: group 3 is the text up to the white space around it. *)
Lemma run_tail text :
  no_line_feed text = true →
  ∃ body,
    Transcript.strip body = Transcript.strip text
    ∧ ∀ A g (k : string → string → gmap nat string → option A),
        (∀ t rest g', ∃ r, k t rest g' = Some r) →
        ∃ t, run (Rep Space 0 None ⋅ Grp 3 (Rep Dot 1 None))%re (String " " text) g k
             = k t "" (<[3%nat := body]> g).
Proof.
  intros Hdot. pose proof (no_line_feed_dots _ Hdot) as Hdots.
  assert (Hsp : is_space " " = true) by reflexivity.
  destruct (lstrip_split (chars text)) as (w & Htext & Hw).
  destruct (Transcript.lstrip (chars text)) as [|c body] eqn:El.
  - (* only white space: the last character is given back *)
    rewrite app_nil_r in Htext.
    destruct (last_elem " " (chars text)) as (w' & x & Hlast).
    assert (Hall : forallb is_space (w' ++ [x]) = true).
    { rewrite <- Hlast. cbn [forallb]. rewrite Hsp, Htext. exact Hw. }
    assert (Hx : is_space x = true).
    { rewrite forallb_app in Hall. apply andb_prop in Hall as [_ Hall].
      cbn [forallb] in Hall. rewrite andb_true_r in Hall. exact Hall. }
    assert (Hxd : cls_test Dot x = true).
    { assert (Hd : forallb (cls_test Dot) (" " :: chars text) = true).
      { cbn [forallb]. rewrite Hdots. reflexivity. }
      rewrite Hlast, forallb_app in Hd. apply andb_prop in Hd as [_ Hd].
      cbn [forallb] in Hd. rewrite andb_true_r in Hd. exact Hd. }
    assert (Hcx : chars x = [x]).
    { rewrite <- (app_empty_r x) at 1. rewrite (chars_whole _ _ (is_space_whole _ Hx)).
      reflexivity. }
    exists x. split.
    + unfold Transcript.strip. rewrite El, Hcx. cbn [Transcript.lstrip]. rewrite Hx.
      reflexivity.
    + intros A g k Hk. exists (join w' +:+ x).
      rewrite run_seq, run_rep, chars_ascii by reflexivity. rewrite Hlast.
      destruct (Hk (join w' +:+ x) "" (<[3%nat:=x]> g)) as [r Hr].
      rewrite Hr. apply rep_gives_back; [exact Hall|reflexivity|].
      rewrite run_grp, run_rep, Hcx. cbn [rep]. rewrite Hxd. cbn [andb negb at_limit].
      cbn [Nat.pred fmap option_fmap option_map rep join foldr].
      rewrite app_empty_r, Hr. reflexivity.
  - (* the spaces, then the rest of the line *)
    pose proof (lstrip_head (chars text)) as Hhead. rewrite El in Hhead.
    pose proof (chars_suffix _ _ _ Htext) as Hbody.
    exists (join (c :: body)). split.
    + unfold Transcript.strip. rewrite Hbody, <- El, lstrip_idem. reflexivity.
    + intros A g k Hk. exists (join (" " :: w) +:+ join (c :: body)).
      rewrite run_seq, run_rep, chars_ascii by reflexivity. rewrite Htext.
      destruct (Hk (join (" " :: w) +:+ join (c :: body)) ""
                   (<[3%nat:=join (c :: body)]> g)) as [r Hr].
      rewrite Hr. change (" " :: w ++ c :: body) with ((" " :: w) ++ c :: body).
      apply rep_run.
      * change (forallb is_space (" " :: w) = true). cbn [forallb].
        rewrite Hsp, Hw. reflexivity.
      * simpl. lia.
      * exact Hhead.
      * rewrite run_grp, run_rep, Hbody. rewrite <- (app_nil_r (c :: body)) at 1.
        apply rep_run.
        -- rewrite Htext, forallb_app in Hdots. apply andb_prop in Hdots as [_ Hdots].
           exact Hdots.
        -- simpl. lia.
        -- exact I.
        -- exact Hr.
Qed.

Lemma split_lines_line l rest :
  no_line_feed l = true →
  Transcript.split_lines (l +:+ Transcript.LF +:+ rest) = l :: Transcript.split_lines rest.
Proof.
  induction l as [|c l IH]; intros H.
  - reflexivity.
  - simpl in H. apply andb_prop in H as [Hc Hl]. apply negb_true_iff in Hc.
    rewrite app_String. simpl. rewrite Hc, (IH Hl). reflexivity.
Qed.

Lemma split_lines_last l :
  no_line_feed l = true → Transcript.split_lines l = [l].
Proof.
  induction l as [|c l IH]; intros H; [reflexivity|].
  simpl in H. apply andb_prop in H as [Hc Hl]. apply negb_true_iff in Hc.
  simpl. rewrite Hc, (IH Hl). reflexivity.
Qed.

Lemma split_join lines :
  lines ≠ [] → Forall (λ l, no_line_feed l = true) lines →
  Transcript.split_lines (Transcript.join_lines lines) = lines.
Proof.
  intros Hne Hall. induction Hall as [|l ls Hl Hls IH]; [congruence|].
  destruct ls as [|l' ls].
  - simpl. apply split_lines_last, Hl.
  - change (Transcript.join_lines (l :: l' :: ls))
      with (l +:+ Transcript.LF +:+ Transcript.join_lines (l' :: ls)).
    rewrite split_lines_line by exact Hl. rewrite IH by discriminate. reflexivity.
Qed.

Lemma ascii_digits_no_line_feed s : ascii_digits s = true → no_line_feed s = true.
Proof.
  induction s as [|c s IH]; [reflexivity|]. intros H.
  apply ascii_digits_cons in H as [Hc Hs]. unfold no_line_feed in *. simpl.
  rewrite (IH Hs), andb_true_r. apply negb_true_iff, Ascii.eqb_neq. intros ->.
  vm_compute in Hc. destruct Hc as [Hc _]. apply Hc. reflexivity.
Qed.

Lemma line_without_newline seg :
  well_formed_segment seg → no_line_feed (Transcript.transcription_line seg) = true.
Proof.
  intros (Hs & He & Ht). unfold Transcript.transcription_line.
  destruct (fmt_2f_shape _ Hs) as (d1 & f1 & -> & Hd1 & _ & Hf1 & _).
  destruct (fmt_2f_shape _ He) as (d2 & f2 & -> & Hd2 & _ & Hf2 & _).
  apply ascii_digits_no_line_feed in Hd1, Hd2, Hf1, Hf2.
  unfold no_line_feed in *. rewrite !without_app, Hd1, Hd2, Ht.
  cbn [without]. rewrite ?without_app, Hf1, ?Hf2. reflexivity.
Qed.

(** A line written by Transcribe for a well formed segment matches the
    pattern of Synthesize, which reads back the printed times and the
    text. *)
Lemma line_parsed float seg :
  well_formed_segment seg →
  Transcript.parse_line float (Transcript.transcription_line seg)
  = Some (read_back float seg).
Proof.
  intros (Hs & He & Ht). destruct seg as [t1 t2 text]. simpl in *.
  unfold Transcript.parse_line, read_back, Transcript.transcription_line. simpl.
  destruct (fmt_2f_shape t1 Hs) as (d1 & f1 & E1 & Hd1 & Hn1 & Hf1 & _).
  destruct (fmt_2f_shape t2 He) as (d2 & f2 & E2 & Hd2 & Hn2 & Hf2 & _).
  destruct (run_tail text Ht) as (body & Hstrip & Htail).
  assert (Hm : re_match Transcript.timestamp_pattern
                 ("[" +:+ Transcript.fmt_2f t1 +:+ "s -> " +:+ Transcript.fmt_2f t2 +:+ "s] " +:+ text)
               = Some (<[3%nat := body]> (<[2%nat := Transcript.fmt_2f t2]>
                         (<[1%nat := Transcript.fmt_2f t1]> ∅)), "")).
  { unfold re_match, Transcript.timestamp_pattern.
    rewrite E1, E2. autorewrite with str.
    rewrite run_seq, run_chr by reflexivity. rewrite run_seq, run_grp.
    apply run_number; auto; [right; split; reflexivity|].
    rewrite run_seq, run_chr by reflexivity. rewrite run_seq.
    change (String " " (String "-" ?x)) with (" " +:+ String "-" x).
    apply run_class; [discriminate|reflexivity|simpl; lia| |].
    { apply head_fails_ascii; reflexivity. }
    rewrite run_seq, run_chr by reflexivity. rewrite run_seq, run_chr by reflexivity.
    rewrite run_seq.
    change (String " " (d2 +:+ ?x)) with (" " +:+ (d2 +:+ x)).
    apply run_class; [discriminate|reflexivity|simpl; lia| |].
    { destruct d2 as [|c d2]; [congruence|]. rewrite app_String.
      apply ascii_digits_cons in Hd2 as [Hc _].
      apply head_fails_ascii; [lia|]. apply digit_not_space, ascii_digit, Hc. }
    rewrite run_seq, run_grp.
    apply run_number; auto; [right; split; reflexivity|].
    rewrite run_seq, run_chr by reflexivity. rewrite run_seq, run_chr by reflexivity.
    match goal with |- run _ _ ?g ?k = _ => destruct (Htail _ g k) as [t ->] end.
    { intros; eexists; reflexivity. }
    reflexivity. }
  rewrite Hm.
  rewrite (lookup_insert_ne _ 3%nat 1%nat), (lookup_insert_ne _ 2%nat 1%nat) by done.
  rewrite (lookup_insert_ne _ 3%nat 2%nat) by done.
  rewrite !lookup_insert_eq. simpl. rewrite Hstrip. reflexivity.
Qed.

(** ** Claims on the text transformations *)

Example rewrite_mm_ss :
  add_youtube_timestamps "see [12:34] here" (PStr "https://x/y")
  = "see [12:34](https://x/y?t=754) here".
Proof. vm_compute. reflexivity. Qed.

Example rewrite_unicode_digits :
  add_youtube_timestamps "[١٢:٣٤] [１:０２:０３]" (PStr "u")
  = "[12:34](u?t=754) [1:02:03](u?t=3723)".
Proof. vm_compute. reflexivity. Qed.

Example rewrite_leading_zero :
  add_youtube_timestamps "[01:05] [1:2] [123:45] [1:23:4]" (PStr "u")
  = "[1:05](u?t=65) [1:2] [123:45] [1:23:4]".
Proof. vm_compute. reflexivity. Qed.

Lemma re_sub_empty url : add_youtube_timestamps "" url = "".
Proof. reflexivity. Qed.

Lemma groups_mm_ss (a m : string) :
  let g : gmap nat string := <[2%nat := m]> (<[1%nat := a]> ∅) in
  Rewrite.group g 1 = Some a ∧ Rewrite.group g 2 = Some m ∧ Rewrite.group g 3 = None.
Proof.
  unfold Rewrite.group. simpl.
  rewrite (lookup_insert_ne _ 2%nat 1%nat), (lookup_insert_ne _ 2%nat 3%nat) by done.
  rewrite (lookup_insert_ne _ 1%nat 3%nat) by done.
  rewrite !lookup_insert_eq, lookup_empty. auto.
Qed.

Lemma groups_hh_mm_ss (a m s : string) :
  let g : gmap nat string := <[3%nat := s]> (<[2%nat := m]> (<[1%nat := a]> ∅)) in
  Rewrite.group g 1 = Some a ∧ Rewrite.group g 2 = Some m ∧ Rewrite.group g 3 = Some s.
Proof.
  unfold Rewrite.group. simpl.
  rewrite (lookup_insert_ne _ 3%nat 1%nat), (lookup_insert_ne _ 2%nat 1%nat) by done.
  rewrite (lookup_insert_ne _ 3%nat 2%nat) by done.
  rewrite !lookup_insert_eq. auto.
Qed.

(** C4, as the specification words it, fails on its own example: the
    display keeps the two digits of the minutes after an hour. *)
Lemma timestamp_display_counterexample :
  add_youtube_timestamps "[1:02:03]" (PStr "https://x/y")
  ≠ "[1:2:03](https://x/y?t=3723)".
Proof. vm_compute. discriminate. Qed.

(** C4, amended. A marker [[MM:SS]] alone becomes a link whose text is the
    minutes without leading zero and the seconds on two digits, with
    [t = M*60 + S]; a marker [[H:MM:SS]] or [[HH:MM:SS]] becomes a link
    whose text is the hours without leading zero and the minutes and
    seconds on two digits, with [t = H*3600 + M*60 + S]. On
    [https://x/y], [[12:34]] gives [[12:34](https://x/y?t=754)] and
    [[1:02:03]] gives [[1:02:03](https://x/y?t=3723)]. The digits of a
    marker are the decimal digits of [\d], counted as characters and
    read by [int]; the link is written with ASCII digits. *)
Theorem timestamp_rewrite_seconds (url : pyval) (a m s : string) :
  all_cls Digit a = true → (1 ≤ len a ≤ 2)%nat →
  all_cls Digit m = true → len m = 2%nat →
  all_cls Digit s = true → len s = 2%nat →
  add_youtube_timestamps ("[" +:+ a +:+ ":" +:+ m +:+ "]") url
  = "[" +:+ pretty (int a) +:+ ":" +:+ fmt_02d (int m) +:+ "]("
    +:+ str url +:+ "?t=" +:+ pretty (int a * 60 + int m) +:+ ")"
  ∧ add_youtube_timestamps ("[" +:+ a +:+ ":" +:+ m +:+ ":" +:+ s +:+ "]") url
    = "[" +:+ pretty (int a) +:+ ":" +:+ fmt_02d (int m) +:+ ":" +:+ fmt_02d (int s)
      +:+ "](" +:+ str url +:+ "?t=" +:+ pretty (int a * 3600 + int m * 60 + int s)
      +:+ ")"
  ∧ add_youtube_timestamps "[12:34]" (PStr "https://x/y") = "[12:34](https://x/y?t=754)"
  ∧ add_youtube_timestamps "[1:02:03]" (PStr "https://x/y")
    = "[1:02:03](https://x/y?t=3723)".
Proof.
  intros Ha La Hm Lm Hs Ls. split; [|split; [|split; vm_compute; reflexivity]].
  - pose proof (marker_mm_ss a m Ha La Hm Lm) as M.
    pose proof (re_sub_marker url _ _ "" "" M) as R.
    rewrite app_empty_l, !re_sub_empty, app_empty_l, !app_empty_r in R. rewrite R.
    unfold replace_timestamp, Rewrite.int_group.
    destruct (groups_mm_ss a m) as (-> & -> & ->). cbn [truthy_text default].
    unfold id. autorewrite with str. reflexivity.
  - pose proof (marker_hh_mm_ss a m s Ha La Hm Lm Hs Ls) as M.
    pose proof (re_sub_marker url _ _ "" "" M) as R.
    rewrite app_empty_l, !re_sub_empty, app_empty_l, !app_empty_r in R. rewrite R.
    unfold replace_timestamp, Rewrite.int_group.
    destruct (groups_hh_mm_ss a m s) as (-> & -> & ->).
    destruct s as [|x s]; [discriminate Ls|]. cbn [truthy_text default negb String.eqb].
    unfold id. autorewrite with str. reflexivity.
Qed.

Lemma timestamp_rewrite_seconds_witness :
  add_youtube_timestamps ("[" +:+ "7" +:+ ":" +:+ "05" +:+ "]") (PStr "u")
  = "[" +:+ pretty (int "7") +:+ ":" +:+ fmt_02d (int "05") +:+ "]("
    +:+ str (PStr "u") +:+ "?t=" +:+ pretty (int "7" * 60 + int "05") +:+ ")".
Proof.
  apply (timestamp_rewrite_seconds (PStr "u") "7" "05" "09");
    first [reflexivity | vm_compute; lia].
Defined.



(** C5, as the specification words it, fails for a text that holds a line
    feed: the line is cut and the text after the line feed is lost. *)
Lemma transcript_round_trip_counterexample :
  Transcript.parse_segments (λ _, S754_zero false)
    (Transcript.serialize (Transcript.Transcript
       [Transcript.Segment (S754_zero false) (S754_finite false 3 (-1))
                           ("a" +:+ Transcript.LF +:+ "b")] ""))
  ≠ [read_back (λ _, S754_zero false)
       (Transcript.Segment (S754_zero false) (S754_finite false 3 (-1))
                           ("a" +:+ Transcript.LF +:+ "b"))].
Proof. vm_compute. discriminate. Qed.

(** C5, amended. For a non-empty sequence of segments whose times are
    zero or finite with the sign bit clear and whose texts hold no line
    feed, every line written by Transcribe matches the pattern of
    Synthesize, and parsing the stored text gives back, in order, one
    segment per line: the times as printed with two decimals and the
    text without the white space around it, which is the white space of
    [str.strip] (a no-break space as well as a space). *)
Theorem transcript_round_trip (float : string → spec_float)
    (segs : list Transcript.segment) (fallback : string) :
  segs ≠ [] →
  Forall well_formed_segment segs →
  Forall (λ seg, is_Some (re_match Transcript.timestamp_pattern
                            (Transcript.transcription_line seg))) segs
  ∧ Transcript.parse_segments float
      (Transcript.serialize (Transcript.Transcript segs fallback))
    = read_back float <$> segs.
Proof.
  intros Hne Hwf. split.
  - eapply Forall_impl; [exact Hwf|]. intros seg Hseg.
    pose proof (line_parsed float seg Hseg) as H. unfold Transcript.parse_line in H.
    destruct (re_match _ _); [eauto|discriminate].
  - destruct segs as [|seg segs]; [congruence|].
    unfold Transcript.parse_segments.
    change (Transcript.serialize (Transcript.Transcript (seg :: segs) fallback))
      with (Transcript.join_lines (Transcript.transcription_line <$> (seg :: segs))).
    rewrite split_join.
    + clear Hne. induction Hwf as [|s ss Hs Hss IH]; [reflexivity|].
      cbn [fmap list_fmap omap list_omap]. rewrite (line_parsed float s Hs).
      f_equal. exact IH.
    + discriminate.
    + apply Forall_fmap. eapply Forall_impl; [exact Hwf|].
      intros s Hs. apply line_without_newline, Hs.
Qed.

Lemma transcript_round_trip_witness :
  let segs := [Transcript.Segment (S754_zero false) (S754_finite false 3 (-1)) " hello ";
               Transcript.Segment (S754_finite false 3 (-1)) (S754_finite false 5 0)
                                  (no_break_space +:+ "wörld　")] in
  Transcript.parse_segments (λ _, S754_nan)
    (Transcript.serialize (Transcript.Transcript segs "x"))
  = read_back (λ _, S754_nan) <$> segs.
Proof.
  apply (transcript_round_trip (λ _, S754_nan)
           [Transcript.Segment (S754_zero false) (S754_finite false 3 (-1)) " hello ";
            Transcript.Segment (S754_finite false 3 (-1)) (S754_finite false 5 0)
                               (no_break_space +:+ "wörld　")] "x").
  - discriminate.
  - repeat constructor.
Defined.

(** The text read back for the second segment of the example above. *)
Example strip_no_break_space : Transcript.strip (no_break_space +:+ "wörld　") = "wörld".
Proof. vm_compute. reflexivity. Qed.

(** ** Running the handlers and the tasks *)

Ltac unfold_monad :=
  unfold mbind, M_bind, bind, mret, M_ret, ret, raise, try_pass, try_except,
    query_by_pyval, query_by_id, assign, commit, delay, path_exists, file_written,
    add_note, SessionLocal;
  cbn [rows files trail fst snd app].

Lemma alter_row (f : Note.t → Note.t) (table : gmap Z Note.t) id n :
  table !! id = Some n → alter f id table = <[id := f n]> table.
Proof.
  intros H. apply map_eq. intros j. destruct (decide (id = j)) as [->|Hne].
  - rewrite lookup_alter_eq, lookup_insert_eq, H. reflexivity.
  - rewrite lookup_alter_ne, lookup_insert_ne by done. reflexivity.
Qed.

Lemma retry_note_run table disk id n tid :
  table !! id = Some n → Note.id n = id →
  Api.retry_note id tid (SessionLocal table disk)
  = if String.eqb (Note.status n) "completed" && truthy_text (Note.note n)
    then (Return (Api.ImportResponse Api.COMPLETED (pretty id)), Session table disk [])
    else
      let t1 := <[id := retry_reset disk n]> table in
      let t2 := <[id := Note.set_task_id (Some tid) (retry_reset disk n)]> table in
      (Return (Api.ImportResponse Api.PENDING tid),
       Session t2 disk [Committed t1; Delayed (retry_message disk n); Committed t2]).
Proof.
  intros Hn Hid. unfold Api.retry_note. unfold_monad. rewrite Hn, Hid.
  destruct (String.eqb _ _ && truthy_text (Note.note n)); [reflexivity|].
  unfold retry_reset, retry_message, retry_audio_exists.
  destruct (truthy_text (Note.audio_path n)); unfold_monad;
    [destruct (bool_decide _)|]; cbn [andb];
    [destruct (Api.is_some (Note.transcription n))| |]; cbn [andb];
    rewrite ?alter_alter_eq, !(alter_row _ _ _ _ Hn); cbn [compose]; try rewrite Hid;
    reflexivity.
Qed.

(** A run of [download_audio] whose download fails. *)
Lemma download_audio_fails w retries link table disk id n err :
  table !! id = Some n → Note.id n = id → ydl_download w = Some err →
  download_audio w retries link id (SessionLocal table disk)
  = let t1 := <[id := Note.set_status "processing" n]> table in
    let t2 := <[id := failed_row "Download" retries err (Note.set_status "processing" n)]> table in
    (Raise (Exception err),
     if (2 <=? retries)%nat then Session t2 disk [Committed t1; Committed t2]
     else Session t1 disk [Committed t1]).
Proof.
  intros Hn Hid Herr. unfold download_audio, mark_failed_and_reraise. unfold_monad.
  rewrite Hn, Hid, Herr. rewrite (alter_row _ _ _ _ Hn).
  destruct (2 <=? retries)%nat; [|reflexivity].
  unfold_monad. rewrite lookup_insert_eq. cbn [Note.id Note.set_status rows files trail app].
  rewrite Hid, alter_alter_eq, alter_insert_eq. reflexivity.
Qed.

Lemma translate_audio_fails w retries d table disk id n p err :
  table !! id = Some n → Note.id n = id →
  get d "note_id" = PInt id → get d "audio_path" = PStr p → p ≠ "" → p ∈ disk →
  transcriptions_create w = inl err →
  translate_audio_to_text w retries d (SessionLocal table disk)
  = let t2 := <[id := failed_row "Transcription" retries err n]> table in
    (Raise (Exception err),
     if (2 <=? retries)%nat then Session t2 disk [Committed t2]
     else Session table disk []).
Proof.
  intros Hn Hid Hd Hp Hne Hin Herr.
  unfold translate_audio_to_text, mark_failed_and_reraise, audio_file_exists.
  rewrite Hd, Hp. unfold_monad. rewrite Hn.
  assert (truthy (PStr p) = true) as ->.
  { simpl. apply negb_true_iff, String.eqb_neq, Hne. }
  cbn [negb]. unfold_monad. rewrite (bool_decide_eq_true_2 _ Hin). cbn [negb].
  rewrite Herr. destruct (2 <=? retries)%nat; [|reflexivity].
  unfold_monad. rewrite Hn, Hid, alter_alter_eq, (alter_row _ _ _ _ Hn). reflexivity.
Qed.

Lemma generate_study_notes_fails w retries d table disk id n t cause :
  table !! id = Some n → Note.id n = id →
  get d "note_id" = PInt id → get d "transcription" = PStr t → t ≠ "" →
  provider_error (generate_study_notes_call d) w = Some cause →
  generate_study_notes w retries d (SessionLocal table disk)
  = let t2 := <[id := failed_row "Study notes generation" retries cause n]> table in
    (Raise (Exception cause),
     if (2 <=? retries)%nat then Session t2 disk [Committed t2]
     else Session table disk []).
Proof.
  intros Hn Hid Hd Ht Hne Herr.
  unfold generate_study_notes, mark_failed_and_reraise.
  rewrite Hd, Ht. unfold_monad. rewrite Hn.
  assert (truthy (PStr t) = true) as ->.
  { simpl. apply negb_true_iff, String.eqb_neq, Hne. }
  cbn [negb]. unfold_monad.
  unfold provider_error in Herr.
  assert (Hgen : ∀ s, generate_text w s = (Raise (Exception cause), s)).
  { intros s. revert Herr. unfold generate_text. unfold_monad.
    destruct (generate_content w) as [err|r].
    - intros [= <-]. reflexivity.
    - destruct (negb _); [discriminate|].
      destruct (block_reason r); intros [= <-]; reflexivity. }
  rewrite Hgen. destruct (2 <=? retries)%nat; [|reflexivity].
  unfold_monad. rewrite Hn, Hid, alter_alter_eq, (alter_row _ _ _ _ Hn). reflexivity.
Qed.

(** One failed attempt of any of the three tasks: the exception goes to
    Celery, and the row is marked failed on the third attempt only. *)
Lemma failed_attempt w c retries chain table disk id n cause :
  table !! id = Some n → Note.id n = id →
  reaches_provider c id disk → provider_error c w = Some cause →
  ∃ s n',
    run_call w (Message c retries chain) (SessionLocal table disk)
    = (Raise (Exception cause), s)
    ∧ files s = disk
    ∧ persisted table (trail s) !! id = Some n' ∧ Note.id n' = id
    ∧ if (2 <=? retries)%nat
      then Note.status n' = "failed"
           ∧ Note.error n' = Some (stage_name c +:+ " failed after "
                                   +:+ pretty (Z.of_nat retries + 1)
                                   +:+ " attempts: " +:+ cause)
      else Note.error n' = Note.error n
           ∧ (Note.status n' = Note.status n ∨ Note.status n' = "processing").
Proof.
  intros Hn Hid Hready Herr. unfold run_call. cbn [msg_call msg_retries].
  destruct c as [link nid|d|d]; cbn [reaches_provider provider_error stage_name] in *.
  - subst nid. rewrite (download_audio_fails _ _ _ _ _ _ _ _ Hn Hid Herr). cbv zeta.
    destruct (2 <=? retries)%nat; eexists _, _; (split; [reflexivity|]);
      cbn [files trail persisted foldl]; rewrite lookup_insert_eq;
      repeat split; auto.
  - destruct Hready as (Hd & p & Hp & Hne & Hin).
    destruct (transcriptions_create w) as [err|] eqn:E; [|discriminate].
    injection Herr as ->.
    rewrite (translate_audio_fails _ _ _ _ _ _ _ _ _ Hn Hid Hd Hp Hne Hin E). cbv zeta.
    destruct (2 <=? retries)%nat; eexists _, _; (split; [reflexivity|]);
      cbn [files trail persisted foldl]; rewrite ?lookup_insert_eq;
      repeat split; eauto.
  - destruct Hready as (Hd & t & Ht & Hne).
    rewrite (generate_study_notes_fails _ _ _ _ _ _ _ _ _ Hn Hid Hd Ht Hne Herr). cbv zeta.
    destruct (2 <=? retries)%nat; eexists _, _; (split; [reflexivity|]);
      cbn [files trail persisted foldl]; rewrite ?lookup_insert_eq;
      repeat split; eauto.
Qed.

(** C2. A task about an existing row whose provider fails on every
    attempt is run exactly three times (the first run and two retries,
    whatever budget of runs is left to Celery beyond that); the first two
    runs leave the error of the row as it was and its status as it was or
    at processing; the third run leaves the row failed, with an error
    that names the stage, the count 3 and the cause of the last failure. *)
Theorem retry_exhaustion (worlds : nat → world) (c : call) (chain : list linked)
    (cause : nat → string) (table : gmap Z Note.t) (disk : gset string)
    (id : Z) (n : Note.t) (budget : nat) :
  table !! id = Some n → Note.id n = id →
  reaches_provider c id disk →
  (∀ k, provider_error c (worlds k) = Some (cause k)) →
  (2 ≤ budget)%nat →
  ∃ s1 s2 s3 n1 n2 n3,
    let rs := [(Raise (Exception (cause 0%nat)), s1);
               (Raise (Exception (cause 1%nat)), s2);
               (Raise (Exception (cause 2%nat)), s3)] in
    Retry.attempts budget worlds (Message c 0 chain) table disk = rs
    ∧ table_after table (take 1 rs) !! id = Some n1
    ∧ table_after table (take 2 rs) !! id = Some n2
    ∧ table_after table rs !! id = Some n3
    ∧ Note.error n1 = Note.error n
    ∧ (Note.status n1 = Note.status n ∨ Note.status n1 = "processing")
    ∧ Note.error n2 = Note.error n
    ∧ (Note.status n2 = Note.status n ∨ Note.status n2 = "processing")
    ∧ Note.status n3 = "failed"
    ∧ Note.error n3
      = Some (stage_name c +:+ " failed after 3 attempts: " +:+ cause 2%nat).
Proof.
  intros Hn Hid Hready Hfail Hbudget.
  destruct (failed_attempt (worlds 0%nat) c 0 chain table disk id n (cause 0%nat)
              Hn Hid Hready (Hfail _)) as (s1 & n1 & R1 & F1 & L1 & I1 & E1 & S1).
  destruct (failed_attempt (worlds 1%nat) c 1 chain _ disk id n1 (cause 1%nat)
              L1 I1 Hready (Hfail _)) as (s2 & n2 & R2 & F2 & L2 & I2 & E2 & S2).
  destruct (failed_attempt (worlds 2%nat) c 2 chain _ disk id n2 (cause 2%nat)
              L2 I2 Hready (Hfail _)) as (s3 & n3 & R3 & F3 & L3 & I3 & S3 & E3).
  exists s1, s2, s3, n1, n2, n3. cbv zeta.
  split; [|repeat split; auto].
  - destruct budget as [|[|budget]]; [lia..|].
    cbn [Retry.attempts msg_retries]. rewrite R1.
    cbn [fst snd follow_up msg_retries msg_call msg_chain max_retries Nat.ltb Nat.leb].
    rewrite F1, R2.
    cbn [fst snd follow_up msg_retries msg_call msg_chain max_retries Nat.ltb Nat.leb].
    rewrite F2. destruct budget; cbn [Retry.attempts msg_retries]; rewrite R3; reflexivity.
  - rewrite E2, E1. reflexivity.
  - destruct S2 as [->| ->]; auto.
Qed.

Lemma retry_exhaustion_witness :
  ∃ s1 s2 s3 n1 n2 n3,
    let table : gmap Z Note.t :=
      {[ 1 := Note.Make 1 "https://v/1" None "pending" None None None None None 0 ]} in
    let c := download_audio_call "https://v/1" 1 in
    let rs := [(Raise (Exception "timeout"), s1);
               (Raise (Exception "timeout"), s2);
               (Raise (Exception "timeout"), s3)] in
    Retry.attempts 3 (λ _, World "u" (Some "timeout") (inl "") (inl ""))
      (Message c 0 []) table ∅ = rs
    ∧ table_after table (take 1 rs) !! 1 = Some n1
    ∧ table_after table (take 2 rs) !! 1 = Some n2
    ∧ table_after table rs !! 1 = Some n3
    ∧ Note.error n1 = None
    ∧ (Note.status n1 = "pending" ∨ Note.status n1 = "processing")
    ∧ Note.error n2 = None
    ∧ (Note.status n2 = "pending" ∨ Note.status n2 = "processing")
    ∧ Note.status n3 = "failed"
    ∧ Note.error n3 = Some ("Download" +:+ " failed after 3 attempts: " +:+ "timeout").
Proof.
  apply (retry_exhaustion (λ _, World "u" (Some "timeout") (inl "") (inl ""))
           (download_audio_call "https://v/1" 1) [] (λ _, "timeout")
           {[ 1 := Note.Make 1 "https://v/1" None "pending" None None None None None 0 ]}
           ∅ 1 (Note.Make 1 "https://v/1" None "pending" None None None None None 0) 3).
  - reflexivity.
  - reflexivity.
  - reflexivity.
  - intros k. reflexivity.
  - lia.
Defined.

(** ** The precondition of Transcribe *)

Lemma translate_missing_audio w retries d table disk id n :
  table !! id = Some n → Note.id n = id → get d "note_id" = PInt id →
  (truthy (get d "audio_path") = false
   ∨ ∃ p, get d "audio_path" = PStr p ∧ p ∉ disk) →
  translate_audio_to_text w retries d (SessionLocal table disk)
  = let t1 := <[id := Note.set_status "failed" n]> table in
    (Return (list_to_map [("note_id", PInt id); ("audio_id", get d "audio_id");
                          ("transcription", PNone);
                          ("error", get_or d "error" (PStr "Audio file not found"))]),
     Session t1 disk [Committed t1]).
Proof.
  intros Hn Hid Hd Hmiss.
  unfold translate_audio_to_text, audio_file_exists. rewrite Hd. unfold_monad. rewrite Hn.
  destruct Hmiss as [Hf|(p & Hp & Hnot)].
  - rewrite Hf. cbn [negb]. rewrite Hid, (alter_row _ _ _ _ Hn). reflexivity.
  - rewrite Hp. destruct (truthy (PStr p)); cbn [negb files];
      rewrite ?(bool_decide_eq_false_2 _ Hnot); cbn [negb];
      rewrite Hid, (alter_row _ _ _ _ Hn); reflexivity.
Qed.

(** C6. When Transcribe is run for an existing row and the audio path
    of its input is missing or empty, or names a file that is not on
    disk, the task returns (no exception reaches the retry mechanism, at
    any retry count): its result has a null transcription and the error
    text of its input, or "Audio file not found" when the input has
    none; the only commit leaves the row with the status failed. *)
Theorem transcribe_missing_audio_is_final (w : world) (retries : nat)
    (d : gmap string pyval) (table : gmap Z Note.t) (disk : gset string)
    (id : Z) (n : Note.t) :
  table !! id = Some n → Note.id n = id → get d "note_id" = PInt id →
  (truthy (get d "audio_path") = false
   ∨ ∃ p, get d "audio_path" = PStr p ∧ p ∉ disk) →
  (∀ v, d !! "error" = Some v → ∃ text, v = PStr text) →
  ∃ result s n' message,
    translate_audio_to_text w retries d (SessionLocal table disk) = (Return result, s)
    ∧ get result "transcription" = PNone
    ∧ get result "error" = PStr message
    ∧ (d !! "error" = None → message = "Audio file not found")
    ∧ commits (trail s) = [persisted table (trail s)]
    ∧ persisted table (trail s) !! id = Some n'
    ∧ Note.status n' = "failed".
Proof.
  intros Hn Hid Hd Hmiss Herr.
  rewrite (translate_missing_audio _ _ _ _ _ _ _ Hn Hid Hd Hmiss). cbv zeta.
  assert (∃ message, get_or d "error" (PStr "Audio file not found") = PStr message
                     ∧ (d !! "error" = None → message = "Audio file not found"))
    as (message & Hmsg & Hdefault).
  { unfold get_or. destruct (d !! "error") as [v|] eqn:E.
    - destruct (Herr v eq_refl) as [text ->]. exists text. split; [reflexivity|discriminate].
    - exists "Audio file not found". auto. }
  eexists _, _, _, message. split; [reflexivity|].
  cbn [trail commits omap list_omap persisted foldl]. rewrite lookup_insert_eq.
  repeat split; auto.
Qed.

Lemma transcribe_missing_audio_is_final_witness :
  ∃ result s n' message,
    translate_audio_to_text (World "u" None (inl "") (inl "")) 0
      (list_to_map [("note_id", PInt 1); ("audio_id", PStr "a");
                    ("audio_path", PStr "media/a.mp3")])
      (SessionLocal {[ 1 := Note.Make 1 "l" None "processing" (Some "a")
                                      (Some "media/a.mp3") None None None 0 ]} ∅)
    = (Return result, s)
    ∧ get result "transcription" = PNone
    ∧ get result "error" = PStr message
    ∧ ((list_to_map [("note_id", PInt 1); ("audio_id", PStr "a");
                     ("audio_path", PStr "media/a.mp3")] : gmap string pyval)
         !! "error" = None → message = "Audio file not found")
    ∧ commits (trail s)
      = [persisted {[ 1 := Note.Make 1 "l" None "processing" (Some "a")
                                     (Some "media/a.mp3") None None None 0 ]} (trail s)]
    ∧ persisted {[ 1 := Note.Make 1 "l" None "processing" (Some "a")
                                  (Some "media/a.mp3") None None None 0 ]} (trail s)
        !! 1 = Some n'
    ∧ Note.status n' = "failed".
Proof.
  apply (transcribe_missing_audio_is_final (World "u" None (inl "") (inl "")) 0
           (list_to_map [("note_id", PInt 1); ("audio_id", PStr "a");
                         ("audio_path", PStr "media/a.mp3")])
           {[ 1 := Note.Make 1 "l" None "processing" (Some "a")
                            (Some "media/a.mp3") None None None 0 ]}
           ∅ 1 (Note.Make 1 "l" None "processing" (Some "a")
                          (Some "media/a.mp3") None None None 0)).
  - reflexivity.
  - reflexivity.
  - reflexivity.
  - right. exists "media/a.mp3". split; [reflexivity|]. apply not_elem_of_empty.
  - intros v H. vm_compute in H. discriminate H.
Defined.

(** ** The resume planner *)

(** C1, as the specification words it, fails on a failed job whose
    transcript is stored and whose audio file is gone from the disk: the
    table of the claim enters Synthesize, the retry handler enters
    Acquire. *)
Lemma resume_planner_counterexample :
  plan_of (Api.retry_note 1 "t2"
             (SessionLocal {[ 1 := Note.Make 1 "https://v/1" (Some "t1") "failed"
                                     (Some "u1") (Some "media/u1.mp3")
                                     (Some "Study notes generation failed after 3 attempts: gemini down")
                                     (Some "[0.00s -> 1.50s]  hi") None 10 ]} ∅))
  = Some (Enter Acquire)
  ∧ planner_as_specified false
      (Note.Make 1 "https://v/1" (Some "t1") "failed" (Some "u1") (Some "media/u1.mp3")
                 (Some "Study notes generation failed after 3 attempts: gemini down")
                 (Some "[0.00s -> 1.50s]  hi") None 10)
    = Enter Synthesize.
Proof. split; vm_compute; reflexivity. Qed.

(** C1, amended. The stage entered by the retry handler on an existing
    row is: none, with the answer Completed, when the status is completed
    and the notes are not empty; otherwise Synthesize when the audio path
    is not empty, its file is on disk and the transcript is not null;
    otherwise Transcribe when the audio path is not empty and its file is
    on disk; otherwise Acquire. In particular a row that is not completed,
    with its audio file on disk and a null transcript, enters Transcribe. *)
Theorem resume_planner (table : gmap Z Note.t) (disk : gset string) (id : Z)
    (n : Note.t) (tid : string) :
  table !! id = Some n → Note.id n = id →
  plan_of (Api.retry_note id tid (SessionLocal table disk))
  = Some (planner_of_retry disk n)
  ∧ (∀ p, Note.status n ≠ "completed" → Note.audio_path n = Some p → p ≠ "" →
          p ∈ disk → Note.transcription n = None →
          planner_of_retry disk n = Enter Transcribe).
Proof.
  intros Hn Hid. split.
  - rewrite (retry_note_run _ _ _ _ _ Hn Hid). unfold planner_of_retry, plan_of.
    destruct (String.eqb _ _ && truthy_text (Note.note n)); [reflexivity|].
    cbv zeta. cbn [fst snd trail delayed omap list_omap]. unfold retry_message.
    destruct (retry_audio_exists disk n); [destruct (Api.is_some _)|]; reflexivity.
  - intros p Hst Hp Hne Hin Ht. unfold planner_of_retry, retry_audio_exists.
    rewrite Hp, Ht. cbn [truthy_text default Api.is_some].
    apply String.eqb_neq in Hst, Hne. rewrite Hst, Hne.
    rewrite (bool_decide_eq_true_2 _ Hin). reflexivity.
Qed.

Lemma resume_planner_witness :
  plan_of (Api.retry_note 1 "t2"
             (SessionLocal {[ 1 := Note.Make 1 "https://v/1" (Some "t1") "failed"
                                     (Some "u1") (Some "media/u1.mp3") (Some "boom")
                                     None None 10 ]} {[ "media/u1.mp3" ]}))
  = Some (planner_of_retry {[ "media/u1.mp3" ]}
            (Note.Make 1 "https://v/1" (Some "t1") "failed" (Some "u1")
                       (Some "media/u1.mp3") (Some "boom") None None 10)).
Proof.
  apply (resume_planner
           {[ 1 := Note.Make 1 "https://v/1" (Some "t1") "failed" (Some "u1")
                            (Some "media/u1.mp3") (Some "boom") None None 10 ]}
           {[ "media/u1.mp3" ]} 1
           (Note.Make 1 "https://v/1" (Some "t1") "failed" (Some "u1")
                      (Some "media/u1.mp3") (Some "boom") None None 10) "t2");
    reflexivity.
Defined.

(** C9, as the specification words it, fails when the resume enters
    Acquire: the first commit leaves the row pending, not processing. *)
Lemma resume_status_counterexample :
  Note.status
  <$> (head (commits (trail (Api.retry_note 1 "t2"
         (SessionLocal {[ 1 := Note.Make 1 "https://v/1" (Some "t1") "failed" None None
                                 (Some "Download failed after 3 attempts: network down")
                                 None None 10 ]} ∅)).2))
       ≫= λ t, t !! 1)
  = Some "pending".
Proof. vm_compute. reflexivity. Qed.

(** C9, amended. A resume request on a failed row commits, before it
    sends any task, a row whose error is null and whose status is
    processing when it resumes at Synthesize or at Transcribe, and
    pending (with the audio path and the audio id cleared) when it
    resumes at Acquire; then it sends one task, and commits again only
    to record the id of the task. *)
Theorem resume_clears_error (table : gmap Z Note.t) (disk : gset string) (id : Z)
    (n : Note.t) (tid : string) :
  table !! id = Some n → Note.id n = id → Note.status n = "failed" →
  ∃ t1 m t2 n1,
    trail (Api.retry_note id tid (SessionLocal table disk)).2
    = [Committed t1; Delayed m; Committed t2]
    ∧ t1 = <[id := n1]> table
    ∧ t2 = <[id := Note.set_task_id (Some tid) n1]> table
    ∧ Note.error n1 = None
    ∧ match stage_of (msg_call m) with
      | Acquire =>
        Note.status n1 = "pending" ∧ Note.audio_path n1 = None
        ∧ Note.audio_id n1 = None
      | _ => Note.status n1 = "processing"
      end.
Proof.
  intros Hn Hid Hst. rewrite (retry_note_run _ _ _ _ _ Hn Hid), Hst.
  cbn [String.eqb Ascii.eqb Bool.eqb andb]. cbv zeta. cbn [snd trail].
  eexists _, _, _, _. split; [reflexivity|]. split; [reflexivity|]. split; [reflexivity|].
  unfold retry_reset, retry_message.
  destruct (retry_audio_exists disk n); [destruct (Api.is_some _)|]; cbn; auto.
Qed.

Lemma resume_clears_error_witness :
  ∃ t1 m t2 n1,
    let table : gmap Z Note.t :=
      {[ 1 := Note.Make 1 "https://v/1" (Some "t1") "failed" (Some "u1")
                        (Some "media/u1.mp3") (Some "boom") None None 10 ]} in
    trail (Api.retry_note 1 "t2" (SessionLocal table {[ "media/u1.mp3" ]})).2
    = [Committed t1; Delayed m; Committed t2]
    ∧ t1 = <[1 := n1]> table
    ∧ t2 = <[1 := Note.set_task_id (Some "t2") n1]> table
    ∧ Note.error n1 = None
    ∧ match stage_of (msg_call m) with
      | Acquire =>
        Note.status n1 = "pending" ∧ Note.audio_path n1 = None
        ∧ Note.audio_id n1 = None
      | _ => Note.status n1 = "processing"
      end.
Proof.
  apply (resume_clears_error
           {[ 1 := Note.Make 1 "https://v/1" (Some "t1") "failed" (Some "u1")
                            (Some "media/u1.mp3") (Some "boom") None None 10 ]}
           {[ "media/u1.mp3" ]} 1
           (Note.Make 1 "https://v/1" (Some "t1") "failed" (Some "u1")
                      (Some "media/u1.mp3") (Some "boom") None None 10) "t2");
    reflexivity.
Defined.

(** ** Invariants of the tables *)

Lemma grows_refl table : grows table table.
Proof. intros k n H. eauto. Qed.

Lemma grows_trans t1 t2 t3 : grows t1 t2 → grows t2 t3 → grows t1 t3.
Proof.
  intros H12 H23 k n H. destruct (H12 k n H) as (n2 & H2 & T2).
  destruct (H23 k n2 H2) as (n3 & H3 & T3). eauto.
Qed.

Lemma grows_insert table id n r :
  table !! id = Some n →
  (is_Some (Note.transcription n) → is_Some (Note.transcription r)) →
  grows table (<[id := r]> table).
Proof.
  intros Hn Ht k m Hm. destruct (decide (id = k)) as [->|Hne].
  - rewrite lookup_insert_eq. rewrite Hn in Hm. injection Hm as <-. eauto.
  - rewrite lookup_insert_ne by done. eauto.
Qed.

Lemma grows_insert_new table id r :
  table !! id = None → grows table (<[id := r]> table).
Proof.
  intros Hn k m Hm. destruct (decide (id = k)) as [->|Hne]; [congruence|].
  rewrite lookup_insert_ne by done. eauto.
Qed.

Lemma table_ok_insert strict table id r :
  table_ok strict table →
  Note.id r = id → completed_ok r → (strict = true → failed_ok r) →
  table_ok strict (<[id := r]> table).
Proof.
  intros Hok Hid Hc Hf k m Hm. destruct (decide (id = k)) as [->|Hne].
  - rewrite lookup_insert_eq in Hm. injection Hm as <-. auto.
  - rewrite lookup_insert_ne in Hm by done. eauto.
Qed.

Lemma dict_ok_grows table table' d : grows table table' → dict_ok table d → dict_ok table' d.
Proof.
  intros Hg [He Ht]. split; [exact He|]. intros Htr.
  destruct (Ht Htr) as (id & n & Hid & Hn & Hs).
  destruct (Hg id n Hn) as (n' & Hn' & Hs'). exists id, n'. auto.
Qed.

Lemma call_ok_grows table table' c : grows table table' → call_ok table c → call_ok table' c.
Proof. intros Hg. destruct c; simpl; eauto using dict_ok_grows. Qed.

(** A row update that keeps the id, by cases on what it does to the
    status. *)
Ltac row_facts :=
  unfold completed_ok, failed_ok, failed_row, retry_reset;
  cbn [Note.id Note.status Note.error Note.note Note.transcription
       Note.set_status Note.set_error Note.set_note Note.set_transcription
       Note.set_audio_id Note.set_audio_path Note.set_task_id];
  repeat split; try discriminate; eauto.

Ltac each_commit :=
  repeat first [apply Forall_nil_2 | apply Forall_cons_2; [split|]].

Ltac dict_lookup :=
  unfold get, get_or; cbn [list_to_map foldr uncurry fst snd];
  repeat first [rewrite lookup_insert_eq | rewrite lookup_insert_ne by done
               | rewrite lookup_empty]; cbn [default].

(** Every run of [download_audio] keeps the invariant of the table and
    returns a dictionary without transcription. *)
Lemma download_audio_keeps strict w retries link id table disk :
  table_ok strict table →
  let r := download_audio w retries link id (SessionLocal table disk) in
  delayed (trail r.2) = []
  ∧ Forall (λ t, table_ok strict t ∧ grows table t) (commits (trail r.2))
  ∧ (∀ d, r.1 = Return d → dict_ok (persisted table (trail r.2)) d).
Proof.
  intros Hok. unfold download_audio, mark_failed_and_reraise. unfold_monad.
  destruct (table !! id) as [n|] eqn:Hn.
  - destruct (Hok _ _ Hn) as (Hid & Hc & Hf). rewrite Hid.
    rewrite (alter_row _ _ _ _ Hn).
    assert (H1 : table_ok strict (<[id:=Note.set_status "processing" n]> table)
                 ∧ grows table (<[id:=Note.set_status "processing" n]> table)).
    { split; [apply table_ok_insert|eapply grows_insert]; eauto; row_facts. }
    destruct (ydl_download w) as [err|].
    + destruct (2 <=? retries)%nat; unfold_monad.
      * rewrite lookup_insert_eq. cbn [Note.id Note.set_status rows files trail app].
        rewrite Hid, alter_alter_eq, alter_insert_eq.
        cbn [fst snd trail delayed commits omap list_omap].
        split; [reflexivity|]. split; [|discriminate].
        each_commit; try apply H1.
        -- apply table_ok_insert; auto; row_facts.
        -- eapply grows_insert; eauto.
      * cbn [fst snd trail delayed commits omap list_omap].
        split; [reflexivity|]. split; [|discriminate]. each_commit; apply H1.
    + unfold_monad. rewrite !alter_alter_eq, alter_insert_eq.
      cbn [fst snd trail delayed commits omap list_omap compose].
      split; [reflexivity|]. split.
      * each_commit; try apply H1.
        -- apply table_ok_insert; auto; row_facts.
        -- eapply grows_insert; eauto.
      * intros d [= <-]. split; [dict_lookup; discriminate|].
        dict_lookup. discriminate.
  - cbn [fst snd trail delayed commits omap list_omap].
    split; [reflexivity|]. split; [constructor|].
    intros d [= <-]. split; dict_lookup; discriminate.
Qed.

Lemma rewritten_not_empty text url :
  text ≠ "" → add_youtube_timestamps text url ≠ "".
Proof.
  intros Hne. rewrite re_sub_unfold.
  destruct (re_match _ text) as [[g rest]|].
  - unfold replace_timestamp. destruct (truthy_text _); discriminate.
  - destruct (next_char text) as [[ch rest]|] eqn:N.
    + apply next_char_split in N as [_ Hch]. destruct ch; [congruence|discriminate].
    + apply next_char_None in N. congruence.
Qed.

Lemma postprocess_truthy text link :
  negb (String.eqb text "") = true →
  truthy_text (Some (Rewrite.postprocess text link)) = true.
Proof.
  intros H. apply negb_true_iff, String.eqb_neq in H.
  unfold Rewrite.postprocess, truthy_text. apply negb_true_iff, String.eqb_neq.
  destruct (truthy link); [apply rewritten_not_empty|]; exact H.
Qed.

Lemma error_text_is_some (d : gmap string pyval) dflt :
  d !! "error" ≠ Some PNone → is_Some (to_text (get_or d "error" (PStr dflt))).
Proof.
  intros H. unfold get_or. destruct (d !! "error") as [[| |]|]; simpl; eauto.
  congruence.
Qed.

Ltac no_events :=
  cbn [fst snd trail delayed commits omap list_omap persisted foldl];
  split; [reflexivity|]; split; [apply Forall_nil_2|].

(** The [except] block of the tasks, run on a session that holds the row. *)
Lemma mark_failed_run {A} what retries id e t disk tr n :
  t !! id = Some n → Note.id n = id →
  @mark_failed_and_reraise A what retries (PInt id) e (Session t disk tr)
  = let t2 := <[id := failed_row what retries (str_exn e) n]> t in
    (Raise e, if (2 <=? retries)%nat then Session t2 disk (tr ++ [Committed t2])
              else Session t disk tr).
Proof.
  intros Hn Hid. unfold mark_failed_and_reraise. unfold_monad.
  destruct (2 <=? retries)%nat; [|reflexivity].
  cbn [rows files trail]. rewrite Hn, Hid, alter_alter_eq, (alter_row _ _ _ _ Hn).
  reflexivity.
Qed.

Lemma failed_row_keeps strict what retries msg table id n :
  table_ok strict table → table !! id = Some n →
  table_ok strict (<[id := failed_row what retries msg n]> table)
  ∧ grows table (<[id := failed_row what retries msg n]> table).
Proof.
  intros Hok Hn. destruct (Hok _ _ Hn) as (Hid & Hc & Hf).
  split; [apply table_ok_insert|eapply grows_insert]; eauto; row_facts.
Qed.

Lemma raised_keeps strict what retries (e : exn) table disk id n :
  table_ok strict table → table !! id = Some n →
  let r : outcome (gmap string pyval) * session :=
    (Raise e,
     if (2 <=? retries)%nat
     then Session (<[id := failed_row what retries (str_exn e) n]> table) disk
                  ([] ++ [Committed (<[id := failed_row what retries (str_exn e) n]> table)])
     else Session table disk []) in
  delayed (trail r.2) = []
  ∧ Forall (λ t, table_ok strict t ∧ grows table t) (commits (trail r.2))
  ∧ (∀ d', r.1 = Return d' → dict_ok (persisted table (trail r.2)) d').
Proof.
  intros Hok Hn. cbv zeta. destruct (2 <=? retries)%nat.
  - cbn [fst snd trail delayed commits omap list_omap app].
    split; [reflexivity|]. split; [|discriminate].
    each_commit; eapply failed_row_keeps; eauto.
  - no_events. discriminate.
Qed.

(** Every run of [translate_audio_to_text] keeps the invariant of the
    table; in a strict table, as long as it does not find its row without
    its audio file. *)
Lemma translate_audio_to_text_keeps strict w retries d table disk :
  table_ok strict table → dict_ok table d →
  (strict = true → ∀ id, get d "note_id" = PInt id → is_Some (table !! id) →
                   audio_state_of d disk ≠ AudioMissing) →
  let r := translate_audio_to_text w retries d (SessionLocal table disk) in
  delayed (trail r.2) = []
  ∧ Forall (λ t, table_ok strict t ∧ grows table t) (commits (trail r.2))
  ∧ (∀ d', r.1 = Return d' → dict_ok (persisted table (trail r.2)) d').
Proof.
  intros Hok [Herr Htr] Hslip.
  unfold translate_audio_to_text, mark_failed_and_reraise, audio_file_exists.
  destruct (get d "note_id") as [|s|id] eqn:Hd; unfold_monad;
    try (no_events; intros d' [= <-]; split; dict_lookup; discriminate).
  destruct (table !! id) as [n|] eqn:Hn;
    [|no_events; intros d' [= <-]; split; dict_lookup; discriminate].
  destruct (Hok _ _ Hn) as (Hid & Hc & Hf). rewrite Hid.
  assert (Hfail : ∀ msg, table_ok strict (<[id := failed_row "Transcription" retries msg n]> table)
                         ∧ grows table (<[id := failed_row "Transcription" retries msg n]> table)).
  { intros msg. split; [apply table_ok_insert|eapply grows_insert]; eauto; row_facts. }
  pose proof (λ Hs, Hslip Hs id eq_refl (ex_intro _ n Hn)) as Hstate.
  unfold audio_state_of in Hstate.
  destruct (truthy (get d "audio_path")) eqn:Htruthy; cbn [negb] in *.
  - destruct (get d "audio_path") as [|p|z] eqn:Hp; unfold_monad.
    + discriminate Htruthy.
    + destruct (bool_decide (p ∈ disk)) eqn:Hin; cbn [negb].
      * destruct (transcriptions_create w) as [err|t].
        -- destruct (2 <=? retries)%nat; unfold_monad.
           ++ rewrite Hn, Hid, alter_alter_eq, (alter_row _ _ _ _ Hn).
              cbn [fst snd trail delayed commits omap list_omap].
              split; [reflexivity|]. split; [|discriminate]. each_commit; apply Hfail.
           ++ no_events. discriminate.
        -- unfold_monad. rewrite alter_alter_eq, (alter_row _ _ _ _ Hn).
           cbn [fst snd trail delayed commits omap list_omap persisted foldl compose].
           split; [reflexivity|]. split.
           ++ each_commit; [apply table_ok_insert|eapply grows_insert]; eauto; row_facts.
           ++ intros d' [= <-]. split; [dict_lookup; discriminate|].
              intros _. exists id, (Note.set_status "processing"
                          (Note.set_transcription (Some (Transcript.serialize t)) n)).
              split; [dict_lookup; reflexivity|]. rewrite lookup_insert_eq. row_facts.
      * (* the file is not on disk *)
        rewrite (alter_row _ _ _ _ Hn).
        cbn [fst snd trail delayed commits omap list_omap persisted foldl].
        split; [reflexivity|]. split.
        -- each_commit; [apply table_ok_insert|eapply grows_insert]; eauto; row_facts.
           intros Hs. destruct (Hstate Hs). reflexivity.
        -- intros d' [= <-]. split; dict_lookup; [|discriminate].
           unfold get_or. destruct (d !! "error"); simpl; congruence.
    + destruct (2 <=? retries)%nat; unfold_monad.
      * rewrite Hn, Hid, alter_alter_eq, (alter_row _ _ _ _ Hn).
        cbn [fst snd trail delayed commits omap list_omap].
        split; [reflexivity|]. split; [|discriminate]. each_commit; apply Hfail.
      * no_events. discriminate.
  - (* no audio path *)
    rewrite (alter_row _ _ _ _ Hn).
    cbn [fst snd trail delayed commits omap list_omap persisted foldl].
    split; [reflexivity|]. split.
    + each_commit; [apply table_ok_insert|eapply grows_insert]; eauto; row_facts.
      intros Hs. destruct (Hstate Hs). reflexivity.
    + intros d' [= <-]. split; dict_lookup; [|discriminate].
      unfold get_or. destruct (d !! "error"); simpl; congruence.
Qed.

(** Every run of [generate_study_notes] keeps the invariant of the table. *)
Lemma generate_study_notes_keeps strict w retries d table disk :
  table_ok strict table → dict_ok table d →
  let r := generate_study_notes w retries d (SessionLocal table disk) in
  delayed (trail r.2) = []
  ∧ Forall (λ t, table_ok strict t ∧ grows table t) (commits (trail r.2))
  ∧ (∀ d', r.1 = Return d' → dict_ok (persisted table (trail r.2)) d').
Proof.
  intros Hok [Herr Htr]. unfold generate_study_notes.
  destruct (get d "note_id") as [|s|id] eqn:Hd; unfold_monad;
    try (no_events; intros d' [= <-]; split; dict_lookup; discriminate).
  destruct (table !! id) as [n|] eqn:Hn;
    [|no_events; intros d' [= <-]; split; dict_lookup; discriminate].
  destruct (Hok _ _ Hn) as (Hid & Hc & Hf). rewrite Hid.
  destruct (truthy (get d "transcription")) eqn:Htruthy; cbn [negb].
  - destruct (Htr eq_refl) as (id' & n' & [= <-] & Hn' & Hsome).
    rewrite Hn in Hn'. injection Hn' as <-.
    destruct (get d "transcription") as [|t|z] eqn:Ht; unfold_monad.
    + discriminate Htruthy.
    + unfold generate_text. unfold_monad.
      destruct (generate_content w) as [err|resp].
      { rewrite (mark_failed_run _ _ _ _ _ _ _ _ Hn Hid). apply raised_keeps; auto. }
      destruct (negb (String.eqb (response_text resp) "")) eqn:Htext.
      * unfold_monad. rewrite alter_alter_eq, (alter_row _ _ _ _ Hn).
        cbn [fst snd trail delayed commits omap list_omap persisted foldl compose].
        split; [reflexivity|]. split.
        -- each_commit; [apply table_ok_insert|eapply grows_insert]; eauto; row_facts.
           apply postprocess_truthy, Htext.
        -- intros d' [= <-]. split; dict_lookup; discriminate.
      * destruct (block_reason resp);
          rewrite (mark_failed_run _ _ _ _ _ _ _ _ Hn Hid); apply raised_keeps; auto.
    + no_events. discriminate.
  - rewrite alter_alter_eq, (alter_row _ _ _ _ Hn).
    cbn [fst snd trail delayed commits omap list_omap persisted foldl compose].
    split; [reflexivity|]. split.
    + each_commit; [apply table_ok_insert|eapply grows_insert]; eauto; row_facts.
      intros _ _. apply error_text_is_some, Herr.
    + intros d' [= <-]. split; dict_lookup; [|discriminate].
      unfold get_or. destruct (d !! "error"); simpl; congruence.
Qed.

(** ** The handlers *)

Lemma next_id_above (table : gmap Z Note.t) k :
  is_Some (table !! k) → k < next_id table.
Proof.
  unfold next_id. revert k.
  apply (map_fold_weak_ind
           (λ r (m : gmap Z Note.t), ∀ k, is_Some (m !! k) → k < r + 1)).
  - intros k [x Hx]. rewrite lookup_empty in Hx. discriminate.
  - intros i x m r Hi IH k Hk. destruct (decide (i = k)) as [->|Hne]; [lia|].
    rewrite lookup_insert_ne in Hk by done. specialize (IH k Hk). lia.
Qed.

Lemma next_id_fresh (table : gmap Z Note.t) : table !! next_id table = None.
Proof.
  destruct (table !! next_id table) eqn:E; [|reflexivity].
  pose proof (next_id_above table (next_id table) (ex_intro _ _ E)). lia.
Qed.

(** The rows of a table, as the queries scan them. *)
Lemma scanned_row (table : gmap Z Note.t) n :
  In n (map_to_list table).*2 ↔ ∃ k, table !! k = Some n.
Proof.
  rewrite <- list_elem_of_In, list_elem_of_fmap. split.
  - intros ([k x] & -> & H). apply elem_of_map_to_list in H. eauto.
  - intros [k H]. exists (k, n). split; [reflexivity|]. apply elem_of_map_to_list, H.
Qed.

Lemma foldl_newer l : ∀ acc,
  match foldl Api.newer acc l with
  | Some x =>
    (acc = Some x ∨ In x l)
    ∧ (∀ y, In y l → Note.created_at y ≤ Note.created_at x)
    ∧ (∀ a, acc = Some a → Note.created_at a ≤ Note.created_at x)
  | None => acc = None ∧ l = []
  end.
Proof.
  induction l as [|n l IH]; intros acc; simpl.
  - destruct acc as [a|]; [|auto]. split; [auto|]. split; [tauto|].
    intros ? [= <-]. lia.
  - specialize (IH (Api.newer acc n)).
    destruct (foldl Api.newer (Api.newer acc n) l) as [x|].
    + destruct IH as (Hin & Hmax & Hacc). unfold Api.newer in Hin, Hacc.
      destruct acc as [a|].
      * destruct (Note.created_at a <? Note.created_at n) eqn:E.
        -- apply Z.ltb_lt in E. pose proof (Hacc n eq_refl). split; [|split].
           ++ destruct Hin as [[= <-]|?]; auto.
           ++ intros y [<-|Hy]; auto.
           ++ intros ? [= <-]. lia.
        -- apply Z.ltb_ge in E. pose proof (Hacc a eq_refl). split; [|split].
           ++ destruct Hin as [[= <-]|?]; auto.
           ++ intros y [<-|Hy]; [lia|auto].
           ++ intros ? [= <-]. lia.
      * pose proof (Hacc n eq_refl). split; [|split].
        -- destruct Hin as [[= <-]|?]; auto.
        -- intros y [<-|Hy]; auto.
        -- discriminate.
    + destruct IH as [Hacc _]. unfold Api.newer in Hacc.
      destruct acc as [a|]; [destruct (_ <? _)|]; discriminate.
Qed.

(** The cache lookup returns a cached row with the largest [created_at]
    when there is a cached row, and nothing otherwise. *)
Lemma query_existing_run url table disk tr :
  ∃ found,
    Api.query_existing url (Session table disk tr) = (Return found, Session table disk tr)
    ∧ match found with
      | Some e =>
        (∃ k, table !! k = Some e) ∧ Api.cached url e = true
        ∧ (∀ k n, table !! k = Some n → Api.cached url n = true →
                  Note.created_at n ≤ Note.created_at e)
      | None => ∀ k n, table !! k = Some n → Api.cached url n = false
      end.
Proof.
  unfold Api.query_existing. cbn [rows]. eexists. split; [reflexivity|].
  pose proof (foldl_newer (List.filter (Api.cached url) (map_to_list table).*2) None) as H.
  destruct (foldl Api.newer None _) as [e|].
  - destruct H as ([[=]|Hin] & Hmax & _). apply filter_In in Hin as [Hin Hc].
    split; [apply scanned_row, Hin|]. split; [exact Hc|].
    intros k n Hn Hcn. apply Hmax, filter_In. split; [|exact Hcn].
    apply scanned_row. eauto.
  - destruct H as [_ Hnil]. intros k n Hn.
    destruct (Api.cached url n) eqn:Hc; [|reflexivity].
    assert (Hin : In n (List.filter (Api.cached url) (map_to_list table).*2)).
    { apply filter_In. split; [|exact Hc]. apply scanned_row. eauto. }
    rewrite Hnil in Hin. destruct Hin.
Qed.

(** The row cloned on a cache hit, and the intake on a hit. *)
Lemma create_notes_hit url now tid table disk e :
  Api.query_existing url (SessionLocal table disk) = (Return (Some e), SessionLocal table disk) →
  truthy_text (Note.note e) = true →
  let new_id := next_id table in
  let clone := Note.Make new_id url None "completed" (Note.audio_id e) (Note.audio_path e)
                         None (Note.transcription e) (Note.note e) now in
  let t1 := <[new_id := Note.Make new_id url None "pending" None None None None None now]> table in
  let t2 := <[new_id := clone]> table in
  Api.create_notes_from_youtube url now tid (SessionLocal table disk)
  = (Return (Api.ImportResponse Api.COMPLETED (pretty new_id)),
     Session t2 disk [Committed t1; Committed t2]).
Proof.
  intros Hq Htruthy. unfold Api.create_notes_from_youtube.
  unfold mbind, M_bind, bind at 1. rewrite Hq. unfold_monad. rewrite Htruthy.
  cbn [Note.id rows files trail app].
  rewrite !alter_alter_eq, alter_insert_eq. reflexivity.
Qed.

Lemma create_notes_miss url now tid table disk found :
  Api.query_existing url (SessionLocal table disk) = (Return found, SessionLocal table disk) →
  match found with Some e => truthy_text (Note.note e) = false | None => True end →
  let new_id := next_id table in
  let new := Note.Make new_id url None "pending" None None None None None now in
  let t1 := <[new_id := new]> table in
  let t2 := <[new_id := Note.set_task_id (Some tid) new]> table in
  Api.create_notes_from_youtube url now tid (SessionLocal table disk)
  = (Return (Api.ImportResponse Api.PENDING tid),
     Session t2 disk [Committed t1; Delayed (create_audio_transcription_chain url new_id);
                      Committed t2]).
Proof.
  intros Hq Hfalsy. unfold Api.create_notes_from_youtube.
  unfold mbind, M_bind, bind at 1. rewrite Hq. unfold_monad.
  destruct found as [e|]; [rewrite Hfalsy|]; unfold_monad; cbn [Note.id rows files trail app];
    rewrite alter_insert_eq; reflexivity.
Qed.

Lemma table_ok_weaken strict table : table_ok strict table → table_ok false table.
Proof.
  intros H k n Hn. destruct (H k n Hn) as (? & ? & _).
  split; [auto|]. split; [auto|]. intros [=].
Qed.

Lemma table_ok_relax strict each table :
  table_ok strict table → table_ok (strict && each) table.
Proof.
  intros H k n Hn. destruct (H k n Hn) as (? & ? & Hf).
  split; [auto|]. split; [auto|]. intros [Hs _]%andb_prop. auto.
Qed.

Lemma persisted_app table evs evs' :
  persisted table (evs ++ evs') = persisted (persisted table evs) evs'.
Proof. apply foldl_app. Qed.

Lemma persisted_commits (P : gmap Z Note.t → Prop) evs : ∀ table,
  P table → Forall P (commits evs) → P (persisted table evs).
Proof.
  induction evs as [|[t|m] evs IH]; intros table Ht Hall; simpl in *; auto.
  apply Forall_cons in Hall as [Hc Hall]. auto.
Qed.

Lemma commits_app evs evs' : commits (evs ++ evs') = commits evs ++ commits evs'.
Proof. apply omap_app. Qed.

Lemma delayed_app evs evs' : delayed (evs ++ evs') = delayed evs ++ delayed evs'.
Proof. apply omap_app. Qed.

Lemma transcription_data_ok (table : gmap Z Note.t) n n' :
  table !! Note.id n = Some n' →
  (is_Some (Note.transcription n) → is_Some (Note.transcription n')) →
  dict_ok table (Api.transcription_data_of n).
Proof.
  intros Hn Ht. unfold Api.transcription_data_of. split; [dict_lookup; discriminate|].
  dict_lookup. intros Htruthy. exists (Note.id n), n'. repeat split; auto.
  apply Ht. destruct (Note.transcription n); [eauto|discriminate].
Qed.

Lemma audio_data_ok (table : gmap Z Note.t) n : dict_ok table (Api.audio_data_of n).
Proof. unfold Api.audio_data_of. split; dict_lookup; discriminate. Qed.

Lemma keeps_nil strict each table : table_ok strict table → keeps strict each table [].
Proof.
  intros H. unfold keeps. cbn [commits delayed omap list_omap persisted foldl].
  split; [apply Forall_nil_2|]. split; [exact H|]. split; [apply grows_refl|].
  apply Forall_nil_2.
Qed.

(** The retry handler keeps the tables sound. *)
Lemma retry_note_keeps strict id tid table disk :
  table_ok strict table →
  keeps strict strict table (trail (Api.retry_note id tid (SessionLocal table disk)).2).
Proof.
  intros Hok. destruct (table !! id) as [n|] eqn:Hn.
  - destruct (Hok _ _ Hn) as (Hid & Hc & Hf).
    rewrite (retry_note_run _ _ _ _ _ Hn Hid).
    destruct (String.eqb _ _ && _).
    { apply keeps_nil, Hok. }
    cbv zeta. cbn [snd trail]. unfold keeps.
    cbn [commits delayed omap list_omap persisted foldl].
    assert (H1 : ∀ f, (∀ m, Note.id (f m) = Note.id m) →
                      (∀ m, Note.status (f m) = Note.status m) →
                      (∀ m, Note.transcription (f m) = Note.transcription m) →
                      table_ok strict (<[id := f (retry_reset disk n)]> table)
                      ∧ grows table (<[id := f (retry_reset disk n)]> table)).
    { intros f Fid Fst Ftr. split; [apply table_ok_insert|eapply grows_insert]; eauto.
      - rewrite Fid. unfold retry_reset. destruct (retry_audio_exists disk n); exact Hid.
      - unfold completed_ok. rewrite Fst. unfold retry_reset.
        destruct (retry_audio_exists disk n); cbn; discriminate.
      - intros _. unfold failed_ok. rewrite Fst. unfold retry_reset.
        destruct (retry_audio_exists disk n); cbn; discriminate.
      - rewrite Ftr. unfold retry_reset. destruct (retry_audio_exists disk n); cbn; auto. }
    pose proof (H1 (λ m, m) (λ _, eq_refl) (λ _, eq_refl) (λ _, eq_refl)) as Ha.
    pose proof (H1 (Note.set_task_id (Some tid)) (λ _, eq_refl) (λ _, eq_refl)
                   (λ _, eq_refl)) as Hb.
    cbv beta in Ha. split; [|split; [|split]].
    + each_commit; first [apply Ha | apply Hb].
    + apply Hb.
    + apply Hb.
    + apply Forall_cons_2; [|apply Forall_nil_2]. unfold retry_message.
      destruct (retry_audio_exists disk n && Api.is_some (Note.transcription n));
        [|destruct (retry_audio_exists disk n)]; cbn [msg_call call_ok].
      * eapply transcription_data_ok; [rewrite Hid; apply lookup_insert_eq|].
        unfold retry_reset. destruct (retry_audio_exists disk n); cbn; auto.
      * apply audio_data_ok.
      * exact I.
  - unfold Api.retry_note. unfold_monad. rewrite Hn. cbn [snd trail].
    apply keeps_nil, Hok.
Qed.

(** The intake keeps the tables sound. *)
Lemma create_notes_keeps strict url now tid table disk :
  table_ok strict table →
  keeps strict strict table
        (trail (Api.create_notes_from_youtube url now tid (SessionLocal table disk)).2).
Proof.
  intros Hok. destruct (query_existing_run url table disk []) as (found & Hq & Hfound).
  pose proof (next_id_fresh table) as Hfresh.
  assert (Hnew : ∀ f, (∀ m, Note.id (f m) = Note.id m) →
                      (∀ m, Note.status (f m) = Note.status m) →
            let new : Note.t := Note.Make (next_id table) url None "pending" None None None None None now in
            table_ok strict (<[next_id table := f new]> table)
            ∧ grows table (<[next_id table := f new]> table)).
  { intros f Fid Fst new. split; [apply table_ok_insert|apply grows_insert_new]; auto.
    - unfold completed_ok. rewrite Fst. discriminate.
    - intros _. unfold failed_ok. rewrite Fst. discriminate. }
  pose proof (Hnew (λ m, m) (λ _, eq_refl) (λ _, eq_refl)) as Ha. cbv beta zeta in Ha.
  destruct found as [e|]; [destruct (truthy_text (Note.note e)) eqn:Htruthy|].
  - rewrite (create_notes_hit _ _ _ _ _ _ Hq Htruthy). cbv zeta. cbn [snd trail].
    destruct Hfound as ([k Hk] & Hcached & _).
    destruct (Hok _ _ Hk) as (_ & Hc & _).
    unfold Api.cached in Hcached. apply andb_prop in Hcached as [[_ Hst]%andb_prop _].
    apply String.eqb_eq in Hst. destruct (Hc Hst) as [_ Htr].
    assert (Hb : table_ok strict (<[next_id table :=
                   Note.Make (next_id table) url None "completed" (Note.audio_id e)
                     (Note.audio_path e) None (Note.transcription e) (Note.note e) now]> table)
                 ∧ grows table (<[next_id table :=
                   Note.Make (next_id table) url None "completed" (Note.audio_id e)
                     (Note.audio_path e) None (Note.transcription e) (Note.note e) now]> table)).
    { split; [apply table_ok_insert|apply grows_insert_new]; auto; row_facts. }
    unfold keeps. cbn [commits delayed omap list_omap persisted foldl].
    split; [|split; [|split]]; [each_commit| | |apply Forall_nil_2];
      first [apply Ha | apply Hb].
  - rewrite (create_notes_miss _ _ _ _ _ _ Hq Htruthy). cbv zeta. cbn [snd trail].
    pose proof (Hnew (Note.set_task_id (Some tid)) (λ _, eq_refl) (λ _, eq_refl)) as Hb.
    cbv zeta in Hb.
    unfold keeps. cbn [commits delayed omap list_omap persisted foldl].
    split; [|split; [|split]];
      [each_commit| | |apply Forall_cons_2; [exact I|apply Forall_nil_2]];
      first [apply Ha | apply Hb].
  - rewrite (create_notes_miss _ _ _ _ _ _ Hq I). cbv zeta. cbn [snd trail].
    pose proof (Hnew (Note.set_task_id (Some tid)) (λ _, eq_refl) (λ _, eq_refl)) as Hb.
    cbv zeta in Hb.
    unfold keeps. cbn [commits delayed omap list_omap persisted foldl].
    split; [|split; [|split]];
      [each_commit| | |apply Forall_cons_2; [exact I|apply Forall_nil_2]];
      first [apply Ha | apply Hb].
Qed.

Lemma regenerate_run n tid t disk tr n0 :
  t !! Note.id n = Some n0 →
  let failed := Note.set_error None (Note.set_status "failed" n0) in
  let t1 := <[Note.id n := failed]> t in
  let t2 := <[Note.id n := Note.set_status "processing"
                             (Note.set_task_id (Some tid) failed)]> t in
  Api.regenerate n tid (Session t disk tr)
  = (Return tid,
     Session t2 disk
       (tr ++ [Committed t1;
               Delayed (Message (generate_study_notes_call (Api.transcription_data_of n)) 0 []);
               Committed t2])).
Proof.
  intros Hn. unfold Api.regenerate. unfold_monad.
  rewrite !alter_alter_eq, !(alter_row _ _ _ _ Hn). cbn [compose].
  rewrite <- !app_assoc. reflexivity.
Qed.

(** One turn of the regenerate loop keeps the tables sound; the commit
    in the middle of the turn is only sound without the promise of the
    failed rows. *)
Lemma regenerate_keeps strict table n tid s :
  session_keeps strict table s → table !! Note.id n = Some n →
  ∃ s', Api.regenerate n tid s = (Return tid, s')
        ∧ session_keeps strict table s' ∧ files s' = files s.
Proof.
  intros [(Hcommits & Hok & Hgrows & Hmsgs) Hrows] Hn. destruct s as [t disk tr].
  cbn [rows trail files] in *. rewrite Hrows in *.
  destruct (Hgrows _ _ Hn) as (n0 & Hn0 & Htr).
  destruct (Hok _ _ Hn0) as (Hid & Hc & Hf).
  rewrite (regenerate_run _ _ _ _ _ _ Hn0). cbv zeta.
  eexists. split; [reflexivity|]. split; [|reflexivity].
  set (failed := Note.set_error None (Note.set_status "failed" n0)).
  set (queued := Note.set_status "processing" (Note.set_task_id (Some tid) failed)).
  assert (H1 : table_ok false (<[Note.id n := failed]> t)
               ∧ grows t (<[Note.id n := failed]> t)).
  { split; [apply table_ok_insert; [eapply table_ok_weaken, Hok|..]|eapply grows_insert];
      eauto; subst failed; row_facts. }
  assert (H2 : table_ok strict (<[Note.id n := queued]> t)
               ∧ grows t (<[Note.id n := queued]> t)).
  { split; [apply table_ok_insert|eapply grows_insert]; eauto; subst queued failed; row_facts. }
  unfold session_keeps, keeps. cbn [rows trail].
  rewrite commits_app, delayed_app, persisted_app, Hrows.
  cbn [commits delayed omap list_omap persisted foldl].
  split; [|reflexivity]. split; [|split; [|split]].
  - apply Forall_app. split; [exact Hcommits|].
    each_commit; first [apply H1 | eapply table_ok_weaken, H2
                       | eapply grows_trans; [exact Hgrows|apply H1]
                       | eapply grows_trans; [exact Hgrows|apply H2]].
  - apply H2.
  - eapply grows_trans; [exact Hgrows|apply H2].
  - apply Forall_app. split.
    + eapply Forall_impl; [exact Hmsgs|]. intros m Hm. eapply call_ok_grows; [apply H2|exact Hm].
    + apply Forall_cons_2; [|apply Forall_nil_2]. cbn [msg_call call_ok].
      eapply transcription_data_ok; [apply lookup_insert_eq|].
      subst queued failed. cbn. exact Htr.
Qed.

Lemma regenerate_loop_keeps strict table task_ids notes : ∀ count s,
  session_keeps strict table s →
  (∀ n, In n notes → table !! Note.id n = Some n) →
  ∃ c s', Api.regenerate_loop notes task_ids count s = (Return c, s')
          ∧ session_keeps strict table s' ∧ files s' = files s.
Proof.
  induction notes as [|n notes IH]; intros count s Hs Hall.
  - exists count, s. auto.
  - destruct (regenerate_keeps strict table n (task_ids count) s Hs)
      as (s1 & R1 & Hs1 & F1); [apply Hall; left; reflexivity|].
    destruct (IH (S count) s1 Hs1) as (c & s2 & R2 & Hs2 & F2).
    { intros m Hm. apply Hall. right. exact Hm. }
    exists c, s2. split; [|split; [exact Hs2|congruence]].
    cbn [Api.regenerate_loop]. unfold mbind, M_bind, bind. rewrite R1. exact R2.
Qed.

Lemma session_keeps_start strict table disk :
  table_ok strict table → session_keeps strict table (SessionLocal table disk).
Proof. intros H. split; [apply keeps_nil, H|reflexivity]. Qed.

Lemma regenerate_all_keeps strict task_ids table disk :
  table_ok strict table →
  keeps strict false table
        (trail (Api.regenerate_all_notes task_ids (SessionLocal table disk)).2).
Proof.
  intros Hok. unfold Api.regenerate_all_notes.
  edestruct (regenerate_loop_keeps strict table task_ids) as (c & s' & -> & [Hs' _] & _);
    [apply session_keeps_start, Hok| |exact Hs'].
  intros n [Hin _]%filter_In. cbn [rows SessionLocal] in Hin.
  apply scanned_row in Hin as [k Hk]. destruct (Hok _ _ Hk) as [-> _]. exact Hk.
Qed.

Lemma regenerate_note_keeps strict id tid table disk :
  table_ok strict table →
  keeps strict false table
        (trail (Api.regenerate_note id tid (SessionLocal table disk)).2).
Proof.
  intros Hok. unfold Api.regenerate_note. unfold mbind, M_bind, bind at 1.
  unfold query_by_id. cbn [rows SessionLocal].
  destruct (table !! id) as [n|] eqn:Hn; [|apply keeps_nil, Hok].
  destruct (negb (truthy_text (Note.transcription n))); [apply keeps_nil, Hok|].
  destruct (truthy_text (Note.note n)); [apply keeps_nil, Hok|].
  destruct (Hok _ _ Hn) as (Hid & _). rewrite <- Hid in Hn.
  destruct (regenerate_keeps strict table n tid (SessionLocal table disk))
    as (s' & R & [Hs' _] & _); [apply session_keeps_start, Hok|exact Hn|].
  unfold bind, SessionLocal in *. rewrite R. exact Hs'.
Qed.

(** ** The system *)

Lemma run_call_keeps strict w m table disk :
  table_ok strict table → call_ok table (msg_call m) →
  (strict = true →
   match msg_call m with
   | translate_audio_to_text_call d =>
     ∀ id, get d "note_id" = PInt id → is_Some (table !! id) →
           audio_state_of d disk ≠ AudioMissing
   | _ => True
   end) →
  let r := run_call w m (SessionLocal table disk) in
  delayed (trail r.2) = []
  ∧ Forall (λ t, table_ok strict t ∧ grows table t) (commits (trail r.2))
  ∧ (∀ d, r.1 = Return d → dict_ok (persisted table (trail r.2)) d).
Proof.
  intros Hok Hcall Hslip. unfold run_call. destruct (msg_call m) as [link id|d|d].
  - apply download_audio_keeps, Hok.
  - apply translate_audio_to_text_keeps; auto.
  - apply generate_study_notes_keeps; auto.
Qed.

Lemma keeps_invariant strict each st evs disk' :
  invariant strict st → keeps strict each (System.db st) evs →
  invariant strict (System.State (persisted (System.db st) evs) disk'
                                 (System.broker st ++ delayed evs))
  ∧ Forall (table_ok each) (commits evs).
Proof.
  intros [Hok Hmsgs] (Hcommits & Hok' & Hgrows & Hsent). split; [split|]; cbn.
  - exact Hok'.
  - apply Forall_app. split; [|exact Hsent].
    eapply Forall_impl; [exact Hmsgs|]. intros m Hm. eapply call_ok_grows; eauto.
  - eapply Forall_impl; [exact Hcommits|]. intros t [Ht _]. exact Ht.
Qed.

Lemma follow_up_ok table table' m o :
  grows table table' → call_ok table (msg_call m) →
  (∀ d, o = Return d → dict_ok table' d) →
  Forall (λ m', call_ok table' (msg_call m')) (follow_up m o).
Proof.
  intros Hg Hm Hd. unfold follow_up. destruct o as [d|e].
  - destruct (msg_chain m) as [|next rest]; [apply Forall_nil_2|].
    apply Forall_cons_2; [|apply Forall_nil_2]. cbn [msg_call].
    destruct next; cbn; auto.
  - destruct (_ <? _)%nat; [|apply Forall_nil_2].
    apply Forall_cons_2; [|apply Forall_nil_2]. cbn [msg_call].
    eapply call_ok_grows; eauto.
Qed.

(** Every action keeps the invariant; in the strict reading, as long as
    it is not a run of Transcribe that finds no audio, and with the
    commits in the middle of the regenerate handlers only sound without
    the promise of the failed rows. *)
Lemma exec_keeps strict a st :
  invariant strict st →
  (strict = true → transcribe_finds_no_audio a st = false) →
  invariant strict (System.exec a st)
  ∧ Forall (table_ok (strict && negb (is_regenerate a))) (commits (System.events_of a st)).
Proof.
  intros Hinv Hslip. pose proof Hinv as [Hok Hmsgs].
  destruct a as [url now tid|id tid|tids|id tid|i w|files'];
    unfold System.exec; cbn [is_regenerate negb]; rewrite ?andb_true_r, ?andb_false_r.
  - apply keeps_invariant; [exact Hinv|]. apply create_notes_keeps, Hok.
  - apply keeps_invariant; [exact Hinv|]. apply retry_note_keeps, Hok.
  - apply keeps_invariant; [exact Hinv|]. apply regenerate_all_keeps, Hok.
  - apply keeps_invariant; [exact Hinv|]. apply regenerate_note_keeps, Hok.
  - cbn [System.events_of System.disk_after System.broker_after].
    destruct (System.broker st !! i) as [m|] eqn:Hm.
    + assert (Hcall : call_ok (System.db st) (msg_call m)).
      { exact (Forall_lookup_1 (λ m, call_ok (System.db st) (msg_call m)) _ _ _ Hmsgs Hm). }
      destruct (run_call_keeps strict w m (System.db st) (System.disk st) Hok Hcall)
        as (Hnone & Hcommits & Hresult).
      { intros Hs. specialize (Hslip Hs). cbn in Hslip. rewrite Hm in Hslip.
        destruct m as [[link id|d|d] retries chain]; cbn [msg_call]; auto.
        intros id Hd [n Hn]. rewrite Hd, Hn in Hslip.
        destruct (audio_state_of d (System.disk st)); discriminate. }
      assert (Hg : grows (System.db st)
                     (persisted (System.db st)
                        (trail (run_call w m (SessionLocal (System.db st) (System.disk st))).2))).
      { apply (persisted_commits (grows (System.db st))); [apply grows_refl|].
        eapply Forall_impl; [exact Hcommits|]. intros t [_ Ht]. exact Ht. }
      split; [split|]; cbn [System.db System.broker].
      * apply (persisted_commits (table_ok strict)); [exact Hok|].
        eapply Forall_impl; [exact Hcommits|]. intros t [Ht _]. exact Ht.
      * apply Forall_app. split.
        -- apply Forall_delete. eapply Forall_impl; [exact Hmsgs|].
           intros m' Hm'. eapply call_ok_grows; eauto.
        -- eapply follow_up_ok; eauto.
      * eapply Forall_impl; [exact Hcommits|]. intros t [Ht _]. exact Ht.
    + split; [|apply Forall_nil_2]. split; cbn; auto.
  - cbn [System.events_of System.disk_after System.broker_after delayed omap list_omap
         persisted foldl commits].
    rewrite app_nil_r. split; [|apply Forall_nil_2]. split; cbn; auto.
Qed.

Lemma initial_invariant strict : invariant strict System.initial.
Proof.
  split; cbn; [|apply Forall_nil_2]. intros k n H. rewrite lookup_empty in H. discriminate.
Qed.

Lemma reachable_invariant st : System.reachable st → invariant false st.
Proof.
  induction 1 as [|a st _ IH]; [apply initial_invariant|].
  apply exec_keeps; [exact IH|discriminate].
Qed.

Lemma reachable_with_audio_invariant st : reachable_with_audio st → invariant true st.
Proof.
  induction 1 as [|a st _ IH Hslip]; [apply initial_invariant|].
  apply exec_keeps; auto.
Qed.

Lemma reachable_run acts : ∀ st, System.reachable st → System.reachable (System.run acts st).
Proof.
  induction acts as [|a acts IH]; intros st H; [exact H|].
  apply IH. constructor. exact H.
Qed.

(** ** Claims on the rows *)

(** C3, as the specification words it, fails: the job of
    [resume_without_audio_trace] ends completed with a null audio path
    (the resume at Acquire cleared it, the download failed, and the
    regenerate handler completed the job from the stored transcript). *)
Lemma completed_without_audio_counterexample :
  System.reachable (System.run resume_without_audio_trace System.initial)
  ∧ (System.db (System.run resume_without_audio_trace System.initial) !! 1
     ≫= λ n, Some (Note.status n, Note.audio_path n))
    = Some ("completed", None).
Proof.
  split; [apply reachable_run, System.reachable_initial|vm_compute; reflexivity].
Qed.

(** C3, amended. In every reachable state, and in every table committed
    by any action from a reachable state (intake with its cache clone,
    the three tasks, the retry and regenerate handlers), a row whose
    status is completed has notes that are not empty and a transcript
    that is not null. (Its audio path can be null.) *)
Theorem completed_rows_hold (st : System.state) (a : System.action) :
  System.reachable st →
  (∀ id n, System.db st !! id = Some n → Note.status n = "completed" →
           truthy_text (Note.note n) = true ∧ is_Some (Note.transcription n))
  ∧ (∀ table id n, table ∈ commits (System.events_of a st) →
                   table !! id = Some n → Note.status n = "completed" →
                   truthy_text (Note.note n) = true ∧ is_Some (Note.transcription n)).
Proof.
  intros Hreach. pose proof (reachable_invariant st Hreach) as Hinv. split.
  - intros id n Hn Hst. destruct Hinv as [Hok _]. destruct (Hok _ _ Hn) as (_ & Hc & _). auto.
  - intros table id n Hin Hn Hst.
    destruct (exec_keeps false a st Hinv) as [_ Hcommits]; [discriminate|].
    rewrite Forall_forall in Hcommits. destruct (Hcommits _ Hin _ _ Hn) as (_ & Hc & _). auto.
Qed.

Lemma completed_rows_hold_witness :
  (∀ id n, System.db (System.run resume_without_audio_trace System.initial) !! id = Some n →
           Note.status n = "completed" →
           truthy_text (Note.note n) = true ∧ is_Some (Note.transcription n))
  ∧ (∀ table id n,
       table ∈ commits (System.events_of (System.post_notes_youtube "https://v/1" 11 "t9")
                          (System.run resume_without_audio_trace System.initial)) →
       table !! id = Some n → Note.status n = "completed" →
       truthy_text (Note.note n) = true ∧ is_Some (Note.transcription n)).
Proof.
  apply (completed_rows_hold (System.run resume_without_audio_trace System.initial)
           (System.post_notes_youtube "https://v/1" 11 "t9")).
  apply reachable_run, System.reachable_initial.
Defined.

(** C8, as the specification words it, fails at the first commit of the
    regenerate handler: the row is persisted failed with a null error. *)
Lemma failed_without_error_counterexample :
  (λ n, (Note.status n, Note.error n))
  <$> (head (commits (System.events_of (System.post_regenerate_note 1 "t3")
                        (System.run notes_fail_trace System.initial)))
       ≫= λ t, t !! 1)
  = Some ("failed", None).
Proof. vm_compute. reflexivity. Qed.

(** The other way a failed row gets a null error: Transcribe finds its
    row and no audio file, and sets the status only. *)
Example transcribe_without_audio_leaves_no_error :
  (System.db (System.run [System.post_notes_youtube "https://v/1" 10 "t1";
                          System.worker_runs 0 world_ok;
                          System.disk_changes ∅;
                          System.worker_runs 0 world_ok] System.initial) !! 1
   ≫= λ n, Some (Note.status n, Note.error n))
  = Some ("failed", None).
Proof. vm_compute. reflexivity. Qed.

(** C8, amended. Leaving aside the runs of Transcribe that find no audio
    file: in every state reached, a failed row has an error; every
    action leaves such a state; and every table committed by an action
    other than the two regenerate handlers is such a table. (The
    regenerate handlers first commit the row failed with a null error,
    then processing.) *)
Theorem failed_rows_hold (st : System.state) (a : System.action) :
  reachable_with_audio st →
  transcribe_finds_no_audio a st = false →
  (∀ id n, System.db st !! id = Some n → Note.status n = "failed" →
           is_Some (Note.error n))
  ∧ (∀ id n, System.db (System.exec a st) !! id = Some n → Note.status n = "failed" →
             is_Some (Note.error n))
  ∧ (is_regenerate a = false →
     ∀ table id n, table ∈ commits (System.events_of a st) →
                   table !! id = Some n → Note.status n = "failed" →
                   is_Some (Note.error n)).
Proof.
  intros Hreach Hslip. pose proof (reachable_with_audio_invariant st Hreach) as Hinv.
  destruct (exec_keeps true a st Hinv (λ _, Hslip)) as [[Hok' _] Hcommits].
  split; [|split].
  - intros id n Hn Hst. destruct Hinv as [Hok _]. destruct (Hok _ _ Hn) as (_ & _ & Hf).
    exact (Hf eq_refl Hst).
  - intros id n Hn Hst. destruct (Hok' _ _ Hn) as (_ & _ & Hf). exact (Hf eq_refl Hst).
  - intros Hreg table id n Hin Hn Hst. rewrite Hreg in Hcommits.
    rewrite Forall_forall in Hcommits. destruct (Hcommits _ Hin _ _ Hn) as (_ & _ & Hf).
    exact (Hf eq_refl Hst).
Qed.

Lemma reachable_with_audio_run acts : ∀ st,
  reachable_with_audio st →
  forallb (λ b, negb b)
    (snd (foldl (λ '(st, flags) a, (System.exec a st, flags ++ [transcribe_finds_no_audio a st]))
                (st, []) acts)) = true →
  reachable_with_audio (System.run acts st).
Proof.
  assert (H : ∀ acts st flags,
    snd (foldl (λ '(st, flags) a, (System.exec a st, flags ++ [transcribe_finds_no_audio a st]))
               (st, flags) acts)
    = flags ++ snd (foldl (λ '(st, flags) a, (System.exec a st, flags ++ [transcribe_finds_no_audio a st]))
                          (st, []) acts)).
  { induction acts0 as [|a acts0 IH]; intros st flags; cbn [foldl].
    - rewrite app_nil_r. reflexivity.
    - rewrite IH, (IH _ ([] ++ _)), app_assoc. reflexivity. }
  induction acts as [|a acts IH]; intros st Hst Hflags; [exact Hst|].
  cbn [foldl] in Hflags. rewrite H in Hflags. cbn [app] in Hflags.
  cbn [forallb] in Hflags. apply andb_prop in Hflags as [Ha Hrest].
  apply IH; [|exact Hrest]. constructor; [exact Hst|].
  apply negb_true_iff. exact Ha.
Qed.

Lemma failed_rows_hold_witness :
  (∀ id n, System.db (System.run notes_fail_trace System.initial) !! id = Some n →
           Note.status n = "failed" → is_Some (Note.error n))
  ∧ (∀ id n, System.db (System.exec (System.post_retry 1 "t2")
                          (System.run notes_fail_trace System.initial)) !! id = Some n →
             Note.status n = "failed" → is_Some (Note.error n))
  ∧ (is_regenerate (System.post_retry 1 "t2") = false →
     ∀ table id n,
       table ∈ commits (System.events_of (System.post_retry 1 "t2")
                          (System.run notes_fail_trace System.initial)) →
       table !! id = Some n → Note.status n = "failed" → is_Some (Note.error n)).
Proof.
  apply (failed_rows_hold (System.run notes_fail_trace System.initial)
           (System.post_retry 1 "t2")).
  - apply reachable_with_audio_run; [apply with_audio_initial|vm_compute; reflexivity].
  - reflexivity.
Defined.

(** ** The cache *)

Lemma cached_spec url n :
  Api.cached url n = true
  ↔ Note.youtube_url n = url ∧ Note.status n = "completed" ∧ is_Some (Note.note n).
Proof.
  unfold Api.cached. rewrite !andb_true_iff, !String.eqb_eq. split.
  - intros [[? ?] Hn]. repeat split; auto. destruct (Note.note n); [eauto|discriminate].
  - intros (? & ? & [x Hx]). rewrite Hx. auto.
Qed.

(** C7. In a reachable state that holds a completed row with notes for
    the submitted URL, the intake creates a row under a fresh id, copies
    to it the transcript, the notes, the audio path and the audio id of
    such a row with the largest creation time, leaves it completed,
    sends no task (the broker is unchanged) and answers Completed. *)
Theorem cache_hit (st : System.state) (url : string) (now : Z) (tid : string) :
  System.reachable st →
  (∃ id r, System.db st !! id = Some r ∧ Note.youtube_url r = url
           ∧ Note.status r = "completed" ∧ is_Some (Note.note r)) →
  ∃ e,
    (∃ k, System.db st !! k = Some e)
    ∧ Note.youtube_url e = url ∧ Note.status e = "completed" ∧ is_Some (Note.note e)
    ∧ (∀ k r, System.db st !! k = Some r → Note.youtube_url r = url →
              Note.status r = "completed" → is_Some (Note.note r) →
              Note.created_at r ≤ Note.created_at e)
    ∧ let new_id := next_id (System.db st) in
      let st' := System.exec (System.post_notes_youtube url now tid) st in
      System.db st !! new_id = None
      ∧ System.db st'
        = <[new_id := Note.Make new_id url None "completed" (Note.audio_id e)
                                (Note.audio_path e) None (Note.transcription e)
                                (Note.note e) now]> (System.db st)
      ∧ System.broker st' = System.broker st
      ∧ delayed (System.events_of (System.post_notes_youtube url now tid) st) = []
      ∧ (Api.create_notes_from_youtube url now tid
           (SessionLocal (System.db st) (System.disk st))).1
        = Return (Api.ImportResponse Api.COMPLETED (pretty new_id)).
Proof.
  intros Hreach (id & r & Hr & Hurl & Hst & Hnote).
  destruct (reachable_invariant st Hreach) as [Hok _].
  destruct (query_existing_run url (System.db st) (System.disk st) []) as (found & Hq & Hfound).
  destruct found as [e|].
  - destruct Hfound as ([k Hk] & Hcached & Hmax).
    pose proof (proj1 (cached_spec url e) Hcached) as (Hu & Hs & Hn).
    destruct (Hok _ _ Hk) as (_ & Hc & _). destruct (Hc Hs) as [Htruthy _].
    exists e. split; [eauto|]. repeat (split; [assumption|]). split.
    { intros k' r' Hr' ? ? ?. eapply Hmax; [exact Hr'|]. apply cached_spec. auto. }
    cbv zeta. split; [apply next_id_fresh|].
    unfold System.exec.
    cbn [System.events_of System.disk_after System.broker_after System.db System.broker].
    rewrite (create_notes_hit _ _ _ _ _ _ Hq Htruthy). cbv zeta.
    cbn [fst snd trail persisted foldl delayed omap list_omap].
    rewrite app_nil_r. auto.
  - assert (Hc : Api.cached url r = true) by (apply cached_spec; auto).
    rewrite (Hfound _ _ Hr) in Hc. discriminate.
Qed.

Lemma cache_hit_witness :
  ∃ e,
    let st := System.run resume_without_audio_trace System.initial in
    (∃ k, System.db st !! k = Some e)
    ∧ Note.youtube_url e = "https://v/1" ∧ Note.status e = "completed"
    ∧ is_Some (Note.note e)
    ∧ (∀ k r, System.db st !! k = Some r → Note.youtube_url r = "https://v/1" →
              Note.status r = "completed" → is_Some (Note.note r) →
              Note.created_at r ≤ Note.created_at e)
    ∧ let new_id := next_id (System.db st) in
      let st' := System.exec (System.post_notes_youtube "https://v/1" 11 "t9") st in
      System.db st !! new_id = None
      ∧ System.db st'
        = <[new_id := Note.Make new_id "https://v/1" None "completed" (Note.audio_id e)
                                (Note.audio_path e) None (Note.transcription e)
                                (Note.note e) 11]> (System.db st)
      ∧ System.broker st' = System.broker st
      ∧ delayed (System.events_of (System.post_notes_youtube "https://v/1" 11 "t9") st) = []
      ∧ (Api.create_notes_from_youtube "https://v/1" 11 "t9"
           (SessionLocal (System.db st) (System.disk st))).1
        = Return (Api.ImportResponse Api.COMPLETED (pretty new_id)).
Proof.
  apply (cache_hit (System.run resume_without_audio_trace System.initial)
           "https://v/1" 11 "t9").
  - apply reachable_run, System.reachable_initial.
  - exists 1. eexists. split; [vm_compute; reflexivity|].
    split; [reflexivity|]. split; [reflexivity|]. eexists. reflexivity.
Defined.

(** * More on the pipeline *)

(** ** Runs of the tasks that go through *)

Lemma truthy_PStr p : p ≠ "" → truthy (PStr p) = true.
Proof. intros H. simpl. apply negb_true_iff, String.eqb_neq, H. Qed.

Lemma output_file_not_empty w : output_file w ≠ "".
Proof. unfold output_file. discriminate. Qed.

(** A run of [download_audio] whose download goes through. *)
Lemma download_audio_succeeds w retries link table disk id n :
  table !! id = Some n → Note.id n = id → ydl_download w = None →
  download_audio w retries link id (SessionLocal table disk)
  = let t1 := <[id := Note.set_status "processing" n]> table in
    let t2 := <[id := Note.set_status "processing"
                        (Note.set_audio_path (Some (output_file w))
                           (Note.set_audio_id (Some (uuid4 w))
                              (Note.set_status "processing" n)))]> table in
    (Return (list_to_map [("note_id", PInt id); ("audio_id", PStr (uuid4 w));
                          ("audio_path", PStr (output_file w));
                          ("youtube_link", PStr link)]),
     Session t2 ({[ output_file w ]} ∪ disk) [Committed t1; Committed t2]).
Proof.
  intros Hn Hid Hok. unfold download_audio. unfold_monad. rewrite Hn, Hid, Hok.
  unfold_monad. rewrite !alter_alter_eq, !(alter_row _ _ _ _ Hn). reflexivity.
Qed.

Lemma download_audio_not_found w retries link table disk id :
  table !! id = None →
  download_audio w retries link id (SessionLocal table disk)
  = (Return (list_to_map [("error", not_found (PInt id)); ("note_id", PInt id)]),
     Session table disk []).
Proof. intros Hn. unfold download_audio. unfold_monad. rewrite Hn. reflexivity. Qed.

(** A run of [translate_audio_to_text] whose provider answers. *)
Lemma translate_audio_succeeds w retries d table disk id n p t :
  table !! id = Some n → Note.id n = id →
  get d "note_id" = PInt id → get d "audio_path" = PStr p → p ≠ "" → p ∈ disk →
  transcriptions_create w = inr t →
  translate_audio_to_text w retries d (SessionLocal table disk)
  = let t1 := <[id := Note.set_status "processing"
                        (Note.set_transcription (Some (Transcript.serialize t)) n)]> table in
    (Return (list_to_map [("note_id", PInt id); ("audio_id", get d "audio_id");
                          ("transcription", PStr (Transcript.serialize t));
                          ("audio_path", PStr p);
                          ("youtube_link", get d "youtube_link")]),
     Session t1 disk [Committed t1]).
Proof.
  intros Hn Hid Hd Hp Hne Hin Hok.
  unfold translate_audio_to_text, audio_file_exists. rewrite Hd, Hp. unfold_monad. rewrite Hn.
  rewrite (truthy_PStr _ Hne). cbn [negb]. unfold_monad.
  rewrite (bool_decide_eq_true_2 _ Hin). cbn [negb]. rewrite Hok. unfold_monad.
  rewrite Hid, alter_alter_eq, (alter_row _ _ _ _ Hn). reflexivity.
Qed.

Lemma query_names_no_row d table disk tr :
  names_no_row d table →
  query_by_pyval (get d "note_id") (Session table disk tr) = (Return None, Session table disk tr).
Proof.
  intros H. unfold query_by_pyval. destruct (get d "note_id") as [|s|id] eqn:E; try reflexivity.
  unfold query_by_id. cbn [rows]. rewrite (H id E). reflexivity.
Qed.

Lemma translate_audio_not_found w retries d table disk :
  names_no_row d table →
  translate_audio_to_text w retries d (SessionLocal table disk)
  = (Return (list_to_map [("note_id", get d "note_id"); ("transcription", PNone);
                          ("error", not_found (get d "note_id"))]),
     Session table disk []).
Proof.
  intros H. unfold translate_audio_to_text, try_except, mbind, M_bind, bind, SessionLocal.
  rewrite (query_names_no_row _ _ _ _ H). reflexivity.
Qed.

Lemma generate_study_notes_not_found w retries d table disk :
  names_no_row d table →
  generate_study_notes w retries d (SessionLocal table disk)
  = (Return (list_to_map [("note_id", get d "note_id"); ("study_notes", PNone);
                          ("error", not_found (get d "note_id"))]),
     Session table disk []).
Proof.
  intros H. unfold generate_study_notes, mbind, M_bind, bind, SessionLocal.
  rewrite (query_names_no_row _ _ _ _ H). reflexivity.
Qed.

(** A run of [generate_study_notes] whose provider answers with a text. *)
Lemma generate_study_notes_succeeds w retries d table disk id n t r :
  table !! id = Some n → Note.id n = id →
  get d "note_id" = PInt id → get d "transcription" = PStr t → t ≠ "" →
  generate_content w = inr r → response_text r ≠ "" →
  generate_study_notes w retries d (SessionLocal table disk)
  = let study_notes := Rewrite.postprocess (response_text r) (get d "youtube_link") in
    let t1 := <[id := Note.set_status "completed"
                        (Note.set_note (Some study_notes) n)]> table in
    (Return (list_to_map [("note_id", PInt id); ("study_notes", PStr study_notes);
                          ("youtube_link", get d "youtube_link")]),
     Session t1 disk [Committed t1]).
Proof.
  intros Hn Hid Hd Ht Hne Hok Htext.
  unfold generate_study_notes, generate_text. rewrite Hd, Ht. unfold_monad. rewrite Hn.
  rewrite (truthy_PStr _ Hne). cbn [negb]. rewrite Hok.
  apply String.eqb_neq in Htext. rewrite Htext. cbn [negb]. unfold_monad.
  rewrite Hid, alter_alter_eq, (alter_row _ _ _ _ Hn). reflexivity.
Qed.

(** A run of [generate_study_notes] that finds its row and no
    transcription in its dictionary. *)
Lemma generate_study_notes_without_transcription w retries d table disk id n :
  table !! id = Some n → Note.id n = id →
  get d "note_id" = PInt id → truthy (get d "transcription") = false →
  generate_study_notes w retries d (SessionLocal table disk)
  = let error_msg := get_or d "error" (PStr "Transcription not found") in
    let t1 := <[id := Note.set_error (to_text error_msg) (Note.set_status "failed" n)]> table in
    (Return (list_to_map [("note_id", PInt id); ("study_notes", PNone);
                          ("error", error_msg)]),
     Session t1 disk [Committed t1]).
Proof.
  intros Hn Hid Hd Ht. unfold generate_study_notes. rewrite Hd, Ht. unfold_monad. rewrite Hn.
  cbn [negb]. rewrite Hid, alter_alter_eq, (alter_row _ _ _ _ Hn). reflexivity.
Qed.

(** A run of [translate_audio_to_text] whose audio path is a number:
    [Path(...)] raises, as a provider would. *)
Lemma translate_audio_bad_path w retries d table disk id n z :
  table !! id = Some n → Note.id n = id →
  get d "note_id" = PInt id → get d "audio_path" = PInt z → z ≠ 0 →
  translate_audio_to_text w retries d (SessionLocal table disk)
  = let e := Exception "expected str, bytes or os.PathLike object, not int" in
    let t2 := <[id := failed_row "Transcription" retries (str_exn e) n]> table in
    (Raise e, if (2 <=? retries)%nat then Session t2 disk [Committed t2]
              else Session table disk []).
Proof.
  intros Hn Hid Hd Hp Hz.
  unfold translate_audio_to_text, mark_failed_and_reraise, audio_file_exists.
  rewrite Hd, Hp. unfold_monad. rewrite Hn.
  assert (truthy (PInt z) = true) as ->.
  { simpl. apply negb_true_iff, Z.eqb_neq, Hz. }
  cbn [negb]. unfold_monad. destruct (2 <=? retries)%nat; [|reflexivity].
  unfold_monad. rewrite Hn, Hid, alter_alter_eq, (alter_row _ _ _ _ Hn). reflexivity.
Qed.

(** A run of [generate_study_notes] whose transcription is a number:
    [split] raises before the inner [try], so nothing is recorded. *)
Lemma generate_study_notes_bad_transcription w retries d table disk id n z :
  table !! id = Some n →
  get d "note_id" = PInt id → get d "transcription" = PInt z → z ≠ 0 →
  generate_study_notes w retries d (SessionLocal table disk)
  = (Raise (Exception "'int' object has no attribute 'split'"), Session table disk []).
Proof.
  intros Hn Hd Ht Hz. unfold generate_study_notes. rewrite Hd, Ht. unfold_monad. rewrite Hn.
  assert (truthy (PInt z) = true) as ->.
  { simpl. apply negb_true_iff, Z.eqb_neq, Hz. }
  reflexivity.
Qed.

(** ** The chain, task after task *)

(** A worker that takes the last message of the broker. *)
Lemma exec_worker_last st b m w :
  System.broker st = b ++ [m] →
  System.exec (System.worker_runs (length b) w) st
  = let r := run_call w m (SessionLocal (System.db st) (System.disk st)) in
    System.State (persisted (System.db st) (trail r.2)) (files r.2) (b ++ follow_up m r.1).
Proof.
  intros Hb. unfold System.exec.
  cbn [System.events_of System.disk_after System.broker_after].
  rewrite Hb, list_lookup_middle by reflexivity.
  cbv zeta. f_equal. f_equal.
  rewrite delete_middle. apply app_nil_r.
Qed.

(** The intake on a table with no completed row for the URL. *)
Lemma exec_intake_miss st url now tid :
  (∀ k n, System.db st !! k = Some n → Note.youtube_url n = url →
          Note.status n ≠ "completed") →
  System.exec (System.post_notes_youtube url now tid) st
  = let new_id := next_id (System.db st) in
    System.State
      (<[new_id := Note.Make new_id url (Some tid) "pending" None None None None None now]>
         (System.db st))
      (System.disk st)
      (System.broker st ++ [create_audio_transcription_chain url new_id]).
Proof.
  intros Hmiss.
  destruct (query_existing_run url (System.db st) (System.disk st) []) as (found & Hq & Hfound).
  destruct found as [e|].
  { destruct Hfound as ([k Hk] & Hc & _). apply cached_spec in Hc as (Hu & Hs & _).
    destruct (Hmiss _ _ Hk Hu Hs). }
  unfold System.exec. cbn [System.events_of System.disk_after System.broker_after].
  rewrite (create_notes_miss _ _ _ _ _ _ Hq I). reflexivity.
Qed.

(** X1. A job that meets no failure: on a table with no completed row
    for the URL, the intake followed by three runs of the worker on the
    message of the job (download, transcription with a non-empty text,
    notes with a non-empty answer) leaves the row completed with the
    audio file of the download, the transcription as serialized and the
    notes as rewritten for the URL; the file is on disk, the rest of the
    table is as before and the broker holds what it held before. *)
Theorem job_runs_to_completion (st : System.state) (url : string) (now : Z)
    (tid : string) (w1 w2 w3 : world) (t : Transcript.transcript) (r : response) :
  (∀ k n, System.db st !! k = Some n → Note.youtube_url n = url →
          Note.status n ≠ "completed") →
  ydl_download w1 = None →
  transcriptions_create w2 = inr t → Transcript.serialize t ≠ "" →
  generate_content w3 = inr r → response_text r ≠ "" →
  let i := length (System.broker st) in
  let new_id := next_id (System.db st) in
  System.run [System.post_notes_youtube url now tid; System.worker_runs i w1;
              System.worker_runs i w2; System.worker_runs i w3] st
  = System.State (<[new_id := completed_row new_id url now tid w1 t r]> (System.db st))
                 ({[ output_file w1 ]} ∪ System.disk st)
                 (System.broker st)
  ∧ System.db st !! new_id = None.
Proof.
  intros Hmiss H1 H2 Ht H3 Hr. cbv zeta. split; [|apply next_id_fresh].
  unfold System.run. cbn [foldl].
  rewrite (exec_intake_miss _ _ _ _ Hmiss). cbv zeta.
  unfold create_audio_transcription_chain.
  (* download *)
  rewrite (exec_worker_last _ (System.broker st) _ w1) by reflexivity.
  cbn [System.db System.disk System.broker run_call msg_call msg_retries].
  erewrite download_audio_succeeds; [|apply lookup_insert_eq|reflexivity|exact H1].
  cbv zeta. cbn [fst snd trail files persisted foldl follow_up msg_chain apply_linked].
  rewrite insert_insert_eq.
  (* transcription *)
  rewrite (exec_worker_last _ (System.broker st) _ w2) by reflexivity.
  cbn [System.db System.disk System.broker run_call msg_call msg_retries].
  erewrite translate_audio_succeeds;
    [|apply lookup_insert_eq|reflexivity|dict_lookup; reflexivity|dict_lookup; reflexivity
     |apply output_file_not_empty|set_solver|exact H2].
  cbv zeta. cbn [fst snd trail files persisted foldl follow_up msg_chain apply_linked].
  rewrite insert_insert_eq.
  (* notes *)
  rewrite (exec_worker_last _ (System.broker st) _ w3) by reflexivity.
  cbn [System.db System.disk System.broker run_call msg_call msg_retries].
  erewrite generate_study_notes_succeeds;
    [|apply lookup_insert_eq|reflexivity|dict_lookup; reflexivity|dict_lookup; reflexivity
     |exact Ht|exact H3|exact Hr].
  cbv zeta. cbn [fst snd trail files persisted foldl follow_up msg_chain].
  rewrite insert_insert_eq, app_nil_r. f_equal.
Qed.

Lemma job_runs_to_completion_witness :
  System.run [System.post_notes_youtube "https://v/1" 10 "t1"; System.worker_runs 0 world_ok;
              System.worker_runs 0 world_ok; System.worker_runs 0 world_ok] System.initial
  = System.State
      (<[1 := completed_row 1 "https://v/1" 10 "t1" world_ok
                (Transcript.Transcript
                   [Transcript.Segment (S754_zero false) (S754_finite false 3 (-1)) " hi"] "")
                (Response "<notes>[00:01]</notes>" None)]> ∅)
      ({[ output_file world_ok ]} ∪ ∅) []
  ∧ (∅ : gmap Z Note.t) !! 1 = None.
Proof.
  apply (job_runs_to_completion System.initial "https://v/1" 10 "t1"
           world_ok world_ok world_ok
           (Transcript.Transcript
              [Transcript.Segment (S754_zero false) (S754_finite false 3 (-1)) " hi"] "")
           (Response "<notes>[00:01]</notes>" None)).
  - intros k n H. unfold System.initial in H. cbn [System.db] in H.
    rewrite lookup_empty in H. discriminate.
  - reflexivity.
  - reflexivity.
  - discriminate.
  - reflexivity.
  - discriminate.
Defined.

(** X2. A chain whose row is not in the table: each of the three tasks
    runs once and returns a dictionary with the error "Note with id N not
    found" (no exception, so no retry), nothing is written to the table
    or to the disk, and the message leaves the broker after the third
    run. *)
Theorem chain_for_missing_row (st : System.state) (b : list message) (link : string)
    (id : Z) (retries : nat) (w1 w2 w3 : world) :
  System.db st !! id = None →
  System.broker st
  = b ++ [Message (download_audio_call link id) retries
                  [translate_audio_to_text_s; generate_study_notes_s]] →
  let i := length b in
  let error := PStr ("Note with id " +:+ pretty id +:+ " not found") in
  let st1 := System.exec (System.worker_runs i w1) st in
  let st2 := System.exec (System.worker_runs i w2) st1 in
  let st3 := System.exec (System.worker_runs i w3) st2 in
  st1 = System.State (System.db st) (System.disk st)
          (b ++ [Message (translate_audio_to_text_call
                            (list_to_map [("error", error); ("note_id", PInt id)]))
                         0 [generate_study_notes_s]])
  ∧ st2 = System.State (System.db st) (System.disk st)
            (b ++ [Message (generate_study_notes_call
                              (list_to_map [("note_id", PInt id); ("transcription", PNone);
                                            ("error", error)]))
                           0 []])
  ∧ st3 = System.State (System.db st) (System.disk st) b
  ∧ (run_call w3 (Message (generate_study_notes_call
                             (list_to_map [("note_id", PInt id); ("transcription", PNone);
                                           ("error", error)])) 0 [])
       (SessionLocal (System.db st) (System.disk st))).1
    = Return (list_to_map [("note_id", PInt id); ("study_notes", PNone); ("error", error)]).
Proof.
  intros Hn Hb. cbv zeta.
  assert (H1 : System.exec (System.worker_runs (length b) w1) st
               = System.State (System.db st) (System.disk st)
                   (b ++ [Message (translate_audio_to_text_call
                            (list_to_map [("error", PStr ("Note with id " +:+ pretty id
                                                          +:+ " not found"));
                                          ("note_id", PInt id)]))
                          0 [generate_study_notes_s]])).
  { rewrite (exec_worker_last _ b _ w1 Hb). cbv zeta.
    cbn [run_call msg_call msg_retries].
    rewrite (download_audio_not_found _ _ _ _ _ _ Hn). reflexivity. }
  rewrite H1. split; [reflexivity|].
  assert (Hno : ∀ d : gmap string pyval, get d "note_id" = PInt id →
                                          names_no_row d (System.db st)).
  { intros d Hd id' Hid'. rewrite Hd in Hid'. injection Hid' as <-. exact Hn. }
  assert (H2 : System.exec (System.worker_runs (length b) w2)
                 (System.State (System.db st) (System.disk st)
                    (b ++ [Message (translate_audio_to_text_call
                             (list_to_map [("error", PStr ("Note with id " +:+ pretty id
                                                           +:+ " not found"));
                                           ("note_id", PInt id)]))
                           0 [generate_study_notes_s]]))
               = System.State (System.db st) (System.disk st)
                   (b ++ [Message (generate_study_notes_call
                             (list_to_map [("note_id", PInt id); ("transcription", PNone);
                                           ("error", PStr ("Note with id " +:+ pretty id
                                                           +:+ " not found"))]))
                          0 []])).
  { rewrite (exec_worker_last _ b _ w2) by reflexivity. cbv zeta.
    cbn [System.db System.disk run_call msg_call msg_retries].
    rewrite translate_audio_not_found by (apply Hno; reflexivity). reflexivity. }
  rewrite H2. split; [reflexivity|].
  split.
  - rewrite (exec_worker_last _ b _ w3) by reflexivity. cbv zeta.
    cbn [System.db System.disk run_call msg_call msg_retries].
    rewrite generate_study_notes_not_found by (apply Hno; reflexivity).
    cbn [fst snd trail files persisted foldl follow_up msg_chain]. rewrite app_nil_r.
    reflexivity.
  - cbn [run_call msg_call msg_retries].
    rewrite generate_study_notes_not_found by (apply Hno; reflexivity). reflexivity.
Qed.

Lemma chain_for_missing_row_witness :
  let st := System.State ∅ ∅ [create_audio_transcription_chain "https://v/1" 7] in
  let error := PStr ("Note with id " +:+ pretty 7 +:+ " not found") in
  let st1 := System.exec (System.worker_runs 0 world_ok) st in
  let st2 := System.exec (System.worker_runs 0 world_ok) st1 in
  let st3 := System.exec (System.worker_runs 0 world_ok) st2 in
  st1 = System.State ∅ ∅
          [Message (translate_audio_to_text_call
                      (list_to_map [("error", error); ("note_id", PInt 7)]))
                   0 [generate_study_notes_s]]
  ∧ st2 = System.State ∅ ∅
            [Message (generate_study_notes_call
                        (list_to_map [("note_id", PInt 7); ("transcription", PNone);
                                      ("error", error)]))
                     0 []]
  ∧ st3 = System.State ∅ ∅ []
  ∧ (run_call world_ok (Message (generate_study_notes_call
                                   (list_to_map [("note_id", PInt 7); ("transcription", PNone);
                                                 ("error", error)])) 0 [])
       (SessionLocal ∅ ∅)).1
    = Return (list_to_map [("note_id", PInt 7); ("study_notes", PNone); ("error", error)]).
Proof.
  apply (chain_for_missing_row
           (System.State ∅ ∅ [create_audio_transcription_chain "https://v/1" 7])
           [] "https://v/1" 7 0 world_ok world_ok world_ok).
  - reflexivity.
  - reflexivity.
Defined.

(** X3. When Synthesize finds its row and a transcription that is
    missing, null or empty in its dictionary, it asks no provider and
    raises nothing (so nothing is retried, at any retry count): it
    commits once, leaving the row failed with the error text of the
    dictionary, or "Transcription not found" when the dictionary has
    none, and returns that text with null study notes. *)
Theorem synthesize_without_transcription_is_final (w : world) (retries : nat)
    (d : gmap string pyval) (table : gmap Z Note.t) (disk : gset string)
    (id : Z) (n : Note.t) :
  table !! id = Some n → Note.id n = id → get d "note_id" = PInt id →
  truthy (get d "transcription") = false →
  ∃ error_msg n',
    generate_study_notes w retries d (SessionLocal table disk)
    = (Return (list_to_map [("note_id", PInt id); ("study_notes", PNone);
                            ("error", error_msg)]),
       Session (<[id := n']> table) disk [Committed (<[id := n']> table)])
    ∧ n' = Note.set_error (to_text error_msg) (Note.set_status "failed" n)
    ∧ (∀ v, d !! "error" = Some v → error_msg = v)
    ∧ (d !! "error" = None → error_msg = PStr "Transcription not found").
Proof.
  intros Hn Hid Hd Ht.
  eexists (get_or d "error" (PStr "Transcription not found")), _.
  rewrite (generate_study_notes_without_transcription _ _ _ _ _ _ _ Hn Hid Hd Ht).
  cbv zeta. split; [reflexivity|]. split; [reflexivity|].
  unfold get_or. split; [intros v ->|intros ->]; reflexivity.
Qed.

Lemma synthesize_without_transcription_is_final_witness :
  ∃ error_msg n',
    let n := Note.Make 1 "https://v/1" (Some "t1") "processing" None None None (Some "") None 10 in
    let d : gmap string pyval := list_to_map [("note_id", PInt 1); ("transcription", PStr "")] in
    generate_study_notes world_ok 0 d (SessionLocal {[ 1 := n ]} ∅)
    = (Return (list_to_map [("note_id", PInt 1); ("study_notes", PNone);
                            ("error", error_msg)]),
       Session (<[1 := n']> {[ 1 := n ]}) ∅ [Committed (<[1 := n']> {[ 1 := n ]})])
    ∧ n' = Note.set_error (to_text error_msg) (Note.set_status "failed" n)
    ∧ (∀ v, d !! "error" = Some v → error_msg = v)
    ∧ (d !! "error" = None → error_msg = PStr "Transcription not found").
Proof.
  apply (synthesize_without_transcription_is_final world_ok 0
           (list_to_map [("note_id", PInt 1); ("transcription", PStr "")])
           {[ 1 := Note.Make 1 "https://v/1" (Some "t1") "processing" None None None
                     (Some "") None 10 ]} ∅ 1
           (Note.Make 1 "https://v/1" (Some "t1") "processing" None None None
                      (Some "") None 10)).
  - reflexivity.
  - reflexivity.
  - reflexivity.
  - reflexivity.
Defined.

(** X4. In a chain, the error that Transcribe does not store is stored
    by Synthesize: when Transcribe finds its row and no audio file, and
    Synthesize runs next on its result, the row ends failed with the
    error text of the input of Transcribe, or "Audio file not found" when
    it has none; after the first of the two runs the row is failed with
    its error still as it was. Both tasks run once and the broker is left
    without the message. *)
Theorem missing_audio_is_recorded_by_the_chain (st : System.state) (b : list message)
    (d : gmap string pyval) (retries : nat) (w1 w2 : world) (id : Z) (n : Note.t) :
  System.db st !! id = Some n → Note.id n = id → get d "note_id" = PInt id →
  (truthy (get d "audio_path") = false
   ∨ ∃ p, get d "audio_path" = PStr p ∧ p ∉ System.disk st) →
  System.broker st = b ++ [Message (translate_audio_to_text_call d) retries
                                   [generate_study_notes_s]] →
  let error_msg := get_or d "error" (PStr "Audio file not found") in
  let st1 := System.exec (System.worker_runs (length b) w1) st in
  let st2 := System.exec (System.worker_runs (length b) w2) st1 in
  System.db st1 = <[id := Note.set_status "failed" n]> (System.db st)
  ∧ st2 = System.State
            (<[id := Note.set_error (to_text error_msg) (Note.set_status "failed" n)]>
               (System.db st))
            (System.disk st) b
  ∧ (d !! "error" = None → to_text error_msg = Some "Audio file not found").
Proof.
  intros Hn Hid Hd Hmiss Hb. cbv zeta.
  rewrite (exec_worker_last _ b _ w1 Hb). cbv zeta.
  cbn [run_call msg_call msg_retries].
  rewrite (translate_missing_audio _ _ _ _ _ _ _ Hn Hid Hd Hmiss). cbv zeta.
  cbn [fst snd trail files persisted foldl follow_up msg_chain apply_linked System.db].
  split; [reflexivity|]. split.
  - rewrite (exec_worker_last _ b _ w2) by reflexivity. cbv zeta.
    cbn [System.db System.disk run_call msg_call msg_retries].
    erewrite generate_study_notes_without_transcription;
      [|apply lookup_insert_eq|exact Hid|dict_lookup; reflexivity|dict_lookup; reflexivity].
    cbv zeta. cbn [fst snd trail files persisted foldl follow_up msg_chain].
    rewrite insert_insert_eq, app_nil_r. dict_lookup. reflexivity.
  - unfold get_or. intros ->. reflexivity.
Qed.

Lemma missing_audio_is_recorded_by_the_chain_witness :
  let n := Note.Make 1 "https://v/1" (Some "t1") "processing" (Some "u1")
                     (Some "media/u1.mp3") None None None 10 in
  let d : gmap string pyval :=
    list_to_map [("note_id", PInt 1); ("audio_id", PStr "u1");
                 ("audio_path", PStr "media/u1.mp3"); ("youtube_link", PStr "https://v/1")] in
  let st := System.State {[ 1 := n ]} ∅
              [Message (translate_audio_to_text_call d) 0 [generate_study_notes_s]] in
  let error_msg := get_or d "error" (PStr "Audio file not found") in
  let st1 := System.exec (System.worker_runs 0 world_ok) st in
  let st2 := System.exec (System.worker_runs 0 world_ok) st1 in
  System.db st1 = <[1 := Note.set_status "failed" n]> (System.db st)
  ∧ st2 = System.State
            (<[1 := Note.set_error (to_text error_msg) (Note.set_status "failed" n)]>
               (System.db st))
            (System.disk st) []
  ∧ (d !! "error" = None → to_text error_msg = Some "Audio file not found").
Proof.
  apply (missing_audio_is_recorded_by_the_chain
           (System.State
              {[ 1 := Note.Make 1 "https://v/1" (Some "t1") "processing" (Some "u1")
                                (Some "media/u1.mp3") None None None 10 ]} ∅
              [Message (translate_audio_to_text_call
                          (list_to_map [("note_id", PInt 1); ("audio_id", PStr "u1");
                                        ("audio_path", PStr "media/u1.mp3");
                                        ("youtube_link", PStr "https://v/1")]))
                       0 [generate_study_notes_s]])
           [] _ 0 world_ok world_ok 1
           (Note.Make 1 "https://v/1" (Some "t1") "processing" (Some "u1")
                      (Some "media/u1.mp3") None None None 10)).
  - reflexivity.
  - reflexivity.
  - reflexivity.
  - right. exists "media/u1.mp3". split; [reflexivity|]. cbn [System.disk]. set_solver.
  - reflexivity.
Defined.

(** X5. A provider that answers Transcribe with an empty text (no
    segments and an empty [text]) does not fail Transcribe, which stores
    the empty transcription and leaves the row processing; Synthesize,
    run next by the chain, then leaves the row failed with the error
    "Transcription not found", without asking its provider. *)
Theorem empty_transcript_fails_at_synthesize (st : System.state) (b : list message)
    (d : gmap string pyval) (retries : nat) (w1 w2 : world) (id : Z) (n : Note.t)
    (p : string) (t : Transcript.transcript) :
  System.db st !! id = Some n → Note.id n = id → get d "note_id" = PInt id →
  get d "audio_path" = PStr p → p ≠ "" → p ∈ System.disk st →
  transcriptions_create w1 = inr t → Transcript.serialize t = "" →
  System.broker st = b ++ [Message (translate_audio_to_text_call d) retries
                                   [generate_study_notes_s]] →
  let st1 := System.exec (System.worker_runs (length b) w1) st in
  let st2 := System.exec (System.worker_runs (length b) w2) st1 in
  System.db st1
  = <[id := Note.set_status "processing" (Note.set_transcription (Some "") n)]> (System.db st)
  ∧ st2 = System.State
            (<[id := Note.set_error (Some "Transcription not found")
                       (Note.set_status "failed" (Note.set_transcription (Some "") n))]>
               (System.db st))
            (System.disk st) b.
Proof.
  intros Hn Hid Hd Hp Hne Hin Hok Hempty Hb. cbv zeta.
  rewrite (exec_worker_last _ b _ w1 Hb). cbv zeta.
  cbn [run_call msg_call msg_retries].
  rewrite (translate_audio_succeeds _ _ _ _ _ _ _ _ _ Hn Hid Hd Hp Hne Hin Hok). cbv zeta.
  rewrite Hempty.
  cbn [fst snd trail files persisted foldl follow_up msg_chain apply_linked System.db].
  split; [reflexivity|].
  rewrite (exec_worker_last _ b _ w2) by reflexivity. cbv zeta.
  cbn [System.db System.disk run_call msg_call msg_retries].
  erewrite generate_study_notes_without_transcription;
    [|apply lookup_insert_eq|exact Hid|dict_lookup; reflexivity|dict_lookup; reflexivity].
  cbv zeta. cbn [fst snd trail files persisted foldl follow_up msg_chain].
  rewrite insert_insert_eq, app_nil_r. reflexivity.
Qed.

Lemma empty_transcript_fails_at_synthesize_witness :
  let n := Note.Make 1 "https://v/1" (Some "t1") "processing" (Some "u1")
                     (Some "media/u1.mp3") None None None 10 in
  let d : gmap string pyval :=
    list_to_map [("note_id", PInt 1); ("audio_id", PStr "u1");
                 ("audio_path", PStr "media/u1.mp3"); ("youtube_link", PStr "https://v/1")] in
  let w := World "u2" None (inr (Transcript.Transcript [] "")) (inl "unused") in
  let st := System.State {[ 1 := n ]} {[ "media/u1.mp3" ]}
              [Message (translate_audio_to_text_call d) 0 [generate_study_notes_s]] in
  let st1 := System.exec (System.worker_runs 0 w) st in
  let st2 := System.exec (System.worker_runs 0 w) st1 in
  System.db st1
  = <[1 := Note.set_status "processing" (Note.set_transcription (Some "") n)]> (System.db st)
  ∧ st2 = System.State
            (<[1 := Note.set_error (Some "Transcription not found")
                      (Note.set_status "failed" (Note.set_transcription (Some "") n))]>
               (System.db st))
            (System.disk st) [].
Proof.
  apply (empty_transcript_fails_at_synthesize
           (System.State
              {[ 1 := Note.Make 1 "https://v/1" (Some "t1") "processing" (Some "u1")
                                (Some "media/u1.mp3") None None None 10 ]}
              {[ "media/u1.mp3" ]}
              [Message (translate_audio_to_text_call
                          (list_to_map [("note_id", PInt 1); ("audio_id", PStr "u1");
                                        ("audio_path", PStr "media/u1.mp3");
                                        ("youtube_link", PStr "https://v/1")]))
                       0 [generate_study_notes_s]])
           []
           (list_to_map [("note_id", PInt 1); ("audio_id", PStr "u1");
                         ("audio_path", PStr "media/u1.mp3");
                         ("youtube_link", PStr "https://v/1")])
           0 (World "u2" None (inr (Transcript.Transcript [] "")) (inl "unused"))
           (World "u2" None (inr (Transcript.Transcript [] "")) (inl "unused")) 1
           (Note.Make 1 "https://v/1" (Some "t1") "processing" (Some "u1")
                      (Some "media/u1.mp3") None None None 10)
           "media/u1.mp3" (Transcript.Transcript [] "")).
  - reflexivity.
  - reflexivity.
  - reflexivity.
  - reflexivity.
  - discriminate.
  - cbn [System.disk]. set_solver.
  - reflexivity.
  - reflexivity.
  - reflexivity.
Defined.

(** ** Attempts that end well *)

Lemma provider_answers w d :
  provider_error (generate_study_notes_call d) w = None →
  ∃ r, generate_content w = inr r ∧ response_text r ≠ "".
Proof.
  unfold provider_error, generate_text. unfold_monad.
  destruct (generate_content w) as [err|r]; [discriminate|].
  destruct (negb (String.eqb (response_text r) "")) eqn:E.
  - intros _. exists r. split; [reflexivity|].
    apply String.eqb_neq, negb_true_iff, E.
  - destruct (block_reason r); discriminate.
Qed.

(** One attempt of any of the three tasks that goes through. *)
Lemma succeeded_attempt w c retries chain table disk id n :
  table !! id = Some n → Note.id n = id →
  reaches_provider c id disk → provider_error c w = None →
  ∃ result s n',
    run_call w (Message c retries chain) (SessionLocal table disk) = (Return result, s)
    ∧ persisted table (trail s) !! id = Some n'
    ∧ Note.error n' = Note.error n
    ∧ Note.status n' = status_after c.
Proof.
  intros Hn Hid Hready Hok. unfold run_call. cbn [msg_call msg_retries].
  destruct c as [link nid|d|d]; cbn [reaches_provider provider_error status_after] in *.
  - subst nid. rewrite (download_audio_succeeds _ _ _ _ _ _ _ Hn Hid Hok). cbv zeta.
    eexists _, _, _. split; [reflexivity|].
    cbn [trail persisted foldl]. rewrite lookup_insert_eq. auto.
  - destruct Hready as (Hd & p & Hp & Hne & Hin).
    destruct (transcriptions_create w) as [|t] eqn:E; [discriminate|].
    rewrite (translate_audio_succeeds _ _ _ _ _ _ _ _ _ Hn Hid Hd Hp Hne Hin E). cbv zeta.
    eexists _, _, _. split; [reflexivity|].
    cbn [trail persisted foldl]. rewrite lookup_insert_eq. auto.
  - destruct Hready as (Hd & t & Ht & Hne).
    destruct (provider_answers w d Hok) as (r & Hr & Htext).
    rewrite (generate_study_notes_succeeds _ _ _ _ _ _ _ _ _ Hn Hid Hd Ht Hne Hr Htext).
    cbv zeta. eexists _, _, _. split; [reflexivity|].
    cbn [trail persisted foldl]. rewrite lookup_insert_eq. auto.
Qed.

Lemma table_after_cons table r rs :
  table_after table (r :: rs) = table_after (persisted table (trail r.2)) rs.
Proof. reflexivity. Qed.

Lemma attempts_until_success worlds c chain disk id j : ∀ cause retries budget table n,
  table !! id = Some n → Note.id n = id →
  reaches_provider c id disk →
  (retries + j ≤ 2)%nat → (j ≤ budget)%nat →
  (∀ k, (k < j)%nat → provider_error c (worlds (retries + k)%nat) = Some (cause k)) →
  provider_error c (worlds (retries + j)%nat) = None →
  ∃ failed result s n',
    Retry.attempts budget worlds (Message c retries chain) table disk
    = failed ++ [(Return result, s)]
    ∧ length failed = j
    ∧ Forall (λ r, ∃ e, r.1 = Raise e) failed
    ∧ table_after table (failed ++ [(Return result, s)]) !! id = Some n'
    ∧ Note.error n' = Note.error n
    ∧ Note.status n' = status_after c.
Proof.
  induction j as [|j IH]; intros cause retries budget table n Hn Hid Hready Hj Hb Hfail Hok.
  - rewrite Nat.add_0_r in Hok.
    destruct (succeeded_attempt _ c retries chain _ _ _ _ Hn Hid Hready Hok)
      as (result & s & n' & R & L & E & S).
    exists [], result, s, n'. cbn [app length].
    split; [|split; [reflexivity|split; [apply Forall_nil_2|]]].
    + destruct budget; cbn [Retry.attempts msg_retries]; rewrite R; [reflexivity|].
      cbn [fst follow_up]. destruct (msg_chain _); reflexivity.
    + cbn [table_after foldl snd]. auto.
  - destruct budget as [|budget]; [lia|].
    pose proof (Hfail 0%nat ltac:(lia)) as H0. rewrite Nat.add_0_r in H0.
    destruct (failed_attempt _ c retries chain _ _ _ _ _ Hn Hid Hready H0)
      as (s1 & n1 & R1 & F1 & L1 & I1 & T1).
    assert (Hlt : (2 <=? retries)%nat = false) by (apply Nat.leb_gt; lia).
    rewrite Hlt in T1. destruct T1 as [E1 _].
    destruct (IH (λ k, cause (S k)) (S retries) budget (persisted table (trail s1)) n1 L1 I1 Hready
                 ltac:(lia) ltac:(lia)) as (failed & result & s & n' & R & Hlen & Hall & L & E & S).
    { intros k Hk. replace (S retries + k)%nat with (retries + S k)%nat by lia.
      apply Hfail. lia. }
    { replace (S retries + j)%nat with (retries + S j)%nat by lia. exact Hok. }
    exists ((Raise (Exception (cause 0%nat)), s1) :: failed), result, s, n'.
    split; [|split; [|split; [|split; [|split]]]].
    + cbn [Retry.attempts msg_retries]. rewrite R1.
      cbn [fst snd follow_up msg_retries msg_call msg_chain].
      assert ((retries <? max_retries)%nat = true) as ->
        by (apply Nat.ltb_lt; unfold max_retries; lia).
      rewrite F1, R. reflexivity.
    + cbn [length]. rewrite Hlen. reflexivity.
    + apply Forall_cons_2; [eauto|exact Hall].
    + rewrite <- app_comm_cons, table_after_cons. exact L.
    + congruence.
    + exact S.
Qed.

(** X6. A task about an existing row whose provider fails on the first
    [j] attempts ([j] at most 2) and answers on the next one is run
    [j + 1] times: the failed attempts raise, the last one returns, no
    further run follows, and the row is left with its error as it was
    before the first attempt and with the status of a task that went
    through (completed after Synthesize, processing after the two
    other tasks). *)
Theorem retries_stop_at_first_success (worlds : nat → world) (c : call)
    (chain : list linked) (cause : nat → string) (table : gmap Z Note.t)
    (disk : gset string) (id : Z) (n : Note.t) (j budget : nat) :
  table !! id = Some n → Note.id n = id →
  reaches_provider c id disk →
  (j ≤ 2)%nat → (j ≤ budget)%nat →
  (∀ k, (k < j)%nat → provider_error c (worlds k) = Some (cause k)) →
  provider_error c (worlds j) = None →
  ∃ failed result s n',
    Retry.attempts budget worlds (Message c 0 chain) table disk
    = failed ++ [(Return result, s)]
    ∧ length failed = j
    ∧ Forall (λ r, ∃ e, r.1 = Raise e) failed
    ∧ table_after table (failed ++ [(Return result, s)]) !! id = Some n'
    ∧ Note.error n' = Note.error n
    ∧ Note.status n' = status_after c.
Proof.
  intros Hn Hid Hready Hj Hb Hfail Hok.
  exact (attempts_until_success worlds c chain disk id j cause 0 budget table n
           Hn Hid Hready Hj Hb Hfail Hok).
Qed.

Lemma retries_stop_at_first_success_witness :
  ∃ failed result s n',
    let table : gmap Z Note.t :=
      {[ 1 := Note.Make 1 "https://v/1" (Some "t1") "pending" None None None None None 0 ]} in
    Retry.attempts 3 (λ k, if (k <? 2)%nat then world_down else world_ok)
      (Message (download_audio_call "https://v/1" 1) 0 []) table ∅
    = failed ++ [(Return result, s)]
    ∧ length failed = 2%nat
    ∧ Forall (λ r, ∃ e, r.1 = Raise e) failed
    ∧ table_after table (failed ++ [(Return result, s)]) !! 1 = Some n'
    ∧ Note.error n' = None
    ∧ Note.status n' = "processing".
Proof.
  apply (retries_stop_at_first_success (λ k, if (k <? 2)%nat then world_down else world_ok)
           (download_audio_call "https://v/1" 1) [] (λ _, "network down")
           {[ 1 := Note.Make 1 "https://v/1" (Some "t1") "pending" None None None None None 0 ]}
           ∅ 1 (Note.Make 1 "https://v/1" (Some "t1") "pending" None None None None None 0)
           2 3).
  - reflexivity.
  - reflexivity.
  - reflexivity.
  - lia.
  - lia.
  - intros [|[|k]] Hk; [reflexivity|reflexivity|lia].
  - reflexivity.
Defined.

(** ** What no operation does to a row *)

Lemma evolves_refl n : evolves n n.
Proof. unfold evolves. auto. Qed.

Lemma evolves_trans n1 n2 n3 : evolves n1 n2 → evolves n2 n3 → evolves n1 n3.
Proof.
  unfold evolves. intros (A1 & A2 & A3 & A4 & A5) (B1 & B2 & B3 & B4 & B5).
  repeat split; try congruence; auto.
Qed.

Lemma tracks_refl t : tracks t t.
Proof.
  split.
  - intros k n H. exists n. auto using evolves_refl.
  - intros k n H1 H2. congruence.
Qed.

Lemma tracks_trans t0 t1 t2 : tracks t0 t1 → tracks t1 t2 → tracks t0 t2.
Proof.
  intros [A1 A2] [B1 B2]. split.
  - intros k n Hn. destruct (A1 k n Hn) as (n1 & H1 & E1 & V1).
    destruct (B1 k n1 H1) as (n2 & H2 & E2 & V2).
    exists n2. split; [exact H2|]. split; [eapply evolves_trans; eauto|auto].
  - intros k n2 H0 H2. destruct (t1 !! k) as [n1|] eqn:H1.
    + destruct (B1 k n1 H1) as (n2' & H2' & _ & V2). rewrite H2 in H2'.
      injection H2' as <-. eauto.
    + eauto.
Qed.

Lemma tracks_alter t0 t k f : gentle f → tracks t0 t → tracks t0 (alter f k t).
Proof.
  intros Hf Ht. apply (tracks_trans _ t); [exact Ht|]. split.
  - intros j n Hn. destruct (decide (k = j)) as [->|Hne].
    + exists (f n). rewrite lookup_alter_eq, Hn. split; [reflexivity|apply Hf].
    + exists n. rewrite lookup_alter_ne by done. auto using evolves_refl.
  - intros j n' Hnone Hsome. destruct (decide (k = j)) as [->|Hne].
    + rewrite lookup_alter_eq, Hnone in Hsome. discriminate.
    + rewrite lookup_alter_ne in Hsome by done. congruence.
Qed.

Lemma tracks_insert_new t k n : t !! k = None → valid_status n → tracks t (<[k := n]> t).
Proof.
  intros Hk Hv. split.
  - intros j m Hm. exists m. rewrite lookup_insert_ne by congruence. auto using evolves_refl.
  - intros j m Hnone Hsome. destruct (decide (k = j)) as [->|Hne].
    + rewrite lookup_insert_eq in Hsome. injection Hsome as <-. exact Hv.
    + rewrite lookup_insert_ne in Hsome by done. congruence.
Qed.

Lemma valid_status_intro n v :
  Note.status n = v → v ∈ ["pending"; "processing"; "failed"; "completed"] → valid_status n.
Proof. intros Hs H. unfold valid_status. rewrite Hs. exact H. Qed.

Lemma gentle_set_task_id v : gentle (Note.set_task_id v).
Proof. intros n. unfold evolves, valid_status. cbn. repeat split; auto. Qed.

Lemma gentle_set_audio_id v : gentle (Note.set_audio_id v).
Proof. intros n. unfold evolves, valid_status. cbn. repeat split; auto. Qed.

Lemma gentle_set_audio_path v : gentle (Note.set_audio_path v).
Proof. intros n. unfold evolves, valid_status. cbn. repeat split; auto. Qed.

Lemma gentle_set_error v : gentle (Note.set_error v).
Proof. intros n. unfold evolves, valid_status. cbn. repeat split; auto. Qed.

Lemma gentle_set_transcription v : gentle (Note.set_transcription (Some v)).
Proof. intros n. unfold evolves, valid_status. cbn. repeat split; eauto. Qed.

Lemma gentle_set_note v : gentle (Note.set_note (Some v)).
Proof. intros n. unfold evolves, valid_status. cbn. repeat split; eauto. Qed.

Lemma gentle_set_status v :
  v ∈ ["pending"; "processing"; "failed"; "completed"] → gentle (Note.set_status v).
Proof. intros Hv n. unfold evolves, valid_status. cbn. repeat split; auto. Qed.

(** The rules of [preserves], one for each way to build a computation. *)
Section Preserves.
Context {A B : Type} (t0 : gmap Z Note.t).

Lemma preserves_ret (a : A) : preserves t0 (mret a).
Proof. intros s H. exact H. Qed.

Lemma preserves_raise (e : exn) : preserves t0 (@raise A e).
Proof. intros s H. exact H. Qed.

Lemma preserves_bind (m : M A) (f : A → M B) :
  preserves t0 m → (∀ a, preserves t0 (f a)) → preserves t0 (m ≫= f).
Proof.
  intros Hm Hf s Hs. specialize (Hm s Hs). unfold mbind, M_bind, bind.
  destruct (m s) as [[a|e] s']; [apply Hf|]; exact Hm.
Qed.

Lemma preserves_try_except (body : M A) (handler : exn → M A) :
  preserves t0 body → (∀ e, preserves t0 (handler e)) →
  preserves t0 (try_except body handler).
Proof.
  intros Hm Hh s Hs. specialize (Hm s Hs). unfold try_except.
  destruct (body s) as [[a|e] s']; [|apply Hh]; exact Hm.
Qed.
End Preserves.

Lemma preserves_try_pass t0 (body : M unit) : preserves t0 body → preserves t0 (try_pass body).
Proof. intros H. apply preserves_try_except; [exact H|]. intros e s Hs. exact Hs. Qed.

Lemma preserves_query_by_id t0 k : preserves t0 (query_by_id k).
Proof. intros s H. exact H. Qed.

Lemma preserves_query_by_pyval t0 v : preserves t0 (query_by_pyval v).
Proof. intros s H. destruct v; exact H. Qed.

Lemma preserves_path_exists t0 p : preserves t0 (path_exists p).
Proof. intros s H. exact H. Qed.

Lemma preserves_file_written t0 p : preserves t0 (file_written p).
Proof. intros s H. exact H. Qed.

Lemma preserves_delay t0 m tid : preserves t0 (delay m tid).
Proof.
  intros s [H1 H2]. split; [exact H1|]. cbn [delay snd trail].
  rewrite commits_app. cbn [commits omap list_omap]. rewrite app_nil_r. exact H2.
Qed.

Lemma preserves_commit t0 : preserves t0 commit.
Proof.
  intros s [H1 H2]. split; [exact H1|]. cbn [commit snd trail rows].
  rewrite commits_app. apply Forall_app. split; [exact H2|].
  apply Forall_cons_2; [exact H1|apply Forall_nil_2].
Qed.

Lemma preserves_assign t0 k f : gentle f → preserves t0 (assign k f).
Proof.
  intros Hf s [H1 H2]. split; [|exact H2]. cbn [assign snd rows].
  apply tracks_alter; assumption.
Qed.

Ltac known_status :=
  solve [repeat first [apply list_elem_of_here | apply list_elem_of_further]].

Ltac gentle_update :=
  first [ apply gentle_set_task_id | apply gentle_set_audio_id
        | apply gentle_set_audio_path | apply gentle_set_error
        | apply gentle_set_transcription | apply gentle_set_note
        | apply gentle_set_status; known_status ].

Ltac preserves_step :=
  lazymatch goal with
  | |- preserves _ (_ ≫= _) => apply preserves_bind; [|intros ?]
  | |- preserves _ (try_except _ _) => apply preserves_try_except; [|intros ?]
  | |- preserves _ (try_pass _) => apply preserves_try_pass
  | |- preserves _ (mret _) => apply preserves_ret
  | |- preserves _ (ret _) => apply preserves_ret
  | |- preserves _ (raise _) => apply preserves_raise
  | |- preserves _ (query_by_id _) => apply preserves_query_by_id
  | |- preserves _ (query_by_pyval _) => apply preserves_query_by_pyval
  | |- preserves _ (path_exists _) => apply preserves_path_exists
  | |- preserves _ (file_written _) => apply preserves_file_written
  | |- preserves _ (delay _ _) => apply preserves_delay
  | |- preserves _ commit => apply preserves_commit
  | |- preserves _ (assign _ _) => apply preserves_assign; gentle_update
  | |- preserves _ (match ?x with _ => _ end) => destruct x
  end.

Lemma download_audio_preserves t0 w retries link id :
  preserves t0 (download_audio w retries link id).
Proof. unfold download_audio, mark_failed_and_reraise. repeat preserves_step. Qed.

Lemma translate_audio_to_text_preserves t0 w retries d :
  preserves t0 (translate_audio_to_text w retries d).
Proof.
  unfold translate_audio_to_text, mark_failed_and_reraise, audio_file_exists.
  repeat preserves_step.
Qed.

Lemma generate_study_notes_preserves t0 w retries d :
  preserves t0 (generate_study_notes w retries d).
Proof.
  unfold generate_study_notes, mark_failed_and_reraise, generate_text.
  repeat preserves_step.
Qed.

Lemma retry_note_preserves t0 id tid : preserves t0 (Api.retry_note id tid).
Proof. unfold Api.retry_note, create_audio_transcription_chain. repeat preserves_step. Qed.

Lemma regenerate_preserves t0 n tid : preserves t0 (Api.regenerate n tid).
Proof. unfold Api.regenerate. repeat preserves_step. Qed.

Lemma regenerate_note_preserves t0 id tid : preserves t0 (Api.regenerate_note id tid).
Proof.
  unfold Api.regenerate_note. repeat preserves_step. apply regenerate_preserves.
Qed.

Lemma regenerate_loop_preserves t0 task_ids notes : ∀ count,
  preserves t0 (Api.regenerate_loop notes task_ids count).
Proof.
  induction notes as [|n notes IH]; intros count; cbn [Api.regenerate_loop].
  - apply preserves_ret.
  - apply preserves_bind; [apply regenerate_preserves|]. intros _. apply IH.
Qed.

Lemma regenerate_all_notes_preserves t0 task_ids :
  preserves t0 (Api.regenerate_all_notes task_ids).
Proof. intros s Hs. unfold Api.regenerate_all_notes. apply regenerate_loop_preserves, Hs. Qed.

Lemma tracking_start t disk : tracking t (SessionLocal t disk).
Proof. split; [apply tracks_refl|apply Forall_nil_2]. Qed.

(** The intake, by its two outcomes. *)
Lemma create_notes_tracks url now tid table disk :
  Forall (tracks table)
    (commits (trail (Api.create_notes_from_youtube url now tid (SessionLocal table disk)).2)).
Proof.
  destruct (query_existing_run url table disk []) as (found & Hq & Hfound).
  pose proof (next_id_fresh table) as Hfresh.
  assert (Hv : ∀ v, v ∈ ["pending"; "processing"; "failed"; "completed"] →
               ∀ n, Note.status n = v → tracks table (<[next_id table := n]> table)).
  { intros v Hv n Hn. apply tracks_insert_new; [exact Hfresh|].
    exact (valid_status_intro n v Hn Hv). }
  destruct found as [e|]; [destruct (truthy_text (Note.note e)) eqn:Htruthy|].
  - rewrite (create_notes_hit _ _ _ _ _ _ Hq Htruthy). cbv zeta.
    cbn [snd trail commits omap list_omap].
    apply Forall_cons_2; [|apply Forall_cons_2; [|apply Forall_nil_2]].
    + apply (Hv "pending"); [known_status|reflexivity].
    + apply (Hv "completed"); [known_status|reflexivity].
  - rewrite (create_notes_miss _ _ _ _ _ _ Hq Htruthy). cbv zeta.
    cbn [snd trail commits omap list_omap].
    apply Forall_cons_2; [|apply Forall_cons_2; [|apply Forall_nil_2]];
      apply (Hv "pending"); first [known_status | reflexivity].
  - rewrite (create_notes_miss _ _ _ _ _ _ Hq I). cbv zeta.
    cbn [snd trail commits omap list_omap].
    apply Forall_cons_2; [|apply Forall_cons_2; [|apply Forall_nil_2]];
      apply (Hv "pending"); first [known_status | reflexivity].
Qed.

(** Every table committed by an action tracks the table it started on,
    and so does the table it leaves. *)
Lemma events_track a st :
  Forall (tracks (System.db st)) (commits (System.events_of a st)).
Proof.
  pose proof (tracking_start (System.db st) (System.disk st)) as Hs.
  destruct a as [url now tid|id tid|tids|id tid|i w|files']; cbn [System.events_of].
  - apply create_notes_tracks.
  - exact (proj2 (retry_note_preserves _ id tid _ Hs)).
  - exact (proj2 (regenerate_all_notes_preserves _ tids _ Hs)).
  - exact (proj2 (regenerate_note_preserves _ id tid _ Hs)).
  - destruct (System.broker st !! i) as [m|]; [|apply Forall_nil_2].
    unfold run_call. destruct (msg_call m).
    + exact (proj2 (download_audio_preserves _ _ _ _ _ _ Hs)).
    + exact (proj2 (translate_audio_to_text_preserves _ _ _ _ _ Hs)).
    + exact (proj2 (generate_study_notes_preserves _ _ _ _ _ Hs)).
  - apply Forall_nil_2.
Qed.

Lemma exec_tracks a st : tracks (System.db st) (System.db (System.exec a st)).
Proof.
  unfold System.exec. cbn [System.db].
  apply (persisted_commits (tracks (System.db st))); [apply tracks_refl|apply events_track].
Qed.

Lemma run_tracks acts : ∀ st, tracks (System.db st) (System.db (System.run acts st)).
Proof.
  induction acts as [|a acts IH]; intros st; [apply tracks_refl|].
  cbn [System.run foldl]. eapply tracks_trans; [apply exec_tracks|apply IH].
Qed.

Lemma tracks_valid t0 t :
  (∀ k n, t0 !! k = Some n → valid_status n) → tracks t0 t →
  ∀ k n, t !! k = Some n → valid_status n.
Proof.
  intros H0 [Hold Hnew] k n Hn. destruct (t0 !! k) as [n0|] eqn:E.
  - destruct (Hold k n0 E) as (n' & Hn' & _ & Hv). rewrite Hn in Hn'. injection Hn' as <-.
    eauto.
  - eauto.
Qed.

Lemma reachable_valid st :
  System.reachable st → ∀ k n, System.db st !! k = Some n → valid_status n.
Proof.
  induction 1 as [|a st _ IH].
  - intros k n H. unfold System.initial in H. cbn [System.db] in H.
    rewrite lookup_empty in H. discriminate.
  - eapply tracks_valid; [exact IH|apply exec_tracks].
Qed.

(** X7. No sequence of actions (requests, runs of the workers, changes
    of the disk) deletes a row, changes its id, its URL or its creation
    time, or takes back a transcription or notes once they are stored;
    and the same holds in every table committed on the way by the next
    action. *)
Theorem rows_are_kept (acts : list System.action) (a : System.action)
    (st : System.state) (k : Z) (n : Note.t) :
  System.db st !! k = Some n →
  (∃ n', System.db (System.run acts st) !! k = Some n'
         ∧ Note.id n' = Note.id n
         ∧ Note.youtube_url n' = Note.youtube_url n
         ∧ Note.created_at n' = Note.created_at n
         ∧ (is_Some (Note.transcription n) → is_Some (Note.transcription n'))
         ∧ (is_Some (Note.note n) → is_Some (Note.note n')))
  ∧ (∀ table, table ∈ commits (System.events_of a (System.run acts st)) →
              ∃ n', table !! k = Some n' ∧ evolves n n').
Proof.
  intros Hn. destruct (run_tracks acts st) as [Hold _].
  destruct (Hold k n Hn) as (n1 & H1 & E1 & _). split.
  - exists n1. split; [exact H1|exact E1].
  - intros table Hin. pose proof (events_track a (System.run acts st)) as Hall.
    rewrite Forall_forall in Hall. destruct (Hall table Hin) as [Hold' _].
    destruct (Hold' k n1 H1) as (n2 & H2 & E2 & _).
    exists n2. split; [exact H2|]. eapply evolves_trans; eauto.
Qed.

Lemma rows_are_kept_witness :
  let st := System.run notes_fail_trace System.initial in
  let n := Note.Make 1 "https://v/1" (Some "t1") "failed" (Some "u1") (Some "media/u1.mp3")
             (Some "Study notes generation failed after 3 attempts: gemini down")
             (Some "[0.00s -> 1.50s]  hi") None 10 in
  let acts := [System.disk_changes ∅; System.post_retry 1 "t2";
               System.worker_runs 0 world_down] in
  (∃ n', System.db (System.run acts st) !! 1 = Some n'
         ∧ Note.id n' = Note.id n
         ∧ Note.youtube_url n' = Note.youtube_url n
         ∧ Note.created_at n' = Note.created_at n
         ∧ (is_Some (Note.transcription n) → is_Some (Note.transcription n'))
         ∧ (is_Some (Note.note n) → is_Some (Note.note n')))
  ∧ (∀ table, table ∈ commits (System.events_of (System.post_regenerate_note 1 "t3")
                                 (System.run acts st)) →
              ∃ n', table !! 1 = Some n' ∧ evolves n n').
Proof.
  apply (rows_are_kept [System.disk_changes ∅; System.post_retry 1 "t2";
                        System.worker_runs 0 world_down]
           (System.post_regenerate_note 1 "t3")
           (System.run notes_fail_trace System.initial) 1).
  vm_compute. reflexivity.
Defined.

(** X8. In every reachable state the status of every row is one of
    pending, processing, failed and completed; so the read handlers
    never fall back to Pending for a status they do not know and never
    raise: the answer built from a row names the status of the row. *)
Theorem status_is_always_known (st : System.state) (k : Z) (n : Note.t)
    (isoformat : Z → string) (updated_at_of : Z → option Z) (s : session) :
  System.reachable st → System.db st !! k = Some n →
  Note.status n ∈ ["pending"; "processing"; "failed"; "completed"]
  ∧ ∃ r, Views.notes_response isoformat updated_at_of n s = (Return r, s)
         ∧ Views.value (Views.status r) = Note.status n.
Proof.
  intros Hreach Hn. pose proof (reachable_valid st Hreach k n Hn) as Hv.
  split; [exact Hv|]. unfold Views.notes_response.
  rewrite (bool_decide_eq_true_2 _ Hv). unfold valid_status in Hv.
  cbn [fmap list_fmap Views.members Views.value] in Hv.
  unfold Views.Status_of. unfold_monad.
  repeat (apply elem_of_cons in Hv as [Hv|Hv];
          [rewrite Hv; eexists; split; reflexivity|]).
  apply elem_of_nil in Hv. destruct Hv.
Qed.

Lemma status_is_always_known_witness :
  let st := System.run resume_without_audio_trace System.initial in
  let n := Note.Make 1 "https://v/1" (Some "t3") "completed" None None None
             (Some "[0.00s -> 1.50s]  hi")
             (Some "<notes>[0:01](https://v/1?t=1)</notes>") 10 in
  Note.status n ∈ ["pending"; "processing"; "failed"; "completed"]
  ∧ ∃ r, Views.notes_response (λ _, "") (λ _, None) n (SessionLocal (System.db st) ∅)
         = (Return r, SessionLocal (System.db st) ∅)
         ∧ Views.value (Views.status r) = Note.status n.
Proof.
  apply (status_is_always_known (System.run resume_without_audio_trace System.initial) 1).
  - apply reachable_run, System.reachable_initial.
  - vm_compute. reflexivity.
Defined.

(** ** The runs a message can cause *)

Lemma runs_left_delete (l : list message) : ∀ i m,
  l !! i = Some m →
  (sum_list_with runs_left (delete i l) + runs_left m)%nat = sum_list_with runs_left l.
Proof.
  induction l as [|x l IH]; intros [|i] m H; try discriminate.
  - injection H as ->. change (delete 0%nat (m :: l)) with l. cbn [sum_list_with]. lia.
  - cbn in H. change (delete (S i) (x :: l)) with (x :: delete i l).
    cbn [sum_list_with]. specialize (IH i m H). lia.
Qed.

(** Whatever a run returns or raises, what Celery sends next can cause
    fewer runs than the message that was run. *)
Lemma follow_up_runs_left m o :
  (sum_list_with runs_left (follow_up m o) < runs_left m)%nat.
Proof.
  unfold follow_up, runs_left, max_retries. destruct o as [d|e].
  - destruct (msg_chain m) as [|next rest]; cbn; lia.
  - destruct (msg_retries m <? 2)%nat eqn:E; cbn; [|lia].
    apply Nat.ltb_lt in E. lia.
Qed.

Lemma worker_run_counts st i w :
  is_Some (System.broker st !! i) →
  (pending_runs (System.exec (System.worker_runs i w) st) < pending_runs st)%nat.
Proof.
  intros [m Hm]. unfold pending_runs, System.exec. cbn [System.broker System.broker_after].
  rewrite Hm, sum_list_with_app.
  pose proof (runs_left_delete _ _ _ Hm).
  pose proof (follow_up_runs_left m
                (run_call w m (SessionLocal (System.db st) (System.disk st))).1).
  lia.
Qed.

(** X9. The workers come to an end: as long as no request adds a
    message, a sequence of runs of the workers, each on a message of the
    broker, is at most as long as the bound [pending_runs] of the broker
    it started on, which every run makes smaller. The chain sent for a
    job counts for 9 runs (three attempts of each of its three tasks),
    the single task sent by the regenerate handlers for 3. *)
Theorem worker_runs_are_bounded (acts : list System.action) (st : System.state)
    (url : string) (id : Z) (n : Note.t) :
  takes_messages acts st →
  (length acts + pending_runs (System.run acts st) ≤ pending_runs st)%nat
  ∧ runs_left (create_audio_transcription_chain url id) = 9%nat
  ∧ runs_left (regenerate_message n) = 3%nat.
Proof.
  intros H. split; [|split; reflexivity]. revert st H.
  induction acts as [|a acts IH]; intros st H; cbn [length System.run foldl]; [lia|].
  destruct H as [Ha Hrest]. specialize (IH _ Hrest). unfold System.run in IH.
  destruct a as [| | | |i w|]; try contradiction.
  pose proof (worker_run_counts st i w Ha). lia.
Qed.

Lemma worker_runs_are_bounded_witness :
  let st := System.exec (System.post_notes_youtube "https://v/1" 10 "t1") System.initial in
  let acts := [System.worker_runs 0 world_ok; System.worker_runs 0 world_ok;
               System.worker_runs 0 world_down; System.worker_runs 0 world_down;
               System.worker_runs 0 world_down] in
  (length acts + pending_runs (System.run acts st) ≤ pending_runs st)%nat
  ∧ runs_left (create_audio_transcription_chain "https://v/1" 1) = 9%nat
  ∧ runs_left (regenerate_message
                 (Note.Make 1 "https://v/1" None "failed" None None None (Some "x") None 10))
    = 3%nat.
Proof.
  apply (worker_runs_are_bounded
           [System.worker_runs 0 world_ok; System.worker_runs 0 world_ok;
            System.worker_runs 0 world_down; System.worker_runs 0 world_down;
            System.worker_runs 0 world_down]
           (System.exec (System.post_notes_youtube "https://v/1" 10 "t1") System.initial)).
  vm_compute. repeat split; eauto.
Defined.

(** ** The handlers, case by case *)

(** X10. On a table with no completed row for the URL, the intake
    creates a row under a fresh id, pending and with the id of the task,
    leaves the other rows and the disk as they were, sends one message
    (the chain download, transcription, notes for the URL and the new
    id, at retry count 0) and answers Pending with the id of the task,
    not the id of the row. *)
Theorem intake_without_cache (st : System.state) (url : string) (now : Z) (tid : string) :
  (∀ k n, System.db st !! k = Some n → Note.youtube_url n = url →
          Note.status n ≠ "completed") →
  let new_id := next_id (System.db st) in
  let st' := System.exec (System.post_notes_youtube url now tid) st in
  System.db st !! new_id = None
  ∧ System.db st'
    = <[new_id := Note.Make new_id url (Some tid) "pending" None None None None None now]>
        (System.db st)
  ∧ System.disk st' = System.disk st
  ∧ System.broker st'
    = System.broker st
      ++ [Message (download_audio_call url new_id) 0
                  [translate_audio_to_text_s; generate_study_notes_s]]
  ∧ (Api.create_notes_from_youtube url now tid
       (SessionLocal (System.db st) (System.disk st))).1
    = Return (Api.ImportResponse Api.PENDING tid).
Proof.
  intros Hmiss. cbv zeta. split; [apply next_id_fresh|].
  rewrite (exec_intake_miss _ _ _ _ Hmiss). cbv zeta. cbn [System.db System.disk System.broker].
  repeat (split; [reflexivity|]).
  destruct (query_existing_run url (System.db st) (System.disk st) []) as (found & Hq & Hfound).
  destruct found as [e|].
  { destruct Hfound as ([k Hk] & Hc & _). apply cached_spec in Hc as (Hu & Hs & _).
    destruct (Hmiss _ _ Hk Hu Hs). }
  rewrite (create_notes_miss _ _ _ _ _ _ Hq I). reflexivity.
Qed.

Lemma intake_without_cache_witness :
  let st := System.run notes_fail_trace System.initial in
  let new_id := next_id (System.db st) in
  let st' := System.exec (System.post_notes_youtube "https://v/1" 20 "t7") st in
  System.db st !! new_id = None
  ∧ System.db st'
    = <[new_id := Note.Make new_id "https://v/1" (Some "t7") "pending" None None None None
                            None 20]> (System.db st)
  ∧ System.disk st' = System.disk st
  ∧ System.broker st'
    = System.broker st
      ++ [Message (download_audio_call "https://v/1" new_id) 0
                  [translate_audio_to_text_s; generate_study_notes_s]]
  ∧ (Api.create_notes_from_youtube "https://v/1" 20 "t7"
       (SessionLocal (System.db st) (System.disk st))).1
    = Return (Api.ImportResponse Api.PENDING "t7").
Proof.
  apply (intake_without_cache (System.run notes_fail_trace System.initial)
           "https://v/1" 20 "t7").
  intros k n Hn _ Hs.
  change (System.db (System.run notes_fail_trace System.initial))
    with ({[ 1 := Note.Make 1 "https://v/1" (Some "t1") "failed" (Some "u1")
                    (Some "media/u1.mp3")
                    (Some "Study notes generation failed after 3 attempts: gemini down")
                    (Some "[0.00s -> 1.50s]  hi") None 10 ]} : gmap Z Note.t) in Hn.
  apply lookup_singleton_Some in Hn as [_ <-]. discriminate Hs.
Defined.

(** X11. The requests that change nothing. For an id that is in no row,
    the retry handler, the regenerate handler and the read handler raise
    404 "Note not found". On a row, the retry handler answers Completed
    when the row is completed with notes; the regenerate handler raises
    400 when the transcription is null or empty, and answers Completed
    when the notes are not empty (whatever the status). In all these
    cases nothing is committed and no task is sent. *)
Theorem requests_without_effect (table : gmap Z Note.t) (disk : gset string) (id : Z)
    (tid : string) (isoformat : Z → string) (updated_at_of : Z → option Z) :
  let s := SessionLocal table disk in
  match table !! id with
  | None =>
    Api.retry_note id tid s = (Raise (HTTPException 404 "Note not found"), s)
    ∧ Api.regenerate_note id tid s = (Raise (HTTPException 404 "Note not found"), s)
    ∧ Views.get_note isoformat updated_at_of id s
      = (Raise (HTTPException 404 "Note not found"), s)
  | Some n =>
    (Note.status n = "completed" → truthy_text (Note.note n) = true →
     Api.retry_note id tid s
     = (Return (Api.ImportResponse Api.COMPLETED (pretty (Note.id n))), s))
    ∧ (truthy_text (Note.transcription n) = false →
       Api.regenerate_note id tid s
       = (Raise (HTTPException 400
                   "Note does not have transcription. Cannot generate study notes."), s))
    ∧ (truthy_text (Note.transcription n) = true → truthy_text (Note.note n) = true →
       Api.regenerate_note id tid s
       = (Return (Api.ImportResponse Api.COMPLETED (pretty (Note.id n))), s))
  end.
Proof.
  cbv zeta. unfold Api.retry_note, Api.regenerate_note, Views.get_note. unfold_monad.
  destruct (table !! id) as [n|].
  - split; [|split].
    + intros -> ->. reflexivity.
    + intros ->. reflexivity.
    + intros -> ->. reflexivity.
  - auto.
Qed.

(** The regenerate handler on a row with a transcription and no notes. *)
Lemma regenerate_note_run table disk id n tid :
  table !! id = Some n → Note.id n = id →
  truthy_text (Note.transcription n) = true → truthy_text (Note.note n) = false →
  Api.regenerate_note id tid (SessionLocal table disk)
  = let t1 := <[id := Note.set_error None (Note.set_status "failed" n)]> table in
    let t2 := <[id := regenerated tid n]> table in
    (Return (Api.ImportResponse Api.PENDING tid),
     Session t2 disk [Committed t1; Delayed (regenerate_message n); Committed t2]).
Proof.
  intros Hn Hid Ht Hnote. unfold Api.regenerate_note.
  unfold mbind, M_bind, bind at 1. unfold query_by_id, SessionLocal. cbn [rows].
  rewrite Hn, Ht, Hnote. cbn [negb]. unfold bind.
  rewrite <- Hid in Hn. rewrite (regenerate_run _ _ _ _ _ _ Hn). cbv zeta.
  rewrite Hid. reflexivity.
Qed.

(** X12. The regenerate handler and one run of Synthesize complete a
    job from its stored transcription alone: for a row with a non-empty
    transcription and no notes (whatever its status, its error and its
    audio path), the handler commits the row failed with a null error,
    sends one Synthesize task and commits the row processing with the id
    of the task; when the provider then answers with a non-empty text,
    the row is left completed with the rewritten notes and a null error,
    and the broker and the disk are as before. *)
Theorem regenerate_completes_from_transcript (st : System.state) (id : Z) (tid : string)
    (w : world) (n : Note.t) (t : string) (r : response) :
  System.db st !! id = Some n → Note.id n = id →
  Note.transcription n = Some t → t ≠ "" → truthy_text (Note.note n) = false →
  generate_content w = inr r → response_text r ≠ "" →
  let request := System.post_regenerate_note id tid in
  let notes := Rewrite.postprocess (response_text r) (PStr (Note.youtube_url n)) in
  System.events_of request st
  = [Committed (<[id := Note.set_error None (Note.set_status "failed" n)]> (System.db st));
     Delayed (Message (generate_study_notes_call (Api.transcription_data_of n)) 0 []);
     Committed (<[id := regenerated tid n]> (System.db st))]
  ∧ System.run [request; System.worker_runs (length (System.broker st)) w] st
    = System.State
        (<[id := Note.set_status "completed"
                   (Note.set_note (Some notes) (regenerated tid n))]> (System.db st))
        (System.disk st) (System.broker st).
Proof.
  intros Hn Hid Ht Hne Hnote Hok Htext. cbv zeta.
  assert (Htruthy : truthy_text (Note.transcription n) = true).
  { rewrite Ht. apply negb_true_iff, String.eqb_neq, Hne. }
  assert (Hev : System.events_of (System.post_regenerate_note id tid) st
                = [Committed (<[id := Note.set_error None (Note.set_status "failed" n)]>
                                (System.db st));
                   Delayed (regenerate_message n);
                   Committed (<[id := regenerated tid n]> (System.db st))]).
  { cbn [System.events_of].
    rewrite (regenerate_note_run _ _ _ _ _ Hn Hid Htruthy Hnote). reflexivity. }
  split; [exact Hev|].
  unfold System.run. cbn [foldl].
  assert (Hst : System.exec (System.post_regenerate_note id tid) st
                = System.State (<[id := regenerated tid n]> (System.db st)) (System.disk st)
                               (System.broker st ++ [regenerate_message n])).
  { unfold System.exec. cbn [System.disk_after System.broker_after]. rewrite Hev.
    reflexivity. }
  rewrite Hst. rewrite (exec_worker_last _ (System.broker st) _ w) by reflexivity.
  cbv zeta. cbn [System.db System.disk run_call msg_call msg_retries regenerate_message].
  erewrite generate_study_notes_succeeds;
    [|apply lookup_insert_eq|exact Hid
     |unfold Api.transcription_data_of; dict_lookup; rewrite Hid; reflexivity
     |unfold Api.transcription_data_of; dict_lookup; rewrite Ht; reflexivity
     |exact Hne|exact Hok|exact Htext].
  cbv zeta. cbn [fst snd trail files persisted foldl follow_up msg_chain].
  rewrite insert_insert_eq, app_nil_r. unfold Api.transcription_data_of. dict_lookup.
  reflexivity.
Qed.

Lemma regenerate_completes_from_transcript_witness :
  let st := System.run notes_fail_trace System.initial in
  let n := Note.Make 1 "https://v/1" (Some "t1") "failed" (Some "u1") (Some "media/u1.mp3")
             (Some "Study notes generation failed after 3 attempts: gemini down")
             (Some "[0.00s -> 1.50s]  hi") None 10 in
  let request := System.post_regenerate_note 1 "t3" in
  let notes := Rewrite.postprocess "<notes>[00:01]</notes>" (PStr "https://v/1") in
  System.events_of request st
  = [Committed (<[1 := Note.set_error None (Note.set_status "failed" n)]> (System.db st));
     Delayed (Message (generate_study_notes_call (Api.transcription_data_of n)) 0 []);
     Committed (<[1 := regenerated "t3" n]> (System.db st))]
  ∧ System.run [request; System.worker_runs (length (System.broker st)) world_ok] st
    = System.State
        (<[1 := Note.set_status "completed"
                  (Note.set_note (Some notes) (regenerated "t3" n))]> (System.db st))
        (System.disk st) (System.broker st).
Proof.
  apply (regenerate_completes_from_transcript (System.run notes_fail_trace System.initial)
           1 "t3" world_ok
           (Note.Make 1 "https://v/1" (Some "t1") "failed" (Some "u1") (Some "media/u1.mp3")
              (Some "Study notes generation failed after 3 attempts: gemini down")
              (Some "[0.00s -> 1.50s]  hi") None 10)
           "[0.00s -> 1.50s]  hi" (Response "<notes>[00:01]</notes>" None)).
  - vm_compute. reflexivity.
  - reflexivity.
  - reflexivity.
  - discriminate.
  - reflexivity.
  - reflexivity.
  - discriminate.
Defined.

(** The loop of [regenerate_all_notes] on rows of distinct ids. *)
Lemma regenerate_loop_run task_ids disk : ∀ notes count t tr,
  NoDup (Note.id <$> notes) → (∀ n, n ∈ notes → t !! Note.id n = Some n) →
  ∃ t' evs,
    Api.regenerate_loop notes task_ids count (Session t disk tr)
    = (Return (count + length notes)%nat, Session t' disk (tr ++ evs))
    ∧ persisted t evs = t'
    ∧ delayed evs = regenerate_message <$> notes
    ∧ (∀ i n, notes !! i = Some n →
              t' !! Note.id n = Some (regenerated (task_ids (count + i)%nat) n))
    ∧ (∀ k, k ∉ Note.id <$> notes → t' !! k = t !! k).
Proof.
  induction notes as [|n notes IH]; intros count t tr Hnodup Hrows.
  - exists t, []. cbn [Api.regenerate_loop length]. unfold ret.
    rewrite Nat.add_0_r, app_nil_r. repeat split; auto. intros i n H. discriminate.
  - cbn [fmap list_fmap] in Hnodup. apply NoDup_cons in Hnodup as [Hfresh Hnodup].
    assert (Hn : t !! Note.id n = Some n) by (apply Hrows; left).
    cbn [Api.regenerate_loop]. unfold mbind, M_bind, bind.
    rewrite (regenerate_run _ _ _ _ _ _ Hn). cbv zeta.
    fold (regenerated (task_ids count) n).
    change (Message (generate_study_notes_call (Api.transcription_data_of n)) 0 [])
      with (regenerate_message n).
    destruct (IH (S count) (<[Note.id n := regenerated (task_ids count) n]> t)
                 (tr ++ [Committed (<[Note.id n := Note.set_error None
                                                      (Note.set_status "failed" n)]> t);
                         Delayed (regenerate_message n);
                         Committed (<[Note.id n := regenerated (task_ids count) n]> t)])
                 Hnodup)
      as (t' & evs & R & P & D & Hpicked & Hother).
    { intros m Hm. rewrite lookup_insert_ne; [apply Hrows; right; exact Hm|].
      intros E. apply Hfresh. rewrite E. apply list_elem_of_fmap. eauto. }
    exists t', ([Committed (<[Note.id n := Note.set_error None
                                             (Note.set_status "failed" n)]> t);
                 Delayed (regenerate_message n);
                 Committed (<[Note.id n := regenerated (task_ids count) n]> t)] ++ evs).
    split; [|split; [|split; [|split]]].
    + rewrite R. cbn [length].
      rewrite app_assoc. do 2 f_equal. lia.
    + rewrite persisted_app. exact P.
    + rewrite delayed_app, D. reflexivity.
    + intros [|i] m Hm.
      * injection Hm as <-. rewrite Hother by exact Hfresh.
        rewrite lookup_insert_eq, Nat.add_0_r. reflexivity.
      * cbn in Hm. rewrite (Hpicked i m Hm). do 3 f_equal. lia.
    + intros k Hk. cbn [fmap list_fmap] in Hk. apply not_elem_of_cons in Hk as [Hne Hk].
      rewrite (Hother k Hk). apply lookup_insert_ne. congruence.
Qed.

Lemma keyed_scan_ids (table : gmap Z Note.t) :
  keyed table → Note.id <$> (map_to_list table).*2 = (map_to_list table).*1.
Proof.
  intros Hk. rewrite <- list_fmap_compose. apply list_fmap_ext.
  intros i [k n] Hin. cbn. apply Hk. apply elem_of_map_to_list.
  eapply list_elem_of_lookup_2, Hin.
Qed.

Lemma NoDup_ids_filter (f : Note.t → bool) l :
  NoDup (Note.id <$> l) → NoDup (Note.id <$> List.filter f l).
Proof.
  induction l as [|n l IH]; intros H; [constructor|].
  cbn [fmap list_fmap] in H. apply NoDup_cons in H as [Hn H].
  cbn [List.filter]. destruct (f n); [|auto].
  cbn [fmap list_fmap]. apply NoDup_cons. split; [|auto].
  intros Hin. apply Hn. apply list_elem_of_fmap in Hin as (m & E & Hm).
  apply list_elem_of_fmap. exists m. split; [exact E|].
  apply list_elem_of_In in Hm. apply filter_In in Hm as [Hm _].
  apply list_elem_of_In, Hm.
Qed.

(** X13. The regenerate-all handler, on a table keyed by id: it picks
    the rows whose transcription is not null and whose notes are null
    (an empty transcription is picked, empty notes are not), answers
    with their number, sends one Synthesize task for each of them, in
    the order of the scan, and leaves each of them processing, with a
    null error and the id of its task; the other rows and the disk are
    as before. *)
Theorem regenerate_all_picks (table : gmap Z Note.t) (disk : gset string)
    (task_ids : nat → string) :
  keyed table →
  let picked := List.filter needs_notes (map_to_list table).*2 in
  ∃ s,
    Api.regenerate_all_notes task_ids (SessionLocal table disk)
    = (Return (length picked), s)
    ∧ files s = disk
    ∧ delayed (trail s) = regenerate_message <$> picked
    ∧ (∀ n, n ∈ picked
            ↔ ∃ k, table !! k = Some n ∧ is_Some (Note.transcription n) ∧ Note.note n = None)
    ∧ (∀ i n, picked !! i = Some n →
              persisted table (trail s) !! Note.id n = Some (regenerated (task_ids i) n))
    ∧ (∀ k n, table !! k = Some n → needs_notes n = false →
              persisted table (trail s) !! k = Some n).
Proof.
  intros Hkeyed picked.
  assert (Hpick : ∀ n, n ∈ picked
            ↔ ∃ k, table !! k = Some n ∧ is_Some (Note.transcription n) ∧ Note.note n = None).
  { intros n. subst picked. rewrite list_elem_of_In, filter_In, scanned_row.
    unfold needs_notes. rewrite andb_true_iff, negb_true_iff. split.
    - intros ([k Hk] & Ht & Hnote). exists k. split; [exact Hk|].
      destruct (Note.transcription n); [|discriminate].
      destruct (Note.note n); [discriminate|]. eauto.
    - intros (k & Hk & [t Ht] & Hnote). rewrite Ht, Hnote. eauto. }
  destruct (regenerate_loop_run task_ids disk picked 0 table [])
    as (t' & evs & R & P & D & Hpicked & Hother).
  { subst picked. apply NoDup_ids_filter. rewrite (keyed_scan_ids _ Hkeyed).
    apply NoDup_fst_map_to_list. }
  { intros n Hn. apply Hpick in Hn as (k & Hk & _). rewrite (Hkeyed _ _ Hk). exact Hk. }
  exists (Session t' disk evs). unfold Api.regenerate_all_notes. cbn [rows SessionLocal].
  split; [exact R|]. cbn [files trail]. rewrite P.
  split; [reflexivity|]. split; [exact D|]. split; [exact Hpick|].
  split; [exact Hpicked|].
  intros k n Hk Hno. rewrite Hother; [exact Hk|].
  intros Hin. apply list_elem_of_fmap in Hin as (m & E & Hm).
  pose proof Hm as Hm'. apply Hpick in Hm' as (j & Hj & _).
  rewrite (Hkeyed _ _ Hj) in E. subst j. rewrite Hk in Hj. injection Hj as <-.
  subst picked. apply list_elem_of_In, filter_In in Hm as [_ Hyes]. congruence.
Qed.

Lemma regenerate_all_picks_witness :
  let table : gmap Z Note.t :=
    {[ 1 := Note.Make 1 "https://v/1" (Some "t1") "failed" None None (Some "boom")
                      (Some "") None 10;
       2 := Note.Make 2 "https://v/2" (Some "t2") "processing" None None None
                      (Some "[0.00s -> 1.50s] hi") (Some "") 11 ]} in
  let picked := List.filter needs_notes (map_to_list table).*2 in
  ∃ s,
    Api.regenerate_all_notes (λ _, "t9") (SessionLocal table ∅) = (Return (length picked), s)
    ∧ files s = ∅
    ∧ delayed (trail s) = regenerate_message <$> picked
    ∧ (∀ n, n ∈ picked
            ↔ ∃ k, table !! k = Some n ∧ is_Some (Note.transcription n) ∧ Note.note n = None)
    ∧ (∀ i n, picked !! i = Some n →
              persisted table (trail s) !! Note.id n = Some (regenerated "t9" n))
    ∧ (∀ k n, table !! k = Some n → needs_notes n = false →
              persisted table (trail s) !! k = Some n).
Proof.
  apply (regenerate_all_picks
           {[ 1 := Note.Make 1 "https://v/1" (Some "t1") "failed" None None (Some "boom")
                             (Some "") None 10;
              2 := Note.Make 2 "https://v/2" (Some "t2") "processing" None None None
                             (Some "[0.00s -> 1.50s] hi") (Some "") 11 ]}
           ∅ (λ _, "t9")).
  intros k n Hn. apply lookup_insert_Some in Hn as [[<- <-]|[_ Hn]]; [reflexivity|].
  apply lookup_singleton_Some in Hn as [<- <-]. reflexivity.
Defined.

(** ** A resume against the chain *)

(** X14. After a download that went through for a row that has no
    transcription, a resume request sends exactly the message that the
    chain sends next on its own: Transcribe on the dictionary returned by
    the download, followed by Synthesize. (So a resume made while that
    message is still in the broker makes the transcription run twice.) *)
Theorem resume_after_download_repeats_the_chain (w : world) (retries : nat)
    (table : gmap Z Note.t) (disk : gset string) (id : Z) (n : Note.t) (tid : string) :
  table !! id = Some n → Note.id n = id → Note.transcription n = None →
  ydl_download w = None →
  let chain := Message (download_audio_call (Note.youtube_url n) id) retries
                       [translate_audio_to_text_s; generate_study_notes_s] in
  let r := run_call w chain (SessionLocal table disk) in
  delayed (trail (Api.retry_note id tid
                    (SessionLocal (persisted table (trail r.2)) (files r.2))).2)
  = follow_up chain r.1
  ∧ follow_up chain r.1
    = [Message (translate_audio_to_text_call
                  (list_to_map [("note_id", PInt id); ("audio_id", PStr (uuid4 w));
                                ("audio_path", PStr (output_file w));
                                ("youtube_link", PStr (Note.youtube_url n))]))
               0 [generate_study_notes_s]].
Proof.
  intros Hn Hid Ht Hok. cbv zeta. cbn [run_call msg_call msg_retries].
  rewrite (download_audio_succeeds _ _ _ _ _ _ _ Hn Hid Hok). cbv zeta.
  cbn [fst snd trail files persisted foldl follow_up msg_chain apply_linked].
  split; [|reflexivity].
  erewrite retry_note_run; [|apply lookup_insert_eq|exact Hid].
  cbn [Note.status Note.set_status String.eqb Ascii.eqb Bool.eqb andb].
  cbv zeta. cbn [snd trail delayed omap list_omap].
  unfold retry_message, retry_audio_exists.
  cbn [Note.audio_path Note.set_status Note.set_audio_path Note.set_audio_id
       Note.transcription default].
  assert (truthy_text (Some (output_file w)) = true) as ->.
  { apply negb_true_iff, String.eqb_neq, output_file_not_empty. }
  rewrite bool_decide_eq_true_2 by set_solver. rewrite Ht. cbn [andb Api.is_some].
  unfold Api.audio_data_of.
  cbn [Note.id Note.audio_id Note.audio_path Note.youtube_url Note.set_status
       Note.set_audio_path Note.set_audio_id of_text default].
  rewrite Hid. unfold Datatypes.id.
  assert ((if truthy_text (Some (uuid4 w)) then uuid4 w else "") = uuid4 w) as ->.
  { unfold truthy_text. destruct (String.eqb (uuid4 w) "") eqn:E; [|reflexivity].
    apply String.eqb_eq in E. rewrite E. reflexivity. }
  reflexivity.
Qed.

Lemma resume_after_download_repeats_the_chain_witness :
  let n := Note.Make 1 "https://v/1" (Some "t1") "pending" None None None None None 10 in
  let table : gmap Z Note.t := {[ 1 := n ]} in
  let chain := Message (download_audio_call (Note.youtube_url n) 1) 0
                       [translate_audio_to_text_s; generate_study_notes_s] in
  let r := run_call world_ok chain (SessionLocal table ∅) in
  delayed (trail (Api.retry_note 1 "t2"
                    (SessionLocal (persisted table (trail r.2)) (files r.2))).2)
  = follow_up chain r.1
  ∧ follow_up chain r.1
    = [Message (translate_audio_to_text_call
                  (list_to_map [("note_id", PInt 1); ("audio_id", PStr (uuid4 world_ok));
                                ("audio_path", PStr (output_file world_ok));
                                ("youtube_link", PStr (Note.youtube_url n))]))
               0 [generate_study_notes_s]].
Proof.
  apply (resume_after_download_repeats_the_chain world_ok 0
           {[ 1 := Note.Make 1 "https://v/1" (Some "t1") "pending" None None None None None 10 ]}
           ∅ 1 (Note.Make 1 "https://v/1" (Some "t1") "pending" None None None None None 10)
           "t2").
  - reflexivity.
  - reflexivity.
  - reflexivity.
  - reflexivity.
Defined.

(** Synthesize reads four entries of its dictionary. *)
Lemma generate_study_notes_reads w retries (d d' : gmap string pyval) :
  get d "note_id" = get d' "note_id" →
  get d "transcription" = get d' "transcription" →
  get d "youtube_link" = get d' "youtube_link" →
  d !! "error" = d' !! "error" →
  generate_study_notes w retries d = generate_study_notes w retries d'.
Proof.
  intros H1 H2 H3 H4. unfold generate_study_notes, get_or. rewrite H1, H2, H3, H4.
  reflexivity.
Qed.

(** X15. After a transcription that went through, for a row whose audio
    file is on disk and whose URL is the one of the dictionary, a resume
    request sends a Synthesize task that does, in every world and on
    every session, what the task sent next by the chain does: it reads
    the same row, the same transcription and the same URL. *)
Theorem resume_after_transcription_continues_the_chain (w : world) (retries : nat)
    (d : gmap string pyval) (table : gmap Z Note.t) (disk : gset string) (id : Z)
    (n : Note.t) (p : string) (t : Transcript.transcript) (tid : string) :
  table !! id = Some n → Note.id n = id →
  get d "note_id" = PInt id → get d "audio_path" = PStr p → p ≠ "" → p ∈ disk →
  Note.audio_path n = Some p → get d "youtube_link" = PStr (Note.youtube_url n) →
  transcriptions_create w = inr t →
  let chain := Message (translate_audio_to_text_call d) retries [generate_study_notes_s] in
  let r := run_call w chain (SessionLocal table disk) in
  ∃ resumed continued,
    delayed (trail (Api.retry_note id tid
                      (SessionLocal (persisted table (trail r.2)) (files r.2))).2)
    = [resumed]
    ∧ follow_up chain r.1 = [continued]
    ∧ stage_of (msg_call resumed) = Synthesize
    ∧ ∀ w' s, run_call w' resumed s = run_call w' continued s.
Proof.
  intros Hn Hid Hd Hp Hne Hin Hpath Hurl Hok. cbv zeta. cbn [run_call msg_call msg_retries].
  rewrite (translate_audio_succeeds _ _ _ _ _ _ _ _ _ Hn Hid Hd Hp Hne Hin Hok). cbv zeta.
  cbn [fst snd trail files persisted foldl follow_up msg_chain apply_linked].
  erewrite retry_note_run; [|apply lookup_insert_eq|exact Hid].
  cbn [Note.status Note.set_status String.eqb Ascii.eqb Bool.eqb andb].
  cbv zeta. cbn [snd trail delayed omap list_omap].
  unfold retry_message, retry_audio_exists.
  cbn [Note.audio_path Note.set_status Note.set_transcription Note.transcription].
  rewrite Hpath. cbn [default].
  assert (truthy_text (Some p) = true) as ->.
  { apply negb_true_iff, String.eqb_neq, Hne. }
  rewrite (bool_decide_eq_true_2 _ Hin). cbn [andb Api.is_some].
  eexists _, _. split; [reflexivity|]. split; [reflexivity|]. split; [reflexivity|].
  intros w' s. cbn [run_call msg_call msg_retries].
  rewrite (generate_study_notes_reads w' 0 _
             (list_to_map [("note_id", PInt id); ("audio_id", get d "audio_id");
                           ("transcription", PStr (Transcript.serialize t));
                           ("audio_path", PStr p);
                           ("youtube_link", get d "youtube_link")])); [reflexivity|..];
    unfold Api.transcription_data_of;
    cbn [Note.id Note.youtube_url Note.transcription Note.set_status Note.set_transcription
         of_text];
    rewrite ?Hurl; dict_lookup; rewrite ?Hid; reflexivity.
Qed.

Lemma resume_after_transcription_continues_the_chain_witness :
  let n := Note.Make 1 "https://v/1" (Some "t1") "processing" (Some "u1")
                     (Some "media/u1.mp3") None None None 10 in
  let d : gmap string pyval :=
    list_to_map [("note_id", PInt 1); ("audio_id", PStr "u1");
                 ("audio_path", PStr "media/u1.mp3"); ("youtube_link", PStr "https://v/1")] in
  let table : gmap Z Note.t := {[ 1 := n ]} in
  let chain := Message (translate_audio_to_text_call d) 0 [generate_study_notes_s] in
  let r := run_call world_ok chain (SessionLocal table {[ "media/u1.mp3" ]}) in
  ∃ resumed continued,
    delayed (trail (Api.retry_note 1 "t2"
                      (SessionLocal (persisted table (trail r.2)) (files r.2))).2)
    = [resumed]
    ∧ follow_up chain r.1 = [continued]
    ∧ stage_of (msg_call resumed) = Synthesize
    ∧ ∀ w' s, run_call w' resumed s = run_call w' continued s.
Proof.
  apply (resume_after_transcription_continues_the_chain world_ok 0
           (list_to_map [("note_id", PInt 1); ("audio_id", PStr "u1");
                         ("audio_path", PStr "media/u1.mp3");
                         ("youtube_link", PStr "https://v/1")])
           {[ 1 := Note.Make 1 "https://v/1" (Some "t1") "processing" (Some "u1")
                             (Some "media/u1.mp3") None None None 10 ]}
           {[ "media/u1.mp3" ]} 1
           (Note.Make 1 "https://v/1" (Some "t1") "processing" (Some "u1")
                      (Some "media/u1.mp3") None None None 10)
           "media/u1.mp3"
           (Transcript.Transcript
              [Transcript.Segment (S754_zero false) (S754_finite false 3 (-1)) " hi"] "")
           "t2").
  - reflexivity.
  - reflexivity.
  - reflexivity.
  - reflexivity.
  - discriminate.
  - set_solver.
  - reflexivity.
  - reflexivity.
  - reflexivity.
Defined.

(** ** The lines of a transcription *)

Lemma split_lines_cons s : ∃ l ls, Transcript.split_lines s = l :: ls.
Proof.
  induction s as [|c s (l & ls & IH)]; cbn [Transcript.split_lines]; [eauto|].
  destruct (Ascii.eqb c newline); [eauto|]. rewrite IH. eauto.
Qed.

Lemma split_lines_app a b :
  Transcript.split_lines (a +:+ Transcript.LF +:+ b)
  = Transcript.split_lines a ++ Transcript.split_lines b.
Proof.
  induction a as [|c a IH].
  - reflexivity.
  - rewrite app_String. cbn [Transcript.split_lines]. rewrite IH.
    destruct (Ascii.eqb c newline); [reflexivity|].
    destruct (split_lines_cons a) as (l & ls & ->). reflexivity.
Qed.

Lemma parse_line_unmarked float line :
  (∀ rest, line ≠ String "[" rest) → Transcript.parse_line float line = None.
Proof.
  intros H. unfold Transcript.parse_line, re_match, Transcript.timestamp_pattern.
  rewrite run_seq. cbn [run]. destruct (next_char line) as [[ch rest]|] eqn:N; [|reflexivity].
  destruct (String.eqb ch "[") eqn:E; [|reflexivity].
  apply String.eqb_eq in E. subst ch. apply next_char_split in N as [-> _].
  destruct (H rest). reflexivity.
Qed.

(** X16. Parsing goes line by line: the segments of two texts joined by
    a line feed are the segments of the first followed by the segments
    of the second, as [split] gives the lines of the first followed by
    the lines of the second; an empty transcription has no segments. *)
Theorem parse_segments_by_lines (float : string → spec_float) (a b : string) :
  Transcript.split_lines (a +:+ Transcript.LF +:+ b)
  = Transcript.split_lines a ++ Transcript.split_lines b
  ∧ Transcript.parse_segments float (a +:+ Transcript.LF +:+ b)
    = Transcript.parse_segments float a ++ Transcript.parse_segments float b
  ∧ Transcript.parse_segments float "" = [].
Proof.
  split; [apply split_lines_app|]. split; [|reflexivity].
  unfold Transcript.parse_segments. rewrite split_lines_app. apply omap_app.
Qed.

(** X17. A transcription without segments reaches no prompt: when the
    provider gives no segments, Transcribe stores its plain text; if no
    line of that text begins with an opening bracket, Synthesize parses
    no segment out of it and the text of the segments it puts in the
    prompt is empty. *)
Theorem plain_transcript_gives_no_segments (float : string → spec_float) (text : string) :
  Forall (λ line, ∀ rest, line ≠ String "[" rest) (Transcript.split_lines text) →
  Transcript.serialize (Transcript.Transcript [] text) = text
  ∧ Transcript.parse_segments float (Transcript.serialize (Transcript.Transcript [] text))
    = []
  ∧ Transcript.segments_text
      (Transcript.parse_segments float
         (Transcript.serialize (Transcript.Transcript [] text))) = "".
Proof.
  intros H. split; [reflexivity|].
  assert (E : Transcript.parse_segments float
                (Transcript.serialize (Transcript.Transcript [] text)) = []).
  { unfold Transcript.parse_segments. cbn [Transcript.serialize Transcript.segments
                                           Transcript.text].
    induction H as [|line lines Hline _ IH]; [reflexivity|].
    cbn [omap list_omap]. rewrite (parse_line_unmarked _ _ Hline). exact IH. }
  rewrite E. split; reflexivity.
Qed.

Lemma plain_transcript_gives_no_segments_witness :
  Transcript.serialize (Transcript.Transcript [] "hello world") = "hello world"
  ∧ Transcript.parse_segments (λ _, S754_nan)
      (Transcript.serialize (Transcript.Transcript [] "hello world")) = []
  ∧ Transcript.segments_text
      (Transcript.parse_segments (λ _, S754_nan)
         (Transcript.serialize (Transcript.Transcript [] "hello world"))) = "".
Proof.
  apply (plain_transcript_gives_no_segments (λ _, S754_nan) "hello world").
  apply Forall_cons_2; [|apply Forall_nil_2]. intros rest. discriminate.
Defined.

(** ** The read handlers *)

Lemma notes_response_run isoformat updated_at_of n s :
  ∃ r, Views.notes_response isoformat updated_at_of n s = (Return r, s)
       ∧ answers_for isoformat updated_at_of n r.
Proof.
  unfold Views.notes_response, answers_for.
  destruct (bool_decide (Note.status n ∈ Views.value <$> Views.members)) eqn:E.
  - apply bool_decide_eq_true in E. pose proof E as Hv.
    cbn [fmap list_fmap Views.members Views.value] in Hv.
    unfold Views.Status_of. unfold_monad.
    repeat (apply elem_of_cons in Hv as [Hv|Hv];
            [rewrite Hv; eexists; split; [reflexivity|];
             cbn; destruct (updated_at_of (Note.id n)); repeat split; auto;
             intros Hbad; destruct Hbad; unfold valid_status; rewrite Hv;
             cbn [fmap list_fmap Views.members Views.value]; known_status|]).
    apply elem_of_nil in Hv. destruct Hv.
  - apply bool_decide_eq_false in E. unfold_monad. eexists. split; [reflexivity|].
    cbn. destruct (updated_at_of (Note.id n)); repeat split; auto; intros Hv; destruct (E Hv).
Qed.

Lemma responses_run isoformat updated_at_of notes : ∀ s,
  ∃ rs, Views.responses isoformat updated_at_of notes s = (Return rs, s)
        ∧ Forall2 (answers_for isoformat updated_at_of) notes rs.
Proof.
  induction notes as [|n notes IH]; intros s.
  - exists []. split; [reflexivity|constructor].
  - destruct (notes_response_run isoformat updated_at_of n s) as (r & R & Hr).
    destruct (IH s) as (rs & Rs & Hrs).
    exists (r :: rs). split; [|constructor; assumption].
    cbn [Views.responses]. unfold mbind, M_bind, bind. rewrite R, Rs. reflexivity.
Qed.

Lemma responses_lookup isoformat updated_at_of notes : ∀ s rs i n r r',
  Views.responses isoformat updated_at_of notes s = (Return rs, s) →
  notes !! i = Some n → rs !! i = Some r' →
  Views.notes_response isoformat updated_at_of n s = (Return r, s) → r' = r.
Proof.
  induction notes as [|m notes IH]; intros s rs i n r r' R Hi Hr' Rn; [discriminate|].
  cbn [Views.responses] in R. unfold mbind, M_bind, bind in R.
  destruct (notes_response_run isoformat updated_at_of m s) as (rm & Rm & _).
  rewrite Rm in R.
  destruct (responses_run isoformat updated_at_of notes s) as (rs' & Rs' & _).
  rewrite Rs' in R. injection R as <-.
  destruct i as [|i].
  - injection Hi as ->. injection Hr' as <-. congruence.
  - exact (IH s rs' i n r r' Rs' Hi Hr' Rn).
Qed.

Lemma newest_first_total : Total Views.newest_first.
Proof. intros a b. unfold Views.newest_first. lia. Qed.

(** X18. The list handler never raises and writes nothing: on every
    table it answers with one entry for each row, newest first (by
    creation time), each entry holding the columns of its row and the
    status of the row, or Pending when the status of the row is not one
    of the four values; and the entry that the read-by-id handler gives
    for a row is the one the list holds for it. *)
Theorem list_notes_newest_first (isoformat : Z → string) (updated_at_of : Z → option Z)
    (s : session) :
  ∃ notes rs,
    Views.list_notes isoformat updated_at_of s = (Return rs, s)
    ∧ notes ≡ₚ (map_to_list (rows s)).*2
    ∧ Sorted (λ a b, Note.created_at b ≤ Note.created_at a) notes
    ∧ Forall2 (answers_for isoformat updated_at_of) notes rs
    ∧ (∀ id n, rows s !! id = Some n →
               ∃ r, Views.get_note isoformat updated_at_of id s = (Return r, s)
                    ∧ r ∈ rs).
Proof.
  set (notes := merge_sort Views.newest_first (map_to_list (rows s)).*2).
  destruct (responses_run isoformat updated_at_of notes s) as (rs & R & Hrs).
  exists notes, rs. split; [|split; [|split; [|split]]].
  - unfold Views.list_notes, Views.query_all_newest_first, mbind, M_bind, bind.
    fold notes. exact R.
  - apply merge_sort_Permutation.
  - apply (@Sorted_merge_sort _ Views.newest_first _ newest_first_total).
  - exact Hrs.
  - intros id n Hn. unfold Views.get_note, mbind, M_bind, bind, query_by_id. rewrite Hn.
    destruct (notes_response_run isoformat updated_at_of n s) as (r & Rn & _).
    exists r. split; [exact Rn|].
    assert (Hin : n ∈ notes).
    { unfold notes. rewrite merge_sort_Permutation. apply list_elem_of_In, scanned_row. eauto. }
    apply list_elem_of_lookup in Hin as [i Hi].
    destruct (Forall2_lookup_l _ _ _ _ _ Hrs Hi) as (r' & Hr' & _).
    rewrite (responses_lookup _ _ _ _ _ _ _ _ _ R Hi Hr' Rn) in Hr'.
    eapply list_elem_of_lookup_2, Hr'.
Qed.

(** ** The schema migration *)

Lemma alter_columns (f : list string → list string) (s : gmap string (list string)) table columns :
  s !! table = Some columns → alter f table s = <[table := f columns]> s.
Proof.
  intros H. apply map_eq. intros j. destruct (decide (table = j)) as [->|Hne].
  - rewrite lookup_alter_eq, lookup_insert_eq, H. reflexivity.
  - rewrite lookup_alter_ne, lookup_insert_ne by done. reflexivity.
Qed.

Lemma migrate_schema_notes (s : gmap string (list string)) columns :
  s !! "notes" = Some columns →
  let added := (if bool_decide ("note" ∈ columns) then [] else ["note"])
               ++ (if bool_decide ("error" ∈ columns) then [] else ["error"]) in
  (Schema.migrate_schema s).1 = <["notes" := columns ++ added]> s.
Proof.
  intros H. unfold Schema.migrate_schema, Schema.add_column. rewrite H.
  destruct (bool_decide ("note" ∈ columns)), (bool_decide ("error" ∈ columns));
    cbn [fst app];
    rewrite ?alter_alter_eq, ?(alter_columns _ _ _ _ H), ?app_nil_r; cbn [compose];
    rewrite <- ?app_assoc; try reflexivity.
  symmetry. apply insert_id, H.
Qed.

(** X19. The schema migration, were it run: when the table [notes]
    exists it gets the columns [note] and [error] that it lacks, after
    its other columns and in that order, and one line is printed for
    each column added; no other table is touched and none is created or
    dropped; without a table [notes] nothing happens; and a second run
    changes nothing and prints nothing. *)
Theorem migrate_schema_is_idempotent (s : gmap string (list string)) :
  let s' := (Schema.migrate_schema s).1 in
  Schema.migrate_schema s' = (s', [])
  ∧ (∀ table, table ≠ "notes" → s' !! table = s !! table)
  ∧ (s !! "notes" = None → Schema.migrate_schema s = (s, []))
  ∧ (∀ columns, s !! "notes" = Some columns →
       let added := (if bool_decide ("note" ∈ columns) then [] else ["note"])
                    ++ (if bool_decide ("error" ∈ columns) then [] else ["error"]) in
       s' !! "notes" = Some (columns ++ added)
       ∧ "note" ∈ columns ++ added ∧ "error" ∈ columns ++ added
       ∧ length (Schema.migrate_schema s).2 = length added).
Proof.
  cbv zeta. destruct (s !! "notes") as [columns|] eqn:H.
  - pose proof (migrate_schema_notes s columns H) as E. cbv zeta in E. rewrite E.
    set (added := (if bool_decide ("note" ∈ columns) then [] else ["note"])
                  ++ (if bool_decide ("error" ∈ columns) then [] else ["error"])) in *.
    assert (Hnote : "note" ∈ columns ++ added).
    { subst added. apply elem_of_app. destruct (bool_decide ("note" ∈ columns)) eqn:B.
      - apply bool_decide_eq_true in B. left. exact B.
      - right. apply elem_of_app. left. apply list_elem_of_here. }
    assert (Herror : "error" ∈ columns ++ added).
    { subst added. apply elem_of_app. destruct (bool_decide ("error" ∈ columns)) eqn:B.
      - apply bool_decide_eq_true in B. left. exact B.
      - right. apply elem_of_app. right. apply list_elem_of_here. }
    split; [|split; [|split]].
    + unfold Schema.migrate_schema. rewrite lookup_insert_eq.
      rewrite (bool_decide_eq_true_2 _ Hnote), (bool_decide_eq_true_2 _ Herror).
      reflexivity.
    + intros table Hne. apply lookup_insert_ne. congruence.
    + discriminate.
    + intros ? [= <-]. split; [apply lookup_insert_eq|]. split; [exact Hnote|].
      split; [exact Herror|]. subst added. unfold Schema.migrate_schema. rewrite H.
      destruct (bool_decide ("note" ∈ columns)), (bool_decide ("error" ∈ columns));
        reflexivity.
  - assert (E : Schema.migrate_schema s = (s, [])).
    { unfold Schema.migrate_schema. rewrite H. reflexivity. }
    rewrite E. cbn [fst]. split; [exact E|]. split; [reflexivity|].
    split; [reflexivity|]. discriminate.
Qed.

(** ** The files *)

Section Files.
Context (R : relation (gset string)) `{!Reflexive R, !Transitive R}.

Lemma files_pure {A} (m : M A) : (∀ s, files (m s).2 = files s) → relates_files R m.
Proof. intros H s. rewrite H. reflexivity. Qed.

Lemma files_bind {A B} (m : M A) (f : A → M B) :
  relates_files R m → (∀ a, relates_files R (f a)) → relates_files R (m ≫= f).
Proof.
  intros Hm Hf s. specialize (Hm s). unfold mbind, M_bind, bind.
  destruct (m s) as [[a|e] s']; [|exact Hm]. etransitivity; [exact Hm|apply Hf].
Qed.

Lemma files_try_except {A} (body : M A) (handler : exn → M A) :
  relates_files R body → (∀ e, relates_files R (handler e)) →
  relates_files R (try_except body handler).
Proof.
  intros Hm Hh s. specialize (Hm s). unfold try_except.
  destruct (body s) as [[a|e] s']; [exact Hm|]. etransitivity; [exact Hm|apply Hh].
Qed.

Lemma files_query_by_pyval v : relates_files R (query_by_pyval v).
Proof. apply files_pure. intros s. destruct v; reflexivity. Qed.

Lemma files_try_pass (body : M unit) : relates_files R body → relates_files R (try_pass body).
Proof. intros H. apply files_try_except; [exact H|]. intros e. apply files_pure. reflexivity. Qed.
End Files.

Lemma adds_only_refl p : Reflexive (adds_only p).
Proof. intros d. split; [reflexivity|apply union_subseteq_r]. Qed.

Lemma adds_only_trans p : Transitive (adds_only p).
Proof.
  intros d1 d2 d3 [A1 A2] [B1 B2]. split; [transitivity d2; assumption|].
  intros x Hx. apply B2, elem_of_union in Hx as [Hx|Hx].
  - apply elem_of_union_l, Hx.
  - apply A2, Hx.
Qed.

Ltac files_step :=
  lazymatch goal with
  | |- relates_files _ (_ ≫= _) => apply files_bind; [| |intros ?]
  | |- relates_files _ (try_except _ _) => apply files_try_except; [| |intros ?]
  | |- relates_files _ (try_pass _) => apply files_try_pass
  | |- relates_files _ (match ?x with _ => _ end) => destruct x
  | |- relates_files _ (file_written _) => fail
  | |- relates_files _ (query_by_pyval _) => apply files_query_by_pyval
  | |- Reflexive _ => first [exact _ | apply adds_only_refl]
  | |- relates_files _ _ =>
    apply files_pure; [first [exact _ | apply adds_only_refl]|intros ?; reflexivity]
  | |- Transitive _ => first [exact _ | apply adds_only_trans]
  end.

Lemma regenerate_keeps_files n tid : relates_files eq (Api.regenerate n tid).
Proof. unfold Api.regenerate. repeat files_step. Qed.

Lemma regenerate_loop_keeps_files task_ids notes : ∀ count,
  relates_files eq (Api.regenerate_loop notes task_ids count).
Proof.
  induction notes as [|n notes IH]; intros count; cbn [Api.regenerate_loop].
  - apply files_pure; [exact _|reflexivity].
  - apply files_bind; [exact _|apply regenerate_keeps_files|]. intros _. apply IH.
Qed.

(** X20. No request and no task deletes a file. The intake, the retry
    and regenerate handlers, Transcribe and Synthesize leave the files
    as they are; a run of the download leaves them as they are or adds
    the one file [media/<uuid>.mp3] of its world, and when it returns an
    audio path, that path is this file and the file is there. *)
Theorem requests_and_tasks_keep_the_files (s : session) (w : world) (retries : nat)
    (url : string) (now id : Z) (tid : string) (task_ids : nat → string)
    (d : gmap string pyval) :
  files (Api.create_notes_from_youtube url now tid s).2 = files s
  ∧ files (Api.retry_note id tid s).2 = files s
  ∧ files (Api.regenerate_note id tid s).2 = files s
  ∧ files (Api.regenerate_all_notes task_ids s).2 = files s
  ∧ files (translate_audio_to_text w retries d s).2 = files s
  ∧ files (generate_study_notes w retries d s).2 = files s
  ∧ files s ⊆ files (download_audio w retries url id s).2
  ∧ files (download_audio w retries url id s).2 ⊆ {[ output_file w ]} ∪ files s
  ∧ (∀ result p, (download_audio w retries url id s).1 = Return result →
                 result !! "audio_path" = Some p →
                 p = PStr (output_file w)
                 ∧ output_file w ∈ files (download_audio w retries url id s).2).
Proof.
  assert (H1 : relates_files eq (Api.create_notes_from_youtube url now tid)).
  { unfold Api.create_notes_from_youtube, create_audio_transcription_chain.
    repeat files_step. }
  assert (H2 : relates_files eq (Api.retry_note id tid)).
  { unfold Api.retry_note, create_audio_transcription_chain. repeat files_step. }
  assert (H3 : relates_files eq (Api.regenerate_note id tid)).
  { unfold Api.regenerate_note. repeat files_step. }
  assert (H4 : relates_files eq (Api.regenerate_all_notes task_ids)).
  { intros s'. unfold Api.regenerate_all_notes. apply regenerate_loop_keeps_files. }
  assert (H5 : relates_files eq (translate_audio_to_text w retries d)).
  { unfold translate_audio_to_text, mark_failed_and_reraise, audio_file_exists.
    repeat files_step. }
  assert (H6 : relates_files eq (generate_study_notes w retries d)).
  { unfold generate_study_notes, mark_failed_and_reraise, generate_text. repeat files_step. }
  assert (H7 : relates_files (adds_only (output_file w)) (download_audio w retries url id)).
  { unfold download_audio, mark_failed_and_reraise. repeat files_step.
    intros s'. unfold adds_only, output_file. cbn [file_written snd files].
    split; [apply union_subseteq_r|reflexivity]. }
  repeat (split; [first [symmetry; apply H1 | symmetry; apply H2 | symmetry; apply H3
                        | symmetry; apply H4 | symmetry; apply H5 | symmetry; apply H6
                        | apply H7]|]).
  intros result p. unfold download_audio, mark_failed_and_reraise. unfold_monad.
  destruct (rows s !! id) as [n|].
  - destruct (ydl_download w) as [err|].
    + destruct (2 <=? retries)%nat; unfold_monad;
        [destruct (alter _ _ _ !! id)|]; discriminate.
    + unfold_monad. intros [= <-]. dict_lookup. intros [= <-].
      split; [reflexivity|]. apply elem_of_union_l, elem_of_singleton. reflexivity.
  - intros [= <-]. dict_lookup. discriminate.
Qed.

(** ** A second pass of the rewrite *)

(** Reading back what [pretty] prints. *)
Lemma int_from_pretty_N_go x : ∀ s,
  ∃ p, ∀ acc, int_from acc (pretty_N_go x s) = int_from (acc * p + Z.of_N x) s.
Proof.
  induction (N.lt_wf_0 x) as [x _ IH]. intros s.
  destruct (decide (x = 0)%N) as [->|Hx].
  - exists 1. intros acc. rewrite pretty_N_go_0. f_equal. lia.
  - rewrite pretty_N_go_step by lia.
    destruct (IH (x `div` 10)%N ltac:(apply N.div_lt; lia)
                 (String (pretty_N_char (x `mod` 10)) s)) as [p Hp].
    exists (10 * p). intros acc. rewrite Hp.
    assert (Hm : (x `mod` 10 < 10)%N) by (apply N.mod_lt; lia).
    pose proof (N.div_mod x 10 ltac:(lia)) as D.
    set (q := (x `div` 10)%N) in *. set (r := (x `mod` 10)%N) in *. clearbody q r.
    pose proof (pretty_N_char_byte _ Hm) as Hb.
    rewrite int_from_digit by (rewrite Hb; lia). rewrite Hb. f_equal.
    rewrite D. lia.
Qed.

Lemma int_pretty (z : Z) : 0 ≤ z → int (pretty z) = z.
Proof.
  intros Hz. destruct z as [|p|p]; [reflexivity| |lia].
  unfold int, pretty, pretty_Z, pretty, pretty_positive, pretty, pretty_N.
  case_decide; [discriminate|].
  destruct (int_from_pretty_N_go (N.pos p) "") as [q Hq]. rewrite Hq. reflexivity.
Qed.

Lemma int_fmt_02d (z : Z) : 0 ≤ z → int (fmt_02d z) = z.
Proof.
  intros Hz. unfold fmt_02d. destruct (String.length (pretty z) <? 2)%nat.
  - rewrite app_String, app_empty_l. unfold int. rewrite int_from_digit by (vm_compute; split; discriminate).
    apply int_pretty, Hz.
  - apply int_pretty, Hz.
Qed.

Lemma int_two_digits a :
  all_cls Digit a = true → (1 ≤ len a ≤ 2)%nat → 0 ≤ int a < 100.
Proof.
  unfold all_cls, len, int, int_from. intros H L.
  destruct (chars a) as [|x [|y [|z cs]]]; cbn [length] in L; try lia;
    cbn [forallb cls_test] in H; cbn [foldl].
  - rewrite andb_true_r in H. pose proof (digit_val_range x H). lia.
  - apply andb_prop in H as [Hx Hy]. rewrite andb_true_r in Hy.
    pose proof (digit_val_range x Hx). pose proof (digit_val_range y Hy). lia.
Qed.

Lemma fmt_02d_digits z :
  0 ≤ z < 100 → all_cls Digit (fmt_02d z) = true ∧ len (fmt_02d z) = 2%nat.
Proof.
  intros Hz. destruct (fmt_02d_two_digits z Hz) as [Ha La].
  destruct (ascii_digits_chars _ Ha) as (H & L & _). rewrite L. auto.
Qed.

Lemma pretty_short z :
  0 ≤ z < 100 →
  all_cls Digit (pretty z) = true ∧ (1 ≤ len (pretty z) ≤ 2)%nat.
Proof.
  intros Hz. destruct (pretty_nonneg_ascii z ltac:(lia)) as [Hd Hne].
  destruct (ascii_digits_chars _ Hd) as (H & L & _). split; [exact H|]. rewrite L.
  destruct (fmt_02d_two_digits z Hz) as [_ L2]. unfold fmt_02d in L2.
  destruct (String.length (pretty z) <? 2)%nat eqn:E.
  - rewrite app_String, app_empty_l in L2. cbn [String.length] in L2.
    destruct (pretty z); [congruence|]. cbn [String.length] in *. lia.
  - lia.
Qed.

Lemma rewrite_marker_then url m g post :
  marker m g →
  add_youtube_timestamps (m +:+ post) url
  = replace_timestamp url g +:+ add_youtube_timestamps post url.
Proof.
  intros M. pose proof (re_sub_marker url m g post "" M) as R.
  rewrite app_empty_l, re_sub_empty, app_empty_l in R. exact R.
Qed.

Lemma link_is_plain url z :
  no_open (str url) = true → 0 ≤ z →
  add_youtube_timestamps ("(" +:+ str url +:+ "?t=" +:+ pretty z +:+ ")") url
  = "(" +:+ str url +:+ "?t=" +:+ pretty z +:+ ")".
Proof.
  intros Hurl Hz. apply re_sub_marker_free, no_open_marker_free.
  rewrite !no_open_app, Hurl.
  rewrite (digits_no_open _ (proj1 (pretty_nonneg_digits z Hz))). reflexivity.
Qed.

(** X21. The rewrite does not see that a marker is already a link: the
    link it writes for a marker begins with a marker again (the time as
    displayed), so a second pass over its own output, for a URL without
    an opening bracket, writes the same link once more and keeps the
    first one: [[12:34]] gives [[12:34](u?t=754)], and that gives
    [[12:34](u?t=754)(u?t=754)]. *)
Theorem rewriting_twice_links_twice (url : pyval) (m : string) (g : gmap nat string) :
  Matches Rewrite.timestamp_pattern m ∅ g →
  no_open (str url) = true →
  ∃ display link,
    add_youtube_timestamps m url = "[" +:+ display +:+ "](" +:+ link +:+ ")"
    ∧ add_youtube_timestamps (add_youtube_timestamps m url) url
      = "[" +:+ display +:+ "](" +:+ link +:+ ")" +:+ "(" +:+ link +:+ ")".
Proof.
  intros Hm Hurl. apply timestamp_matches_marker in Hm.
  destruct Hm as [a b Ha La Hb Lb|a b c Ha La Hb Lb Hc Lc].
  - pose proof (int_two_digits a Ha La) as Ra.
    pose proof (int_two_digits b Hb ltac:(lia)) as Rb.
    assert (E : ∀ a' b' : string, int a' = int a → int b' = int b →
              replace_timestamp url (<[2%nat := b']> (<[1%nat := a']> ∅))
              = ("[" +:+ pretty (int a) +:+ ":" +:+ fmt_02d (int b) +:+ "]")
                +:+ ("(" +:+ str url +:+ "?t=" +:+ pretty (int a * 60 + int b) +:+ ")")).
    { intros a' b' Ea Eb. unfold replace_timestamp, Rewrite.int_group.
      destruct (groups_mm_ss a' b') as (-> & -> & ->). cbn [truthy_text default].
      unfold id. rewrite Ea, Eb. autorewrite with str. reflexivity. }
    exists (pretty (int a) +:+ ":" +:+ fmt_02d (int b)),
           (str url +:+ "?t=" +:+ pretty (int a * 60 + int b)).
    pose proof (marker_mm_ss a b Ha La Hb Lb) as M.
    pose proof (rewrite_marker_then url _ _ "" M) as R1.
    rewrite app_empty_r, re_sub_empty, app_empty_r, (E a b eq_refl eq_refl) in R1.
    rewrite R1. split; [autorewrite with str; reflexivity|].
    destruct (pretty_short (int a) Ra) as [Ha' La'].
    destruct (fmt_02d_digits (int b) Rb) as [Hb' Lb'].
    rewrite (rewrite_marker_then url _ _ _ (marker_mm_ss _ _ Ha' La' Hb' Lb')).
    rewrite link_is_plain by (auto; lia).
    rewrite (E _ _ (int_pretty _ (proj1 Ra)) (int_fmt_02d _ (proj1 Rb))).
    autorewrite with str. reflexivity.
  - pose proof (int_two_digits a Ha La) as Ra.
    pose proof (int_two_digits b Hb ltac:(lia)) as Rb.
    pose proof (int_two_digits c Hc ltac:(lia)) as Rc.
    assert (E : ∀ a' b' c' : string, int a' = int a → int b' = int b → int c' = int c →
              c' ≠ "" →
              replace_timestamp url (<[3%nat := c']> (<[2%nat := b']> (<[1%nat := a']> ∅)))
              = ("[" +:+ pretty (int a) +:+ ":" +:+ fmt_02d (int b) +:+ ":"
                 +:+ fmt_02d (int c) +:+ "]")
                +:+ ("(" +:+ str url +:+ "?t="
                     +:+ pretty (int a * 3600 + int b * 60 + int c) +:+ ")")).
    { intros a' b' c' Ea Eb Ec Hne. unfold replace_timestamp, Rewrite.int_group.
      destruct (groups_hh_mm_ss a' b' c') as (-> & -> & ->). cbn [truthy_text default].
      apply String.eqb_neq in Hne. rewrite Hne. cbn [negb].
      unfold id. rewrite Ea, Eb, Ec. autorewrite with str. reflexivity. }
    exists (pretty (int a) +:+ ":" +:+ fmt_02d (int b) +:+ ":" +:+ fmt_02d (int c)),
           (str url +:+ "?t=" +:+ pretty (int a * 3600 + int b * 60 + int c)).
    pose proof (marker_hh_mm_ss a b c Ha La Hb Lb Hc Lc) as M.
    pose proof (rewrite_marker_then url _ _ "" M) as R1.
    rewrite app_empty_r, re_sub_empty, app_empty_r in R1.
    rewrite (E a b c eq_refl eq_refl eq_refl) in R1
      by (intros ->; discriminate Lc).
    rewrite R1. split; [autorewrite with str; reflexivity|].
    destruct (pretty_short (int a) Ra) as [Ha' La'].
    destruct (fmt_02d_digits (int b) Rb) as [Hb' Lb'].
    destruct (fmt_02d_digits (int c) Rc) as [Hc' Lc'].
    rewrite (rewrite_marker_then url _ _ _
               (marker_hh_mm_ss _ _ _ Ha' La' Hb' Lb' Hc' Lc')).
    rewrite link_is_plain by (auto; lia).
    rewrite (E _ _ _ (int_pretty _ (proj1 Ra)) (int_fmt_02d _ (proj1 Rb))
               (int_fmt_02d _ (proj1 Rc)))
      by (intros E0; rewrite E0 in Lc'; discriminate Lc').
    autorewrite with str. reflexivity.
Qed.

Lemma rewriting_twice_links_twice_witness :
  ∃ display link,
    add_youtube_timestamps "[12:34]" (PStr "https://x/y")
    = "[" +:+ display +:+ "](" +:+ link +:+ ")"
    ∧ add_youtube_timestamps (add_youtube_timestamps "[12:34]" (PStr "https://x/y"))
                             (PStr "https://x/y")
      = "[" +:+ display +:+ "](" +:+ link +:+ ")" +:+ "(" +:+ link +:+ ")".
Proof.
  apply (rewriting_twice_links_twice (PStr "https://x/y") "[12:34]"
           (<[2%nat := "34"]> (<[1%nat := "12"]> ∅))).
  - apply marker_matches. apply (marker_mm_ss "12" "34"); first [reflexivity | vm_compute; lia].
  - reflexivity.
Defined.

(** ** Running a task again *)

Lemma falsy_or_text (v : pyval) :
  truthy v = false ∨ (∃ p, v = PStr p ∧ p ≠ "") ∨ (∃ z, v = PInt z ∧ z ≠ 0).
Proof.
  destruct v as [|p|z]; cbn [truthy].
  - left. reflexivity.
  - destruct (String.eqb p "") eqn:E; [left; reflexivity|].
    right. left. exists p. split; [reflexivity|]. apply String.eqb_neq, E.
  - destruct (z =? 0) eqn:E; [left; reflexivity|].
    right. right. exists z. split; [reflexivity|]. apply Z.eqb_neq, E.
Qed.

Lemma names_no_row_other (d : gmap string pyval) (table : gmap Z Note.t) :
  (∀ id, get d "note_id" ≠ PInt id) → names_no_row d table.
Proof. intros H id Hid. destruct (H id Hid). Qed.

Lemma names_no_row_missing (d : gmap string pyval) (table : gmap Z Note.t) id :
  get d "note_id" = PInt id → table !! id = None → names_no_row d table.
Proof. intros Hd Hn id' Hid'. rewrite Hd in Hid'. injection Hid' as <-. exact Hn. Qed.

(** The row a task is about, if its dictionary names one. *)
Lemma named_row (d : gmap string pyval) (table : gmap Z Note.t) :
  names_no_row d table ∨ ∃ id n, get d "note_id" = PInt id ∧ table !! id = Some n.
Proof.
  destruct (get d "note_id") as [|s|id] eqn:Hd.
  - left. apply names_no_row_other. rewrite Hd. discriminate.
  - left. apply names_no_row_other. rewrite Hd. discriminate.
  - destruct (table !! id) as [n|] eqn:Hn; [right; eauto|].
    left. eapply names_no_row_missing; eauto.
Qed.

Ltac settle_again :=
  cbv zeta; cbn [fst snd trail files persisted foldl];
  rewrite ?insert_insert_eq; repeat split; try reflexivity.

(** The tasks depend on the world through the answer of their provider
    only; the download also through the name it draws. *)
Lemma translate_audio_world w1 w2 retries d :
  transcriptions_create w2 = transcriptions_create w1 →
  translate_audio_to_text w2 retries d = translate_audio_to_text w1 retries d.
Proof. intros H. unfold translate_audio_to_text. rewrite H. reflexivity. Qed.

Lemma generate_study_notes_world w1 w2 retries d :
  generate_content w2 = generate_content w1 →
  generate_study_notes w2 retries d = generate_study_notes w1 retries d.
Proof. intros H. unfold generate_study_notes, generate_text. rewrite H. reflexivity. Qed.

Lemma app_inv_tail_str a : ∀ b t, a +:+ t = b +:+ t → a = b.
Proof.
  intros b t H.
  assert (L : String.length a = String.length b).
  { apply (f_equal String.length) in H. rewrite !length_app_str in H. lia. }
  revert b H L. induction a as [|c a IH]; intros [|c' b] H L; try discriminate L.
  - reflexivity.
  - rewrite !app_String in H. injection H as -> H. f_equal. apply IH; [exact H|].
    simpl in L. lia.
Qed.

Lemma output_file_inj w1 w2 : output_file w2 = output_file w1 → uuid4 w2 = uuid4 w1.
Proof.
  unfold output_file. intros H. apply app_inv_head_str in H.
  apply app_inv_tail_str in H. exact H.
Qed.

(** A download that is not made, or fails, twice. *)
Lemma download_audio_again w1 w2 retries link id table disk :
  keyed table → ydl_download w2 = ydl_download w1 →
  (table !! id = None ∨ is_Some (ydl_download w1)) →
  let r1 := download_audio w1 retries link id (SessionLocal table disk) in
  let t1 := persisted table (trail r1.2) in
  let r2 := download_audio w2 retries link id (SessionLocal t1 (files r1.2)) in
  r2.1 = r1.1 ∧ persisted t1 (trail r2.2) = t1 ∧ files r2.2 = files r1.2.
Proof.
  intros Hkeyed Hy Hcase. cbv zeta. destruct (table !! id) as [n|] eqn:Hn.
  - pose proof (Hkeyed _ _ Hn) as Hid.
    destruct Hcase as [[=]|[err Hw]]. assert (Hw2 := Hy). rewrite Hw in Hw2.
    rewrite (download_audio_fails _ _ _ _ _ _ _ _ Hn Hid Hw). cbv zeta.
    destruct (2 <=? retries)%nat eqn:E; cbn [fst snd trail files persisted foldl];
      (erewrite download_audio_fails; [|apply lookup_insert_eq|exact Hid|exact Hw2]);
      rewrite E; settle_again.
  - rewrite (download_audio_not_found _ _ _ _ _ _ Hn).
    cbn [fst snd trail files persisted foldl].
    rewrite (download_audio_not_found _ _ _ _ _ _ Hn). settle_again.
Qed.

(** A download that goes through twice. *)
Lemma download_audio_twice w1 w2 retries link id table disk n :
  keyed table → table !! id = Some n → ydl_download w1 = None → ydl_download w2 = None →
  let r1 := download_audio w1 retries link id (SessionLocal table disk) in
  let t1 := persisted table (trail r1.2) in
  let r2 := download_audio w2 retries link id (SessionLocal t1 (files r1.2)) in
  r1.1 = Return (download_result w1 link id)
  ∧ r2.1 = Return (download_result w2 link id)
  ∧ t1 = <[id := downloaded w1 n]> table
  ∧ persisted t1 (trail r2.2) = <[id := downloaded w2 n]> table
  ∧ files r2.2 = {[ output_file w2 ]} ∪ ({[ output_file w1 ]} ∪ disk).
Proof.
  intros Hkeyed Hn Hw1 Hw2. pose proof (Hkeyed _ _ Hn) as Hid. cbv zeta.
  rewrite (download_audio_succeeds _ _ _ _ _ _ _ Hn Hid Hw1). cbv zeta.
  cbn [fst snd trail files persisted foldl].
  (erewrite download_audio_succeeds; [|apply lookup_insert_eq|exact Hid|exact Hw2]).
  cbv zeta. cbn [fst snd trail files persisted foldl].
  rewrite ?insert_insert_eq. repeat split; reflexivity.
Qed.

Lemma translate_audio_again w retries d table disk :
  keyed table →
  let r1 := translate_audio_to_text w retries d (SessionLocal table disk) in
  let t1 := persisted table (trail r1.2) in
  let r2 := translate_audio_to_text w retries d (SessionLocal t1 (files r1.2)) in
  r2.1 = r1.1 ∧ persisted t1 (trail r2.2) = t1 ∧ files r2.2 = files r1.2.
Proof.
  intros Hkeyed. cbv zeta. destruct (named_row d table) as [Hno|(id & n & Hd & Hn)].
  - rewrite (translate_audio_not_found _ _ _ _ _ Hno).
    cbn [fst snd trail files persisted foldl].
    rewrite (translate_audio_not_found _ _ _ _ _ Hno). settle_again.
  - pose proof (Hkeyed _ _ Hn) as Hid.
    destruct (falsy_or_text (get d "audio_path")) as [Hf|[(p & Hp & Hne)|(z & Hp & Hz)]].
    + rewrite (translate_missing_audio _ _ _ _ _ _ _ Hn Hid Hd (or_introl Hf)). cbv zeta.
      cbn [fst snd trail files persisted foldl].
      (erewrite translate_missing_audio;
         [|apply lookup_insert_eq|exact Hid|exact Hd|left; exact Hf]).
      settle_again.
    + destruct (decide (p ∈ disk)) as [Hin|Hout].
      * destruct (transcriptions_create w) as [err|t] eqn:Hw.
        -- rewrite (translate_audio_fails _ _ _ _ _ _ _ _ _ Hn Hid Hd Hp Hne Hin Hw).
           cbv zeta. destruct (2 <=? retries)%nat eqn:E;
             cbn [fst snd trail files persisted foldl].
           ++ (erewrite translate_audio_fails;
                 [|apply lookup_insert_eq|exact Hid|exact Hd|exact Hp|exact Hne|exact Hin
                  |exact Hw]).
              rewrite E. settle_again.
           ++ rewrite (translate_audio_fails _ _ _ _ _ _ _ _ _ Hn Hid Hd Hp Hne Hin Hw).
              rewrite E. settle_again.
        -- rewrite (translate_audio_succeeds _ _ _ _ _ _ _ _ _ Hn Hid Hd Hp Hne Hin Hw).
           cbv zeta. cbn [fst snd trail files persisted foldl].
           (erewrite translate_audio_succeeds;
              [|apply lookup_insert_eq|exact Hid|exact Hd|exact Hp|exact Hne|exact Hin
               |exact Hw]).
           settle_again.
      * assert (Hmiss : truthy (get d "audio_path") = false
                        ∨ ∃ p, get d "audio_path" = PStr p ∧ p ∉ disk) by eauto.
        rewrite (translate_missing_audio _ _ _ _ _ _ _ Hn Hid Hd Hmiss). cbv zeta.
        cbn [fst snd trail files persisted foldl].
        (erewrite translate_missing_audio;
           [|apply lookup_insert_eq|exact Hid|exact Hd|exact Hmiss]).
        settle_again.
    + rewrite (translate_audio_bad_path _ _ _ _ _ _ _ _ Hn Hid Hd Hp Hz). cbv zeta.
      destruct (2 <=? retries)%nat eqn:E; cbn [fst snd trail files persisted foldl].
      * (erewrite translate_audio_bad_path;
           [|apply lookup_insert_eq|exact Hid|exact Hd|exact Hp|exact Hz]).
        rewrite E. settle_again.
      * rewrite (translate_audio_bad_path _ _ _ _ _ _ _ _ Hn Hid Hd Hp Hz).
        rewrite E. settle_again.
Qed.

Lemma generate_study_notes_again w retries d table disk :
  keyed table →
  let r1 := generate_study_notes w retries d (SessionLocal table disk) in
  let t1 := persisted table (trail r1.2) in
  let r2 := generate_study_notes w retries d (SessionLocal t1 (files r1.2)) in
  r2.1 = r1.1 ∧ persisted t1 (trail r2.2) = t1 ∧ files r2.2 = files r1.2.
Proof.
  intros Hkeyed. cbv zeta. destruct (named_row d table) as [Hno|(id & n & Hd & Hn)].
  - rewrite (generate_study_notes_not_found _ _ _ _ _ Hno).
    cbn [fst snd trail files persisted foldl].
    rewrite (generate_study_notes_not_found _ _ _ _ _ Hno). settle_again.
  - pose proof (Hkeyed _ _ Hn) as Hid.
    destruct (falsy_or_text (get d "transcription")) as [Hf|[(t & Ht & Hne)|(z & Ht & Hz)]].
    + rewrite (generate_study_notes_without_transcription _ _ _ _ _ _ _ Hn Hid Hd Hf).
      cbv zeta. cbn [fst snd trail files persisted foldl].
      (erewrite generate_study_notes_without_transcription;
         [|apply lookup_insert_eq|exact Hid|exact Hd|exact Hf]).
      settle_again.
    + destruct (provider_error (generate_study_notes_call d) w) as [cause|] eqn:Hw.
      * rewrite (generate_study_notes_fails _ _ _ _ _ _ _ _ _ Hn Hid Hd Ht Hne Hw).
        cbv zeta. destruct (2 <=? retries)%nat eqn:E;
          cbn [fst snd trail files persisted foldl].
        -- (erewrite generate_study_notes_fails;
              [|apply lookup_insert_eq|exact Hid|exact Hd|exact Ht|exact Hne|exact Hw]).
           rewrite E. settle_again.
        -- rewrite (generate_study_notes_fails _ _ _ _ _ _ _ _ _ Hn Hid Hd Ht Hne Hw).
           rewrite E. settle_again.
      * destruct (provider_answers w d Hw) as (r & Hr & Htext).
        rewrite (generate_study_notes_succeeds _ _ _ _ _ _ _ _ _ Hn Hid Hd Ht Hne Hr Htext).
        cbv zeta. cbn [fst snd trail files persisted foldl].
        (erewrite generate_study_notes_succeeds;
           [|apply lookup_insert_eq|exact Hid|exact Hd|exact Ht|exact Hne|exact Hr
            |exact Htext]).
        settle_again.
    + rewrite (generate_study_notes_bad_transcription _ _ _ _ _ _ _ _ Hn Hd Ht Hz).
      cbn [fst snd trail files persisted foldl].
      rewrite (generate_study_notes_bad_transcription _ _ _ _ _ _ _ _ Hn Hd Ht Hz).
      settle_again.
Qed.

(** X22. A task that is delivered twice, the second time on the table
    and the files left by the first, with providers that answer as they
    did (the name drawn by the download may differ). Transcribe and
    Synthesize, and a download that is not made or fails, return or
    raise what the first run did and leave the table and the files as
    the first run left them. A download that goes through is made
    again: it writes a second file, leaves the row with the id and the
    path of the second file, and returns them; with another name than
    the first, the first file stays on disk and the row no longer names
    it. *)
Theorem task_delivered_twice (w1 w2 : world) (m : message) (table : gmap Z Note.t)
    (disk : gset string) :
  keyed table →
  ydl_download w2 = ydl_download w1 →
  transcriptions_create w2 = transcriptions_create w1 →
  generate_content w2 = generate_content w1 →
  let r1 := run_call w1 m (SessionLocal table disk) in
  let t1 := persisted table (trail r1.2) in
  let r2 := run_call w2 m (SessionLocal t1 (files r1.2)) in
  let t2 := persisted t1 (trail r2.2) in
  match msg_call m with
  | download_audio_call link id =>
    match table !! id, ydl_download w1 with
    | Some n, None =>
      r1.1 = Return (download_result w1 link id)
      ∧ r2.1 = Return (download_result w2 link id)
      ∧ t1 = <[id := downloaded w1 n]> table
      ∧ t2 = <[id := downloaded w2 n]> table
      ∧ files r2.2 = {[ output_file w2 ]} ∪ ({[ output_file w1 ]} ∪ disk)
      ∧ (uuid4 w2 ≠ uuid4 w1 →
         r2.1 ≠ r1.1 ∧ t2 ≠ t1 ∧ output_file w2 ≠ output_file w1
         ∧ output_file w1 ∈ files r2.2
         ∧ Note.audio_path (downloaded w2 n) ≠ Some (output_file w1))
    | _, _ => r2.1 = r1.1 ∧ t2 = t1 ∧ files r2.2 = files r1.2
    end
  | _ => r2.1 = r1.1 ∧ t2 = t1 ∧ files r2.2 = files r1.2
  end.
Proof.
  intros Hkeyed Hy Ht Hg. unfold run_call. destruct (msg_call m) as [link id|d|d].
  - destruct (table !! id) as [n|] eqn:Hn.
    + destruct (ydl_download w1) as [err|] eqn:Hw1.
      * apply download_audio_again; [exact Hkeyed|congruence|right; rewrite Hw1; eauto].
      * assert (Hw2 : ydl_download w2 = None) by congruence.
        destruct (download_audio_twice w1 w2 (msg_retries m) link id table disk n
                    Hkeyed Hn Hw1 Hw2) as (R1 & R2 & T1 & T2 & F).
        cbv zeta. split; [exact R1|]. split; [exact R2|]. split; [exact T1|].
        split; [exact T2|]. split; [exact F|]. intros Hne.
        assert (Hfile : output_file w2 ≠ output_file w1).
        { intros E. apply Hne, output_file_inj, E. }
        split; [|split; [|split; [exact Hfile|split]]].
        -- rewrite R1, R2. intros E.
           apply (f_equal (λ o, match o with
                                | Return d => get d "audio_id"
                                | Raise _ => PNone
                                end)) in E.
           cbv beta iota in E. unfold download_result in E. revert E. dict_lookup.
           intros [= E]. auto.
        -- rewrite T2, T1. intros E.
           assert (E' : (<[id := downloaded w2 n]> table : gmap Z Note.t) !! id
                        = (<[id := downloaded w1 n]> table : gmap Z Note.t) !! id)
             by (rewrite E; reflexivity).
           rewrite !lookup_insert_eq in E'. injection E' as E' _. auto.
        -- rewrite F. apply elem_of_union_r, elem_of_union_l, elem_of_singleton. reflexivity.
        -- unfold downloaded. cbn [Note.audio_path Note.set_status Note.set_audio_path].
           intros E. apply Hfile. congruence.
    + apply download_audio_again; [exact Hkeyed|exact Hy|left; exact Hn].
  - cbv zeta. rewrite (translate_audio_world w1 w2 _ _ Ht).
    apply translate_audio_again, Hkeyed.
  - cbv zeta. rewrite (generate_study_notes_world w1 w2 _ _ Hg).
    apply generate_study_notes_again, Hkeyed.
Qed.

Lemma task_delivered_twice_witness :
  let table : gmap Z Note.t :=
    {[ 1 := Note.Make 1 "https://v/1" (Some "t1") "pending" None None None None None 10 ]} in
  let w2 := World "second" None (transcriptions_create world_ok) (generate_content world_ok) in
  let m := create_audio_transcription_chain "https://v/1" 1 in
  let r1 := run_call world_ok m (SessionLocal table ∅) in
  let t1 := persisted table (trail r1.2) in
  let r2 := run_call w2 m (SessionLocal t1 (files r1.2)) in
  let t2 := persisted t1 (trail r2.2) in
  match msg_call m with
  | download_audio_call link id =>
    match table !! id, ydl_download world_ok with
    | Some n, None =>
      r1.1 = Return (download_result world_ok link id)
      ∧ r2.1 = Return (download_result w2 link id)
      ∧ t1 = <[id := downloaded world_ok n]> table
      ∧ t2 = <[id := downloaded w2 n]> table
      ∧ files r2.2 = {[ output_file w2 ]} ∪ ({[ output_file world_ok ]} ∪ ∅)
      ∧ (uuid4 w2 ≠ uuid4 world_ok →
         r2.1 ≠ r1.1 ∧ t2 ≠ t1 ∧ output_file w2 ≠ output_file world_ok
         ∧ output_file world_ok ∈ files r2.2
         ∧ Note.audio_path (downloaded w2 n) ≠ Some (output_file world_ok))
    | _, _ => r2.1 = r1.1 ∧ t2 = t1 ∧ files r2.2 = files r1.2
    end
  | _ => r2.1 = r1.1 ∧ t2 = t1 ∧ files r2.2 = files r1.2
  end.
Proof.
  apply (task_delivered_twice world_ok
           (World "second" None (transcriptions_create world_ok) (generate_content world_ok))
           (create_audio_transcription_chain "https://v/1" 1)
           {[ 1 := Note.Make 1 "https://v/1" (Some "t1") "pending" None None None None
                             None 10 ]} ∅).
  - intros k n Hn. apply lookup_singleton_Some in Hn as [<- <-]. reflexivity.
  - reflexivity.
  - reflexivity.
  - reflexivity.
Defined.

(** ** No job is left without a task *)

Lemma keyed_insert (table : gmap Z Note.t) id n :
  keyed table → Note.id n = id → keyed (<[id := n]> table).
Proof.
  intros Hk Hid k r Hr. destruct (decide (id = k)) as [->|Hne].
  - rewrite lookup_insert_eq in Hr. injection Hr as <-. exact Hid.
  - rewrite lookup_insert_ne in Hr by done. eauto.
Qed.

Lemma elem_of_delete_other {A} (l : list A) i x y :
  x ∈ l → l !! i = Some y → x ≠ y → x ∈ delete i l.
Proof.
  intros Hx Hy Hne. apply list_elem_of_lookup in Hx as [j Hj].
  assert (j ≠ i) by (intros ->; congruence).
  destruct (decide (j < i)%nat) as [Hlt|Hge].
  - eapply list_elem_of_lookup_2. rewrite list_lookup_delete_lt by exact Hlt. exact Hj.
  - destruct j as [|j]; [lia|]. eapply (list_elem_of_lookup_2 _ j).
    rewrite list_lookup_delete_ge by lia. exact Hj.
Qed.

Lemma step_live_unchanged table m next :
  keyed table → Forall well_chained next →
  (∀ k r, table !! k = Some r → target m = Some k → unfinished r →
          ∃ m', m' ∈ next ∧ target m' = Some k) →
  step_live table table m next.
Proof.
  intros Hk Hw H. split; [exact Hk|]. split; [exact Hw|]. intros k r Hr Hu.
  destruct (decide (target m = Some k)) as [E|E]; [right; eauto|left; auto].
Qed.

Lemma step_live_update table id n n' m next :
  keyed table → table !! id = Some n → Note.id n' = id → target m = Some id →
  Forall well_chained next →
  (unfinished n' → ∃ m', m' ∈ next ∧ target m' = Some id) →
  step_live table (<[id := n']> table) m next.
Proof.
  intros Hk Hn Hid Ht Hw H. split; [apply keyed_insert; assumption|]. split; [exact Hw|].
  intros k r Hr Hu. destruct (decide (id = k)) as [->|Hne].
  - rewrite lookup_insert_eq in Hr. injection Hr as <-. right. auto.
  - rewrite lookup_insert_ne in Hr by done. left. split; [congruence|exact Hr].
Qed.

Lemma target_dict d id :
  get d "note_id" = PInt id →
  (∀ r ch, target (Message (translate_audio_to_text_call d) r ch) = Some id)
  ∧ (∀ r ch, target (Message (generate_study_notes_call d) r ch) = Some id).
Proof. intros H. unfold target. cbn [msg_call]. rewrite H. auto. Qed.

Lemma target_names_no_row (d : gmap string pyval) (table : gmap Z Note.t) c r ch k n :
  names_no_row d table →
  c = translate_audio_to_text_call d ∨ c = generate_study_notes_call d →
  table !! k = Some n → target (Message c r ch) ≠ Some k.
Proof.
  intros Hno Hc Hn. unfold target. cbn [msg_call].
  destruct Hc as [-> | ->]; destruct (get d "note_id") as [| |id] eqn:E; try discriminate;
    intros [= ->]; rewrite (Hno k E) in Hn; discriminate.
Qed.

Lemma unfinished_failed n : Note.status n = "failed" → ¬ unfinished n.
Proof. intros E [H|H]; rewrite E in H; discriminate. Qed.

Lemma unfinished_completed n : Note.status n = "completed" → ¬ unfinished n.
Proof. intros E [H|H]; rewrite E in H; discriminate. Qed.

Lemma last_attempt retries : (2 <=? retries)%nat = negb (retries <? max_retries)%nat.
Proof.
  unfold max_retries. destruct (Nat.leb_spec 2 retries), (Nat.ltb_spec retries 2);
    cbn; try reflexivity; lia.
Qed.

Ltac one_message :=
  eexists; split; [apply list_elem_of_here|]; unfold target; cbn [msg_call];
  try dict_lookup; try reflexivity.

Ltac only_message := apply Forall_cons_2; [|apply Forall_nil_2]; unfold well_chained;
  cbn [msg_call msg_chain].

(** A run that raises: on the last attempt the row is failed and
    nothing is sent; before that the same message is sent again. *)
Section Raised.
Context (table : gmap Z Note.t) (id : Z) (n : Note.t) (c : call) (retries : nat)
        (chain : list linked) (e : exn).
Hypothesis (Hk : keyed table) (Hn : table !! id = Some n).
Hypothesis (Ht : target (Message c retries chain) = Some id).
Hypothesis (Hw : well_chained (Message c retries chain)).

Lemma raised_last n' :
  (2 <=? retries)%nat = true → Note.id n' = id → Note.status n' = "failed" →
  step_live table (<[id := n']> table) (Message c retries chain)
            (follow_up (Message c retries chain) (Raise e)).
Proof.
  intros E Hid Hs. cbn [follow_up msg_retries msg_call msg_chain].
  rewrite last_attempt in E. apply negb_true_iff in E. rewrite E.
  apply (step_live_update table id n n' _ _ Hk Hn Hid Ht); [apply Forall_nil_2|].
  intros Hu. destruct (unfinished_failed n' Hs Hu).
Qed.

Lemma raised_before n' :
  (2 <=? retries)%nat = false → Note.id n' = id →
  step_live table (<[id := n']> table) (Message c retries chain)
            (follow_up (Message c retries chain) (Raise e)).
Proof.
  intros E Hid. cbn [follow_up msg_retries msg_call msg_chain].
  rewrite last_attempt in E. apply negb_false_iff in E. rewrite E.
  apply (step_live_update table id n n' _ _ Hk Hn Hid Ht).
  - only_message. exact Hw.
  - intros _. eexists. split; [apply list_elem_of_here|]. exact Ht.
Qed.

Lemma raised_before_quiet :
  (2 <=? retries)%nat = false → step_live table table (Message c retries chain)
            (follow_up (Message c retries chain) (Raise e)).
Proof.
  intros E. cbn [follow_up msg_retries msg_call msg_chain].
  rewrite last_attempt in E. apply negb_false_iff in E. rewrite E.
  apply step_live_unchanged; [exact Hk| |].
  - only_message. exact Hw.
  - intros k r _ Hk' _. eexists. split; [apply list_elem_of_here|]. exact Hk'.
Qed.
End Raised.

Ltac settle_tables := cbv zeta; cbn [fst snd trail files persisted foldl].

(** Every run of a well-chained message keeps the promise. *)
Lemma run_call_live w c retries chain table disk :
  keyed table → well_chained (Message c retries chain) →
  step_live table
    (persisted table (trail (run_call w (Message c retries chain)
                               (SessionLocal table disk)).2))
    (Message c retries chain)
    (follow_up (Message c retries chain)
               (run_call w (Message c retries chain) (SessionLocal table disk)).1).
Proof.
  intros Hk Hw. unfold run_call. cbn [msg_call msg_retries].
  destruct c as [link id|d|d]; unfold well_chained in Hw; cbn [msg_call msg_chain] in Hw.
  - (* download *)
    subst chain. destruct (table !! id) as [n|] eqn:Hn.
    + pose proof (Hk _ _ Hn) as Hid.
      destruct (ydl_download w) as [err|] eqn:Hy.
      * rewrite (download_audio_fails _ _ _ _ _ _ _ _ Hn Hid Hy). cbv zeta.
        destruct (2 <=? retries)%nat eqn:E; settle_tables.
        -- apply (raised_last table id n); auto; reflexivity.
        -- apply (raised_before table id n); auto; reflexivity.
      * rewrite (download_audio_succeeds _ _ _ _ _ _ _ Hn Hid Hy). settle_tables.
        cbn [follow_up msg_chain apply_linked].
        eapply step_live_update; [exact Hk|exact Hn|exact Hid|reflexivity| |].
        -- only_message. reflexivity.
        -- intros _. one_message.
    + rewrite (download_audio_not_found _ _ _ _ _ _ Hn). settle_tables.
      cbn [follow_up msg_chain apply_linked].
      apply step_live_unchanged; [exact Hk| |].
      * only_message. reflexivity.
      * intros k r Hr [= <-]. congruence.
  - (* transcription *)
    subst chain. destruct (named_row d table) as [Hno|(id & n & Hd & Hn)].
    + rewrite (translate_audio_not_found _ _ _ _ _ Hno). settle_tables.
      cbn [follow_up msg_chain apply_linked].
      apply step_live_unchanged; [exact Hk| |].
      * only_message. split; [reflexivity|]. intros z. dict_lookup. discriminate.
      * intros k r Hr Ht. destruct (target_names_no_row d table _ _ _ k r Hno
                                      (or_introl eq_refl) Hr Ht).
    + pose proof (Hk _ _ Hn) as Hid.
      pose proof (proj1 (target_dict d id Hd) retries [generate_study_notes_s]) as Ht.
      destruct (falsy_or_text (get d "audio_path")) as [Hf|[(p & Hp & Hne)|(z & Hp & Hz)]].
      * rewrite (translate_missing_audio _ _ _ _ _ _ _ Hn Hid Hd (or_introl Hf)).
        settle_tables. cbn [follow_up msg_chain apply_linked].
        eapply step_live_update; [exact Hk|exact Hn|exact Hid|exact Ht| |].
        -- only_message. split; [reflexivity|]. intros z. dict_lookup. discriminate.
        -- intros Hu. destruct (unfinished_failed (Note.set_status "failed" n) eq_refl Hu).
      * destruct (decide (p ∈ disk)) as [Hin|Hout].
        -- destruct (transcriptions_create w) as [err|t] eqn:Hy.
           ++ rewrite (translate_audio_fails _ _ _ _ _ _ _ _ _ Hn Hid Hd Hp Hne Hin Hy).
              cbv zeta. destruct (2 <=? retries)%nat eqn:E; settle_tables.
              ** apply (raised_last table id n); auto; reflexivity.
              ** apply raised_before_quiet; auto; reflexivity.
           ++ rewrite (translate_audio_succeeds _ _ _ _ _ _ _ _ _ Hn Hid Hd Hp Hne Hin Hy).
              settle_tables. cbn [follow_up msg_chain apply_linked].
              eapply step_live_update; [exact Hk|exact Hn|exact Hid|exact Ht| |].
              ** only_message. split; [reflexivity|]. intros z. dict_lookup. discriminate.
              ** intros _. one_message.
        -- assert (Hmiss : truthy (get d "audio_path") = false
                           ∨ ∃ p, get d "audio_path" = PStr p ∧ p ∉ disk) by eauto.
           rewrite (translate_missing_audio _ _ _ _ _ _ _ Hn Hid Hd Hmiss).
           settle_tables. cbn [follow_up msg_chain apply_linked].
           eapply step_live_update; [exact Hk|exact Hn|exact Hid|exact Ht| |].
           ++ only_message. split; [reflexivity|]. intros z. dict_lookup. discriminate.
           ++ intros Hu. destruct (unfinished_failed (Note.set_status "failed" n) eq_refl Hu).
      * rewrite (translate_audio_bad_path _ _ _ _ _ _ _ _ Hn Hid Hd Hp Hz).
        cbv zeta. destruct (2 <=? retries)%nat eqn:E; settle_tables.
        -- apply (raised_last table id n); auto; reflexivity.
        -- apply raised_before_quiet; auto; reflexivity.
  - (* notes *)
    destruct Hw as [-> Htext]. destruct (named_row d table) as [Hno|(id & n & Hd & Hn)].
    + rewrite (generate_study_notes_not_found _ _ _ _ _ Hno). settle_tables.
      cbn [follow_up msg_chain].
      apply step_live_unchanged; [exact Hk|apply Forall_nil_2|].
      intros k r Hr Ht. destruct (target_names_no_row d table _ _ _ k r Hno
                                    (or_intror eq_refl) Hr Ht).
    + pose proof (Hk _ _ Hn) as Hid.
      pose proof (proj2 (target_dict d id Hd) retries []) as Ht.
      assert (Hwell : well_chained (Message (generate_study_notes_call d) retries [])).
      { split; [reflexivity|exact Htext]. }
      destruct (falsy_or_text (get d "transcription")) as [Hf|[(t & Htr & Hne)|(z & Htr & _)]].
      * rewrite (generate_study_notes_without_transcription _ _ _ _ _ _ _ Hn Hid Hd Hf).
        settle_tables. cbn [follow_up msg_chain].
        eapply step_live_update;
          [exact Hk|exact Hn|exact Hid|exact Ht|apply Forall_nil_2|].
        intros Hu. eapply unfinished_failed in Hu; [destruct Hu|reflexivity].
      * destruct (provider_error (generate_study_notes_call d) w) as [cause|] eqn:Hy.
        -- rewrite (generate_study_notes_fails _ _ _ _ _ _ _ _ _ Hn Hid Hd Htr Hne Hy).
           cbv zeta. destruct (2 <=? retries)%nat eqn:E; settle_tables.
           ++ apply (raised_last table id n); auto; reflexivity.
           ++ apply raised_before_quiet; auto; reflexivity.
        -- destruct (provider_answers w d Hy) as (r & Hr & Hrt).
           rewrite (generate_study_notes_succeeds _ _ _ _ _ _ _ _ _ Hn Hid Hd Htr Hne Hr Hrt).
           settle_tables. cbn [follow_up msg_chain].
           eapply step_live_update;
             [exact Hk|exact Hn|exact Hid|exact Ht|apply Forall_nil_2|].
           intros Hu. eapply unfinished_completed in Hu; [destruct Hu|reflexivity].
      * destruct (Htext z Htr).
Qed.

(** A worker step keeps [live]. *)
Lemma worker_live st i w : live st → live (System.exec (System.worker_runs i w) st).
Proof.
  intros (Hk & Hw & Hcov). unfold System.exec, live.
  cbn [System.db System.broker System.events_of System.broker_after].
  destruct (System.broker st !! i) as [m|] eqn:Hm.
  - assert (Hwm : well_chained m).
    { eapply Forall_forall; [exact Hw|]. eapply list_elem_of_lookup_2, Hm. }
    destruct m as [c retries chain].
    destruct (run_call_live w c retries chain (System.db st) (System.disk st) Hk Hwm)
      as (Hk' & Hw' & Hcov').
    split; [exact Hk'|]. split.
    + apply Forall_app. split; [|exact Hw'].
      apply Forall_forall. intros x Hx. eapply Forall_forall; [exact Hw|].
      eapply list_elem_of_delete_inv, Hx.
    + intros k r Hr Hu. destruct (Hcov' k r Hr Hu) as [[Hne Hold]|(m' & Hin & Ht)].
      * destruct (Hcov k r Hold Hu) as (m' & Hin & Ht). exists m'. split; [|exact Ht].
        apply elem_of_app. left. eapply elem_of_delete_other; [exact Hin|exact Hm|].
        intros ->. congruence.
      * exists m'. split; [apply elem_of_app; right; exact Hin|exact Ht].
  - cbn [persisted foldl]. auto.
Qed.

(** A handler step keeps [live] when the rows it leaves unfinished are
    rows it did not touch or rows it sent a message about. *)
Lemma handler_live st table' disk' sent :
  live st → keyed table' → Forall well_chained sent →
  (∀ k r, table' !! k = Some r → unfinished r →
          System.db st !! k = Some r ∨ ∃ m, m ∈ sent ∧ target m = Some k) →
  live (System.State table' disk' (System.broker st ++ sent)).
Proof.
  intros (Hk & Hw & Hcov) Hk' Hw' H. unfold live. cbn [System.db System.broker].
  split; [exact Hk'|]. split; [apply Forall_app; auto|].
  intros k r Hr Hu. destruct (H k r Hr Hu) as [Hold|(m & Hin & Ht)].
  - destruct (Hcov k r Hold Hu) as (m & Hin & Ht). exists m. split; [|exact Ht].
    apply elem_of_app. left. exact Hin.
  - exists m. split; [|exact Ht]. apply elem_of_app. right. exact Hin.
Qed.

Lemma handler_quiet st disk' : live st → live (System.State (System.db st) disk' (System.broker st ++ [])).
Proof.
  intros H. apply handler_live; [exact H|exact (proj1 H)|apply Forall_nil_2|auto].
Qed.

(** A handler that writes one row and sends one message about it. *)
Lemma handler_one st id n' m disk' :
  live st → Note.id n' = id → well_chained m → target m = Some id →
  live (System.State (<[id := n']> (System.db st)) disk' (System.broker st ++ [m])).
Proof.
  intros H Hid Hw Ht. apply handler_live; [exact H| | |].
  - apply keyed_insert; [exact (proj1 H)|exact Hid].
  - apply Forall_cons_2; [exact Hw|apply Forall_nil_2].
  - intros k r Hr Hu. destruct (decide (id = k)) as [->|Hne].
    + right. exists m. split; [apply list_elem_of_here|exact Ht].
    + rewrite lookup_insert_ne in Hr by done. left. exact Hr.
Qed.

Lemma regenerate_message_target n :
  well_chained (regenerate_message n) ∧ target (regenerate_message n) = Some (Note.id n).
Proof.
  unfold regenerate_message, well_chained, target. cbn [msg_call msg_chain].
  unfold Api.transcription_data_of. split; [split; [reflexivity|]|dict_lookup; reflexivity].
  intros z. dict_lookup. destruct (Note.transcription n); discriminate.
Qed.

Lemma retry_message_target disk n :
  well_chained (retry_message disk n) ∧ target (retry_message disk n) = Some (Note.id n).
Proof.
  unfold retry_message.
  destruct (retry_audio_exists disk n); cbn [andb];
    [destruct (Api.is_some (Note.transcription n))|].
  - apply regenerate_message_target.
  - unfold well_chained, target. cbn [msg_call msg_chain]. unfold Api.audio_data_of.
    split; [reflexivity|dict_lookup; reflexivity].
  - split; reflexivity.
Qed.

Lemma intake_live st url now tid :
  live st → live (System.exec (System.post_notes_youtube url now tid) st).
Proof.
  intros H. unfold System.exec.
  cbn [System.db System.broker System.events_of System.broker_after System.disk_after].
  destruct (query_existing_run url (System.db st) (System.disk st) []) as (found & Hq & _).
  fold (SessionLocal (System.db st) (System.disk st)) in Hq.
  assert (Hcases : (∃ e, found = Some e ∧ truthy_text (Note.note e) = true)
                   ∨ match found with
                     | Some e => truthy_text (Note.note e) = false
                     | None => True
                     end).
  { destruct found as [e|]; [|right; exact I].
    destruct (truthy_text (Note.note e)) eqn:E; [left; eauto|right; reflexivity]. }
  destruct Hcases as [(e & -> & Htr)|Hmiss].
  - rewrite (create_notes_hit _ now tid _ _ _ Hq Htr). cbv zeta.
    cbn [snd trail persisted foldl delayed omap].
    apply handler_live; [exact H| |apply Forall_nil_2|].
    + apply keyed_insert; [exact (proj1 H)|reflexivity].
    + intros k r Hr Hu. destruct (decide (next_id (System.db st) = k)) as [<-|Hne].
      * rewrite lookup_insert_eq in Hr. injection Hr as <-.
        eapply unfinished_completed in Hu; [destruct Hu|reflexivity].
      * rewrite lookup_insert_ne in Hr by done. left. exact Hr.
  - rewrite (create_notes_miss _ now tid _ _ _ Hq Hmiss). cbv zeta.
    cbn [snd trail persisted foldl delayed omap].
    apply handler_one; [exact H|reflexivity|reflexivity|reflexivity].
Qed.

Lemma retry_live st id tid : live st → live (System.exec (System.post_retry id tid) st).
Proof.
  intros H. unfold System.exec.
  cbn [System.db System.broker System.events_of System.broker_after System.disk_after].
  destruct (System.db st !! id) as [n|] eqn:Hn.
  - pose proof (proj1 H _ _ Hn) as Hid.
    rewrite (retry_note_run _ _ _ _ tid Hn Hid).
    destruct (String.eqb _ _ && truthy_text (Note.note n)).
    + cbn [snd trail persisted foldl delayed omap]. apply handler_quiet, H.
    + cbv zeta. cbn [snd trail persisted foldl delayed omap].
      destruct (retry_message_target (System.disk st) n) as [Hw Ht].
      apply handler_one; [exact H| |exact Hw|rewrite Ht, Hid; reflexivity].
      unfold retry_reset. destruct (retry_audio_exists _ _); exact Hid.
  - unfold Api.retry_note, SessionLocal. unfold_monad. rewrite Hn.
    cbn [snd trail persisted foldl delayed omap]. apply handler_quiet, H.
Qed.

Lemma regenerate_note_live st id tid :
  live st → live (System.exec (System.post_regenerate_note id tid) st).
Proof.
  intros H. unfold System.exec.
  cbn [System.db System.broker System.events_of System.broker_after System.disk_after].
  destruct (System.db st !! id) as [n|] eqn:Hn.
  - pose proof (proj1 H _ _ Hn) as Hid.
    destruct (truthy_text (Note.transcription n)) eqn:Ht;
      [destruct (truthy_text (Note.note n)) eqn:Hnote|].
    + unfold Api.regenerate_note, SessionLocal. unfold_monad. rewrite Hn, Ht, Hnote.
      cbn [negb snd trail persisted foldl delayed omap]. apply handler_quiet, H.
    + rewrite (regenerate_note_run _ _ _ _ tid Hn Hid Ht Hnote). cbv zeta.
      cbn [snd trail persisted foldl delayed omap].
      destruct (regenerate_message_target n) as [Hw Htg].
      apply handler_one; [exact H|exact Hid|exact Hw|rewrite Htg, Hid; reflexivity].
    + unfold Api.regenerate_note, SessionLocal. unfold_monad. rewrite Hn, Ht.
      cbn [negb snd trail persisted foldl delayed omap]. apply handler_quiet, H.
  - unfold Api.regenerate_note, SessionLocal. unfold_monad. rewrite Hn.
    cbn [snd trail persisted foldl delayed omap]. apply handler_quiet, H.
Qed.

Lemma regenerate_all_live st tids :
  live st → live (System.exec (System.post_regenerate_all tids) st).
Proof.
  intros H. pose proof (proj1 H) as Hk. unfold System.exec.
  cbn [System.db System.broker System.events_of System.broker_after System.disk_after].
  unfold Api.regenerate_all_notes, SessionLocal. cbn [rows].
  set (notes := List.filter _ _).
  assert (Hrows : ∀ n, n ∈ notes → System.db st !! Note.id n = Some n).
  { intros n Hin. apply list_elem_of_In, filter_In in Hin as [Hin _].
    apply scanned_row in Hin as [k Hn]. rewrite (Hk _ _ Hn). exact Hn. }
  destruct (regenerate_loop_run tids (System.disk st) notes 0 (System.db st) [])
    as (t' & evs & R & P & D & Hpicked & Hother).
  { apply NoDup_ids_filter. rewrite keyed_scan_ids by exact Hk.
    apply NoDup_fst_map_to_list. }
  { exact Hrows. }
  rewrite R. cbn [snd trail app]. rewrite P, D.
  apply handler_live; [exact H| |apply Forall_forall|].
  - intros k r Hr. destruct (decide (k ∈ Note.id <$> notes)) as [Hin|Hout].
    + apply list_elem_of_fmap in Hin as (n & -> & Hin).
      apply list_elem_of_lookup in Hin as [i Hi].
      rewrite (Hpicked i n Hi) in Hr. injection Hr as <-. reflexivity.
    + rewrite (Hother k Hout) in Hr. eauto.
  - intros m Hm. apply list_elem_of_fmap in Hm as (n & -> & _).
    apply regenerate_message_target.
  - intros k r Hr Hu. destruct (decide (k ∈ Note.id <$> notes)) as [Hin|Hout].
    + right. apply list_elem_of_fmap in Hin as (n & -> & Hin).
      exists (regenerate_message n). split; [|apply regenerate_message_target].
      apply list_elem_of_fmap. eauto.
    + left. rewrite <- (Hother k Hout). exact Hr.
Qed.

Lemma exec_live a st : live st → live (System.exec a st).
Proof.
  destruct a as [url now tid|id tid|tids|id tid|i w|files'].
  - apply intake_live.
  - apply retry_live.
  - apply regenerate_all_live.
  - apply regenerate_note_live.
  - apply worker_live.
  - intros H. unfold System.exec.
    cbn [System.db System.broker System.events_of System.broker_after System.disk_after
         persisted foldl delayed omap].
    apply handler_quiet, H.
Qed.

Lemma reachable_live st : System.reachable st → live st.
Proof.
  induction 1 as [|a st _ IH]; [|apply exec_live, IH].
  unfold live, System.initial. cbn [System.db System.broker].
  split; [intros k n H; rewrite lookup_empty in H; discriminate|].
  split; [apply Forall_nil_2|]. intros k n H. rewrite lookup_empty in H. discriminate.
Qed.

(** X23. No job is left without a task: in every reachable state, a row
    whose status is pending or processing is the row of a message of
    the broker (the [note_id] of its task is the id of the row); so once
    the broker is empty every row is completed or failed. The workers
    keep this because a task that raises is sent again until its last
    attempt, which marks the row failed, and a task that returns hands
    its row to the next task of the chain; the handlers keep it because
    they send a task for every row they leave pending or processing. *)
Theorem unfinished_jobs_have_tasks (st : System.state) (k : Z) (n : Note.t) :
  System.reachable st → System.db st !! k = Some n →
  (Note.status n = "pending" ∨ Note.status n = "processing" →
   ∃ m, m ∈ System.broker st ∧ target m = Some k)
  ∧ (System.broker st = [] → Note.status n = "completed" ∨ Note.status n = "failed").
Proof.
  intros Hreach Hn. destruct (reachable_live st Hreach) as (_ & _ & Hcov).
  assert (Hfirst : Note.status n = "pending" ∨ Note.status n = "processing" →
                   ∃ m, m ∈ System.broker st ∧ target m = Some k).
  { intros Hu. exact (Hcov k n Hn Hu). }
  split; [exact Hfirst|]. intros Hempty.
  pose proof (reachable_valid st Hreach k n Hn) as Hv. unfold valid_status in Hv.
  cbn [fmap list_fmap Views.members Views.value] in Hv.
  apply elem_of_cons in Hv as [Hv|Hv].
  { destruct (Hfirst (or_introl Hv)) as (m & Hin & _). rewrite Hempty in Hin.
    apply elem_of_nil in Hin. destruct Hin. }
  apply elem_of_cons in Hv as [Hv|Hv].
  { destruct (Hfirst (or_intror Hv)) as (m & Hin & _). rewrite Hempty in Hin.
    apply elem_of_nil in Hin. destruct Hin. }
  apply elem_of_cons in Hv as [Hv|Hv]; [right; exact Hv|].
  apply elem_of_cons in Hv as [Hv|Hv]; [left; exact Hv|].
  apply elem_of_nil in Hv. destruct Hv.
Qed.

Lemma unfinished_jobs_have_tasks_witness :
  let st := System.run [System.post_notes_youtube "https://v/1" 10 "t1"] System.initial in
  let n := Note.Make 1 "https://v/1" (Some "t1") "pending" None None None None None 10 in
  (Note.status n = "pending" ∨ Note.status n = "processing" →
   ∃ m, m ∈ System.broker st ∧ target m = Some 1)
  ∧ (System.broker st = [] → Note.status n = "completed" ∨ Note.status n = "failed").
Proof.
  apply (unfinished_jobs_have_tasks
           (System.run [System.post_notes_youtube "https://v/1" 10 "t1"] System.initial) 1).
  - apply reachable_run, System.reachable_initial.
  - vm_compute. reflexivity.
Defined.
